(** * Grizzly execution core: Runner, _IdleChecker, LogOutputLimiter, Session

    A shallow embedding of [grizzly/common/runner.py] and
    [grizzly/session.py].  Python methods become computations in a small
    state-and-exception monad; the mutable objects ([_IdleChecker],
    [Runner], [LogOutputLimiter], [Status]) are records threaded through
    that monad next to a [World] holding the wall clock, the set of
    existing directories and the trace of calls made to the external
    collaborators (target, server, adapter, test case, reporter, logger).

    Wall-clock readings and delays are integers (a fixed unit of time);
    Python's unbounded [int] is [Z]. *)

From Stdlib Require Import ZArith Lia Ascii String.
From stdpp Require Import base gmap strings pretty list.

#[local] Set Warnings "-clear-no-such-hyp".

Local Open Scope Z_scope.

(** ** Exceptions and results *)

Inductive exn : Type :=
| AssertionError
| TargetLaunchError
| TargetLaunchTimeout
| SessionError
| ExternalError.

Inductive res (A : Type) : Type :=
| Ok (a : A)
| Raise (e : exn).
Arguments Ok {A} a.
Arguments Raise {A} e.

(** ** The state-and-exception monad

    A raised exception keeps the state reached so far: Python mutations
    made before a [raise] are not rolled back. *)

Definition M (St A : Type) : Type := St -> res A * St.

Definition ret {St A} (a : A) : M St A := fun s => (Ok a, s).

Definition bind {St A B} (m : M St A) (k : A -> M St B) : M St B :=
  fun s => match m s with
           | (Ok a, s') => k a s'
           | (Raise e, s') => (Raise e, s')
           end.

Definition raise {St A} (e : exn) : M St A := fun s => (Raise e, s).

Definition get {St} : M St St := fun s => (Ok s, s).
Definition put {St} (s : St) : M St unit := fun _ => (Ok tt, s).
Definition modify {St} (f : St -> St) : M St unit := fun s => (Ok tt, f s).

(** [assert b]: Python's [assert] statement. *)
Definition assert {St} (b : bool) : M St unit :=
  if b then ret tt else raise AssertionError.

(** [try m except e -> h e]. *)
Definition catch {St A} (m : M St A) (h : exn -> M St A) : M St A :=
  fun s => match m s with
           | (Ok a, s') => (Ok a, s')
           | (Raise e, s') => h e s'
           end.

(** [try m finally f]: [f] runs on both exits; an exception raised by
    [f] itself replaces the pending outcome. *)
Definition finally {St A} (m : M St A) (f : M St unit) : M St A :=
  fun s => match m s with
           | (r, s') => match f s' with
                        | (Ok _, s'') => (r, s'')
                        | (Raise e, s'') => (Raise e, s'')
                        end
           end.

(** [for x in l: body x] *)
Fixpoint for_each {St A} (l : list A) (body : A -> M St unit) : M St unit :=
  match l with
  | [] => ret tt
  | x :: l' => bind (body x) (fun _ => for_each l' body)
  end.

Declare Scope py_scope.
Delimit Scope py_scope with py.
Notation "'let!' x ':=' c 'in' k" := (bind c (fun x => k))
  (at level 10, x pattern, c at level 100, k at level 200) : py_scope.
Notation "c '>>' k" := (bind c (fun _ => k))
  (at level 100, k at level 200, right associativity) : py_scope.
Local Open Scope py_scope.

(** Running a method of a component object that lives in a field of a
    larger state. *)
Definition zoom {S1 S2 A} (proj : S2 -> S1) (upd : S1 -> S2 -> S2)
    (m : M S1 A) : M S2 A :=
  fun s => match m (proj s) with
           | (r, s1) => (r, upd s1 s)
           end.

(** ** The world outside the Python objects *)

Inductive level : Type := DEBUG | INFO | WARNING | ERROR.

(** Answers of the external collaborators that the code branches on. *)
Inductive launch_outcome : Type :=
| LaunchOk
| LaunchFails      (* target.launch raises TargetLaunchError *)
| LaunchTimesOut.  (* target.launch raises TargetLaunchTimeout *)

(** Modelled from the spec: the constants [Target.RESULT_NONE],
    [Target.RESULT_FAILURE] and [Target.RESULT_IGNORED] of the target
    class (not part of the sources); [detect_failure] returns one of
    no-failure, failure, ignored-failure. *)
Inductive detect_result : Type :=
| RESULT_NONE
| RESULT_FAILURE
| RESULT_IGNORED.

(** Modelled from the spec: the serving layer's status (the constant
    [sapphire.SERVED_TIMEOUT] and its siblings are not part of the
    sources); the status distinguishes a timeout from the other ways
    serving can end. *)
Inductive serve_status : Type :=
| SERVED_ALL
| SERVED_NONE
| SERVED_REQUEST
| SERVED_TIMEOUT.

Inductive Event : Type :=
| EvLog (lvl : level) (msg : string)
| EvSleep (seconds : Z)
| EvMkdtemp (dir : string)
| EvRmtree (dir : string)
| EvClearBacklog
| EvTargetLaunch (location : string)
| EvReportCleanup
| EvTargetIsIdle (threshold : Z)
| EvMonitorIsHealthy
| EvDump (dir : string)
| EvServePath (dir : string) (forever : bool)
| EvAddBatch (url : string)
| EvDumpCoverage
| EvDetectFailure (timeout : bool)
| EvTargetClose
| EvTargetStep
| EvSaveLogs (dir : string)
| EvCheckRelaunch
| EvStatusReport
| EvPurgeTests
| EvPreLaunch
| EvSetDynamicResponse
| EvCreateTestcase
| EvGenerate
| EvAddMeta
| EvOnTimeout
| EvOnServed
| EvPopCleanup
| EvPurgeOptional
| EvMakeReport (dir : string)
| EvTestsReverse
| EvSubmit
| EvCountResult.

Record World : Type := mkWorld {
  clock : nat -> Z;       (* successive readings of [time()] *)
  ticks : nat;            (* how many readings were taken *)
  dirs : gset string;     (* directories that exist *)
  trace : list Event      (* external calls, oldest first *)
}.

Definition set_ticks (n : nat) (w : World) : World :=
  mkWorld (clock w) n (dirs w) (trace w).
Definition set_dirs (d : gset string) (w : World) : World :=
  mkWorld (clock w) (ticks w) d (trace w).
Definition set_trace (t : list Event) (w : World) : World :=
  mkWorld (clock w) (ticks w) (dirs w) t.

(** [time()] *)
Definition time : M World Z :=
  fun w => (Ok (clock w (ticks w)), set_ticks (S (ticks w)) w).

(** An external call that returns nothing the code looks at. *)
Definition emit (e : Event) : M World unit :=
  modify (fun w => set_trace (trace w ++ [e]) w).

Definition log (lvl : level) (msg : string) : M World unit :=
  emit (EvLog lvl msg).

Definition sleep (seconds : Z) : M World unit := emit (EvSleep seconds).

(** [rmtree(d)]: removes the directory, and fails when there is none. *)
Definition rmtree (d : string) : M World unit :=
  emit (EvRmtree d) >>
  let! w := get in
  if bool_decide (d ∈ dirs w) then
    modify (fun w => set_dirs (dirs w ∖ {[ d ]}) w)
  else raise ExternalError.

(** [isdir(d)] *)
Definition isdir (d : string) : M World bool :=
  let! w := get in
  ret (bool_decide (d ∈ dirs w)).

(** A method runs on its object and the world: [self] reads the object,
    [update] mutates it, [io] performs an action on the world. *)
Definition io {T A} (m : M World A) : M (T * World) A :=
  zoom snd (fun w s => (fst s, w)) m.
Definition self {T} : M (T * World) T := fun s => (Ok (fst s), s).
Definition update {T} (f : T -> T) : M (T * World) unit :=
  modify (fun s => (f (fst s), snd s)).

(** ** [_IdleChecker] *)

Module IdleChecker.

Record t : Type := mk {
  _check_cb : Z -> M World bool;  (* callback used to check if target is idle *)
  _init_delay : Z;                (* time to wait before the initial idle poll *)
  _poll_delay : Z;                (* time to wait between subsequent polls *)
  _threshold : Z;                 (* CPU usage threshold *)
  _next_poll : option Z
}.

Definition set_next_poll (n : option Z) (c : t) : t :=
  mk (_check_cb c) (_init_delay c) (_poll_delay c) (_threshold c) n.

Definition St : Type := t * World.

(** [__init__(check_cb, threshold, initial_delay, poll_delay=1)];
    [callable(check_cb)] holds by typing. *)
Definition init (check_cb : Z -> M World bool) (threshold initial_delay : Z)
    (poll_delay : Z) : res t :=
  if negb (initial_delay >=? 0) then Raise AssertionError
  else if negb (poll_delay >=? 0) then Raise AssertionError
  else if negb ((100 >? threshold) && (threshold >=? 0)) then Raise AssertionError
  else Ok (mk check_cb initial_delay poll_delay threshold None).

(** [schedule_poll(initial=False, now=None)] *)
Definition schedule_poll (initial : bool) (now : option Z) : M St unit :=
  let! now := match now with
              | None => io time
              | Some n => ret n
              end in
  let! c := self in
  if initial
  then update (set_next_poll (Some (now + _init_delay c)))
  else update (set_next_poll (Some (now + _poll_delay c))).

(** [is_idle()] *)
Definition is_idle : M St bool :=
  let! c := self in
  match _next_poll c with
  | None => raise AssertionError  (* "schedule_poll() must be called first" *)
  | Some next_poll =>
      let! now := io time in
      if now >=? next_poll then
        let! idle := io (_check_cb c (_threshold c)) in
        if idle then ret true
        else schedule_poll false (Some now) >> ret false
      else ret false
  end.

End IdleChecker.

(** ** File-system helpers used by [Runner] and [Session] *)

(** Modelled from the spec: [grz_tmp] (grizzly/common/utils.py) is not
    part of the sources; the spec only speaks of the scratch and log
    directories made under what it returns.  It is taken to return a
    fixed root per purpose, which it may create when it is missing. *)
Definition grz_tmp (purpose : string) : M World string :=
  let path := "/tmp/grizzly/" +:+ purpose in
  modify (fun w => set_dirs (dirs w ∪ {[ path ]}) w) >>
  ret path.

(** [mkdtemp(prefix=..., dir=...)].  The random part of the name comes
    from the environment; [mkdtemp] only ever returns a directory that
    did not exist, and gives up with an error when it finds no unused
    name. *)
Definition mkdtemp (prefix dir suffix : string) : M World string :=
  let path := dir +:+ "/" +:+ prefix +:+ suffix in
  let! w := get in
  if bool_decide (path ∈ dirs w) then raise ExternalError
  else
    emit (EvMkdtemp path) >>
    modify (fun w => set_dirs (dirs w ∪ {[ path ]}) w) >>
    ret path.

(** ** [RunResult] *)

Module RunResult.

Definition FAILED : Z := 1.
Definition IGNORED : Z := 2.

Record t : Type := mk {
  attempted : bool;       (* entry point/landing page was requested *)
  duration : Z;
  initial : bool;         (* target was (re)launched prior to attempt *)
  served : list string;
  status : option Z;
  timeout : bool
}.

(** [__init__(served, duration, status=None, timeout=False)] *)
Definition init (served : list string) (duration : Z) (status : option Z)
    (timeout : bool) : t :=
  mk false duration false served status timeout.

Definition set_attempted (b : bool) (r : t) : t :=
  mk b (duration r) (initial r) (served r) (status r) (timeout r).
Definition set_initial (b : bool) (r : t) : t :=
  mk (attempted r) (duration r) b (served r) (status r) (timeout r).
Definition set_status (s : option Z) (r : t) : t :=
  mk (attempted r) (duration r) (initial r) (served r) s (timeout r).

End RunResult.

(** ** [Runner] *)

(** What the collaborators answer during one [Runner.run] call.  The
    serving layer is external: its internal wait loop, including its
    calls of the liveness callback, is summarised by what [serve_path]
    returns. *)
Record RunEnv : Type := mkRunEnv {
  tmp_suffix : string;        (* random part of the scratch directory name *)
  dump_raises : bool;         (* [testcase.dump] fails *)
  serve_result : option (serve_status * list string);
                              (* [None]: [serve_path] raises *)
  include_urls : list string; (* keys of [server_map.include] *)
  detect : detect_result      (* answer of [target.detect_failure] *)
}.

Record TestCase : Type := mkTestCase {
  landing_page : string;
  optional : list string
}.

(** [range(n)] and [reversed] *)
Definition range (n : Z) : list Z := Z.of_nat <$> seq 0 (Z.to_nat n).
Definition reversed {A} (l : list A) : list A := rev l.

(** [str.lstrip(c)] for a single character [c] *)
Fixpoint lstrip (c : Ascii.ascii) (s : string) : string :=
  match s with
  | String a rest => if Ascii.eqb a c then lstrip c rest else s
  | EmptyString => s
  end.

(** [sep.join(parts)] *)
Definition join (sep : string) (parts : list string) : string :=
  String.concat sep parts.

Module Runner.

Variant handle : Type := Handle.

Record t : Type := mk {
  _idle : option IdleChecker.t;
  _server : option handle;   (* a sapphire instance to serve the test case *)
  _target : option handle;   (* target to run test case *)
  _tests_run : Z             (* number of tests run since target (re)launched *)
}.

Definition set_idle (i : option IdleChecker.t) (r : t) : t :=
  mk i (_server r) (_target r) (_tests_run r).
Definition set_tests_run (n : Z) (r : t) : t :=
  mk (_idle r) (_server r) (_target r) n.

Definition St : Type := t * World.

(** [__init__(server, target, idle_threshold=0, idle_delay=0)];
    [target_is_idle] is the bound method [target.is_idle]. *)
Definition init (server target : option handle)
    (target_is_idle : Z -> M World bool) (idle_threshold idle_delay : Z)
    : M World t :=
  let! idle :=
    if idle_threshold >? 0 then
      assert (idle_delay >? 0) >>
      log DEBUG "using idle check, th %d, delay %ds" >>
      match IdleChecker.init target_is_idle idle_threshold idle_delay 1 with
      | Ok c => ret (Some c)
      | Raise e => raise e
      end
    else ret None in
  ret (mk idle server target 0).

(** [self._target.launch(location, env_mod=env_mod)] *)
Definition target_launch (location : string) (o : launch_outcome)
    : M World unit :=
  emit (EvTargetLaunch location) >>
  match o with
  | LaunchOk => ret tt
  | LaunchFails => raise TargetLaunchError
  | LaunchTimesOut => raise TargetLaunchTimeout
  end.

(** The body of [for retries in reversed(range(max_retries))] in
    [launch]; [script] lists what the successive [target.launch] calls do
    (a call beyond the script succeeds).  The inner monadic value tells
    whether the iteration ended in [continue] (true) or [break]. *)
Fixpoint launch_loop (location : string) (retry_delay : Z)
    (script : list launch_outcome) (rs : list Z) : M World unit :=
  match rs with
  | [] => ret tt
  | retries :: rs' =>
      let! again :=
        catch
          (target_launch location (hd LaunchOk script) >> ret false)
          (fun exc =>
             match exc with
             | TargetLaunchError =>
                 (* This is likely due to a bad build or environment
                    configuration. *)
                 if negb (retries =? 0) then
                   log WARNING "Failure detected during launch (retries %d)" >>
                   emit EvReportCleanup >>
                   sleep retry_delay >>
                   ret true
                 else raise exc
             | TargetLaunchTimeout =>
                 if negb (retries =? 0) then
                   log WARNING "Timeout detected during launch (retries %d)" >>
                   sleep retry_delay >>
                   ret true
                 else raise exc
             | _ => raise exc
             end) in
      if again then launch_loop location retry_delay (tl script) rs'
      else ret tt
  end.

(** [launch(location, env_mod=None, max_retries=3, retry_delay=0)];
    [env_mod] is only handed on to [target.launch]. *)
Definition launch (script : list launch_outcome) (location : string)
    (max_retries retry_delay : Z) : M St unit :=
  let! r := self in
  assert (bool_decide (is_Some (_server r))) >>
  assert (bool_decide (is_Some (_target r))) >>
  assert (max_retries >=? 0) >>
  assert (retry_delay >=? 0) >>
  io (emit EvClearBacklog) >>
  io (log DEBUG "launching target (timeout %ds)") >>
  io (launch_loop location retry_delay script (reversed (range max_retries))) >>
  update (set_tests_run 0).

Definition res_bind {A B} (r : res A) (k : A -> res B) : res B :=
  match r with
  | Ok a => k a
  | Raise e => Raise e
  end.

(** [location(srv_path, srv_port, close_after=None, forced_close=True,
    timeout=None)], a static method. *)
Definition location (srv_path : string) (srv_port : Z)
    (close_after : option Z) (forced_close : bool) (timeout : option Z)
    : res string :=
  let location :=
    "http://127.0.0.1:" +:+ pretty srv_port +:+ "/" +:+ lstrip "/"%char srv_path in
  (* set harness related arguments *)
  let args : list string := [] in
  res_bind
    match close_after with
    | Some c =>
        if c >=? 0 then Ok (args ++ ["close_after=" +:+ pretty c])
        else Raise AssertionError
    | None => Ok args
    end
    (fun args =>
  let args := if negb forced_close then args ++ ["forced_close=0"] else args in
  res_bind
    match timeout with
    | Some t =>
        if t >=? 0 then Ok (args ++ ["timeout=" +:+ pretty (t * 1000)])
        else Raise AssertionError
    | None => Ok args
    end
    (fun args =>
  match args with
  | _ :: _ => Ok (join "?" [location; join "&" args])
  | [] => Ok location
  end)).

(** [self._server.serve_path(wwwdir, continue_cb=self._keep_waiting,
    forever=wait_for_callback, optional_files=..., server_map=...)].  The
    server is external: the model records the call and takes the
    server's answer from [env].  What the server does while it waits,
    its calls of [continue_cb] included, is not part of the model;
    [_keep_waiting] itself is modelled below. *)
Definition serve_path (env : RunEnv) (wwwdir : string) (forever : bool)
    : M World (serve_status * list string) :=
  emit (EvServePath wwwdir forever) >>
  match serve_result env with
  | Some r => ret r
  | None => raise ExternalError
  end.

(** [testcase.dump(wwwdir)] *)
Definition dump (env : RunEnv) (wwwdir : string) : M World unit :=
  emit (EvDump wwwdir) >>
  if dump_raises env then raise ExternalError else ret tt.

(** The [try: ... finally: ...] statement of [run]: unpack the test case,
    serve it, and remove the temporary files.  When [test_path] is unset
    and the scratch directory cannot be made, the name [wwwdir] is still
    unbound in the [finally] clause, whose [rmtree(wwwdir)] then fails. *)
Definition unpack_and_serve (env : RunEnv) (test_path : option string)
    (wait_for_callback : bool) : M World (serve_status * list string * Z) :=
  let serve (wwwdir : string) : M World (serve_status * list string * Z) :=
    let! serve_start := time in
    let! (server_status, served) := serve_path env wwwdir wait_for_callback in
    let! stop := time in
    ret (server_status, served, stop - serve_start) in
  match test_path with
  | None =>
      fun w =>
        match (let! base := grz_tmp "serve" in
               mkdtemp "test_" base (tmp_suffix env)) w with
        | (Ok wwwdir, w') =>
            finally (dump env wwwdir >> serve wwwdir) (rmtree wwwdir) w'
        | (Raise _, w') => (Raise ExternalError, w')
        end
  | Some wwwdir => finally (serve wwwdir) (ret tt)
  end.

Definition status_eqb (a b : serve_status) : bool :=
  match a, b with
  | SERVED_ALL, SERVED_ALL | SERVED_NONE, SERVED_NONE
  | SERVED_REQUEST, SERVED_REQUEST | SERVED_TIMEOUT, SERVED_TIMEOUT => true
  | _, _ => false
  end.

(** [run(ignore, server_map, testcase, test_path=None, coverage=False,
    wait_for_callback=False)]; [ignore] and [server_map] are only handed
    on to the collaborators whose answers [env] holds. *)
Definition run (env : RunEnv) (testcase : TestCase)
    (test_path : option string) (coverage wait_for_callback : bool)
    : M St RunResult.t :=
  let! r := self in
  match _idle r with
  | Some c =>
      zoom (fun s => (c, snd s)) (fun cw s => (set_idle (Some (fst cw)) (fst s), snd cw))
           (IdleChecker.schedule_poll true None)
  | None => ret tt
  end >>
  let! (server_status, served, duration) :=
    io (unpack_and_serve env test_path wait_for_callback) in
  let result :=
    RunResult.init served duration None (status_eqb server_status SERVED_TIMEOUT) in
  (* add all include files that were served *)
  io (for_each (include_urls env) (fun url => emit (EvAddBatch url))) >>
  let result :=
    RunResult.set_attempted
      (bool_decide (landing_page testcase ∈ RunResult.served result)) result in
  (if RunResult.attempted result && coverage && negb (RunResult.timeout result)
   then io (emit EvDumpCoverage) else ret tt) >>
  (* detect failure *)
  io (emit (EvDetectFailure (RunResult.timeout result))) >>
  let failure_detected := detect env in
  let! r := self in
  let result := RunResult.set_initial (_tests_run r =? 0) result in
  (if negb (RunResult.attempted result) then
     (* something is wrong so close the target *)
     io (log DEBUG "landing page %r not served!") >>
     io (emit EvTargetClose)
   else update (set_tests_run (_tests_run r + 1))) >>
  match failure_detected with
  | RESULT_FAILURE => ret (RunResult.set_status (Some RunResult.FAILED) result)
  | RESULT_IGNORED => ret (RunResult.set_status (Some RunResult.IGNORED) result)
  | RESULT_NONE => ret result
  end.

(** [_keep_waiting()], the callback the server uses to determine if it
    should continue to wait for requests from the target; [healthy] is
    what [self._target.monitor.is_healthy()] answers. *)
Definition _keep_waiting (healthy : bool) : M St bool :=
  let! r := self in
  let! idle :=
    match _idle r with
    | Some c =>
        zoom (fun s => (c, snd s))
             (fun cw s => (set_idle (Some (fst cw)) (fst s), snd cw))
             IdleChecker.is_idle
    | None => ret false
    end in
  if idle then
    io (log DEBUG "idle target detected") >>
    ret false
  else
    io (emit EvMonitorIsHealthy) >>
    ret healthy.

End Runner.

(** ** [LogOutputLimiter] *)

Module LogOutputLimiter.

Record t : Type := mk {
  _delay : Z;        (* maximum time delay between output *)
  _iterations : Z;   (* next iteration to trigger output *)
  _launches : Z;     (* next launch to trigger output *)
  _multiplier : Z;   (* rate to decrease output (iterations) *)
  _time : Z;
  _verbose : bool    (* always output *)
}.

Definition set_iterations (n : Z) (l : t) : t :=
  mk (_delay l) n (_launches l) (_multiplier l) (_time l) (_verbose l).
Definition set_launches (n : Z) (l : t) : t :=
  mk (_delay l) (_iterations l) n (_multiplier l) (_time l) (_verbose l).
Definition set_time (n : Z) (l : t) : t :=
  mk (_delay l) (_iterations l) (_launches l) (_multiplier l) n (_verbose l).

Definition St : Type := t * World.

(** [__init__(delay=300, delta_multiplier=2, verbose=False)] *)
Definition init (delay delta_multiplier : Z) (verbose : bool) : M World t :=
  let! now := time in
  ret (mk delay 1 1 delta_multiplier now verbose).

(** [ready(cur_iter, launches)] *)
Definition ready (cur_iter launches : Z) : M St bool :=
  let! l := self in
  (* calculate if a status line should be output *)
  if _verbose l then ret true
  else
    let ready := false in
    let! ready :=
      if cur_iter >=? _iterations l then
        update (set_iterations (_iterations l * _multiplier l)) >>
        ret true
      else if launches >=? _launches l then ret true
      else
        let! now := io time in
        if now - _delay l >=? _time l then ret true else ret ready in
    (if ready : bool then
       let! now := io time in
       update (set_time now) >>
       update (set_launches (launches + 1))
     else ret tt) >>
    ret ready.

End LogOutputLimiter.

(** ** [Session] *)

Module Session.

Definition DISPLAY_VERBOSE : Z := 0.  (* display status every iteration *)
Definition DISPLAY_NORMAL : Z := 1.   (* quickly reduce the amount of output *)

(* display warning when target log files exceed limit (25MB) *)
Definition TARGET_LOG_SIZE_WARN : Z := 0x1900000.

(** The fields of the status object that [Session] assigns itself. *)
Record Status : Type := mkStatus {
  iteration : Z;
  ignored : Z;
  log_size : Z
}.

(** The session object, with the local variables [log_limiter] and
    [runner] of [Session.run].  The adapter, iomanager, reporter, server
    and target are external; their answers come from [IterEnv]. *)
Record t : Type := mk {
  coverage : bool;
  status : Status;
  log_limiter : LogOutputLimiter.t;
  runner : Runner.t
}.

Definition set_status (s : Status) (x : t) : t :=
  mk (coverage x) s (log_limiter x) (runner x).
Definition set_log_limiter (l : LogOutputLimiter.t) (x : t) : t :=
  mk (coverage x) (status x) l (runner x).
Definition set_runner (r : Runner.t) (x : t) : t :=
  mk (coverage x) (status x) (log_limiter x) r.

Definition St : Type := t * World.

(** Calling a method of the local [runner] / [log_limiter]. *)
Definition on_runner {A} (m : M Runner.St A) : M St A :=
  zoom (fun s => (runner (fst s), snd s))
       (fun rw s => (set_runner (fst rw) (fst s), snd rw)) m.
Definition on_limiter {A} (m : M LogOutputLimiter.St A) : M St A :=
  zoom (fun s => (log_limiter (fst s), snd s))
       (fun lw s => (set_log_limiter (fst lw) (fst s), snd lw)) m.

(** What the collaborators answer during one iteration of the loop of
    [Session.run]. *)
Record IterEnv : Type := mkIterEnv {
  target_closed : bool;             (* [self.target.closed] *)
  harness : bool;                   (* [self.iomanager.harness is not None] *)
  server_port : Z;                  (* [self.server.port] *)
  rl_reset : option Z;              (* [self.target.rl_reset] *)
  forced_close : bool;              (* [self.target.forced_close] *)
  test_duration : option Z;         (* [self.adapter.TEST_DURATION] *)
  launch_script : list launch_outcome;
  testcase : TestCase;              (* the test case that is generated *)
  has_prefs : bool;                 (* [self.target.prefs is not None] *)
  remaining_display : option Z;     (* [self.adapter.remaining], in [display_status] *)
  monitor_launches : Z;             (* [self.target.monitor.launches] *)
  run_env : RunEnv;
  ignore_unserved : bool;           (* [self.adapter.IGNORE_UNSERVED] *)
  contains_landing_page : bool;     (* [current_test.contains(landing_page)] *)
  err_suffix : string;              (* random part of the error log name *)
  logs_suffix : string;             (* random part of the result log name *)
  logs_isdir : bool;                (* the reporter leaves [result_logs] in
                                       place: [isdir(result_logs)] after
                                       submit *)
  remaining : option Z;             (* [self.adapter.remaining], at the end *)
  target_log_size : Z               (* [self.target.log_size()] *)
}.

(** [display_status(log_limiter)] *)
Definition display_status (env : IterEnv) : M St unit :=
  let! s := self in
  match remaining_display env with
  | Some _ => io (log INFO "[I%04d-L%02d-R%02d] %s")
  | None =>
      let! ready :=
        on_limiter (LogOutputLimiter.ready (iteration (status s))
                                           (monitor_launches env)) in
      if ready then io (log INFO "I%04d-R%02d ") else ret tt
  end.

(** [generate_testcase()] *)
Definition generate_testcase (env : IterEnv) : M St TestCase :=
  io (log DEBUG "calling iomanager.create_testcase()") >>
  io (emit EvCreateTestcase) >>
  let test := testcase env in
  io (log DEBUG "calling self.adapter.generate()") >>
  io (emit EvGenerate) >>
  (if has_prefs env then io (emit EvAddMeta) else ret tt) >>
  ret test.

(** [self.reporter.submit(self.iomanager.tests, report)].  The reporter
    is external and may take the directory of the report's logs away,
    which is why [report_result] looks for it afterwards; [logs_isdir env]
    tells whether the reporter leaves it in place. *)
Definition submit (env : IterEnv) (result_logs : string) : M World unit :=
  emit EvSubmit >>
  if logs_isdir env then ret tt
  else modify (fun w => set_dirs (dirs w ∖ {[ result_logs ]}) w).

(** [report_result()] *)
Definition report_result (env : IterEnv) : M St unit :=
  (* create working directory for target logs *)
  let! base := io (grz_tmp "logs") in
  let! result_logs := io (mkdtemp "logs_" base (logs_suffix env)) in
  io (emit (EvSaveLogs result_logs)) >>
  io (emit (EvMakeReport result_logs)) >>
  io (log INFO "Result: %s (%s:%s)") >>
  (* order test cases newest to oldest *)
  io (emit EvTestsReverse) >>
  io (submit env result_logs) >>
  let! still_there := io (isdir result_logs) in
  (if still_there : bool then io (rmtree result_logs) else ret tt) >>
  io (emit EvCountResult).

Inductive stop : Type :=
| ReplayComplete
| HitIterationLimit.

Inductive ctl : Type :=
| Next                (* the body reached its end *)
| Break (why : stop).

(** The loop body of [run], block by block. *)

Definition increment_iteration (x : t) : t :=
  set_status (mkStatus (iteration (status x) + 1) (ignored (status x))
                       (log_size (status x))) x.
Definition increment_ignored (x : t) : t :=
  set_status (mkStatus (iteration (status x)) (ignored (status x) + 1)
                       (log_size (status x))) x.
Definition assign_log_size (n : Z) (x : t) : t :=
  set_status (mkStatus (iteration (status x)) (ignored (status x)) n) x.

(** [if self.target.closed: ...] *)
Definition relaunch (env : IterEnv) : M St unit :=
  if target_closed env then
    (* (re-)launch target *)
    io (emit EvPurgeTests) >>
    io (emit EvPreLaunch) >>
    let! location :=
      match
        if negb (harness env) then
          (* harness is not in use, open the test case *)
          Runner.location "/grz_current_test" (server_port env) None true None
        else
          (* harness is in use, open it and it will open the test case *)
          Runner.location "/grz_harness" (server_port env)
                          (rl_reset env) (forced_close env) (test_duration env)
      with
      | Ok l => ret l
      | Raise e => raise e
      end in
    on_runner (Runner.launch (launch_script env) location 3 0)
  else ret tt.

(** [# adapter callbacks] *)
Definition adapter_callbacks (result : RunResult.t) : M St unit :=
  if RunResult.timeout result then
    io (log DEBUG "calling self.adapter.on_timeout()") >>
    io (emit EvOnTimeout)
  else
    io (log DEBUG "calling self.adapter.on_served()") >>
    io (emit EvOnServed).

(** [# update test case] *)
Definition update_test_case (env : IterEnv) (result : RunResult.t)
    : M St unit :=
  if RunResult.attempted result then
    match RunResult.served result with
    | [] =>
        (* this can happen if the target crashes between serving test cases *)
        io (log INFO "Ignoring test case since nothing was served") >>
        io (emit EvPopCleanup)
    | _ :: _ =>
        if ignore_unserved env then
          io (log DEBUG "removing unserved files from the test case") >>
          io (emit EvPurgeOptional)
        else ret tt
    end
  else
    io (log ERROR "Test case was not served") >>
    (if negb (contains_landing_page env)
     then io (log WARNING "Test case is missing landing page") else ret tt) >>
    if RunResult.initial result then
      (* since this is the first iteration since the Target launched
         something is likely wrong with the Target or Adapter *)
      let! base := io (grz_tmp "logs") in
      let! err_logs := io (mkdtemp "error_" base (err_suffix env)) in
      io (emit (EvSaveLogs err_logs)) >>
      io (log ERROR "ERROR: Test case was not served. Timeout too short?") >>
      io (log ERROR "Logs can be found here %r") >>
      raise SessionError  (* "Please check Adapter and Target" *)
    else ret tt.

(** [# process results] *)
Definition process_results (env : IterEnv) (result : RunResult.t)
    : M St unit :=
  if bool_decide (RunResult.status result = Some RunResult.FAILED) then
    io (log DEBUG "result detected") >>
    report_result env
  else if bool_decide (RunResult.status result = Some RunResult.IGNORED) then
    update increment_ignored >>
    io (log INFO "Ignored (%d)")
  else ret tt.

(** The two [break] tests and, past them, the log size warning that ends
    the body. *)
Definition stop_conditions (iteration_limit : option Z) (env : IterEnv)
    : M St ctl :=
  let! s := self in
  if match remaining env with Some n => n <? 1 | None => false end then
    (* all test cases have been replayed *)
    io (log INFO "Replay Complete") >>
    ret (Break ReplayComplete)
  else if match iteration_limit with
          | Some limit => iteration (status s) =? limit
          | None => false
          end then
    io (log INFO "Hit iteration limit") >>
    ret (Break HitIterationLimit)
  else
    (* warn about large browser logs *)
    update (assign_log_size (target_log_size env)) >>
    (if target_log_size env >? TARGET_LOG_SIZE_WARN
     then io (log WARNING "Large browser logs: %dMBs") else ret tt) >>
    ret Next.

(** The body of [while True:] in [run].  The assignment
    [current_test.duration = result.duration] on the external test case
    leaves no mark in the model. *)
Definition body (iteration_limit : option Z) (env : IterEnv) : M St ctl :=
  io (emit EvStatusReport) >>
  update increment_iteration >>
  relaunch env >>
  io (emit EvTargetStep) >>
  (* create and populate a test case *)
  let! current_test := generate_testcase env in
  (* display status *)
  display_status env >>
  (* run test case *)
  let! s := self in
  let! result :=
    on_runner (Runner.run (run_env env) current_test None (coverage s) false) in
  adapter_callbacks result >>
  update_test_case env result >>
  process_results env result >>
  (* trigger relaunch by closing the browser if needed *)
  io (emit EvCheckRelaunch) >>
  stop_conditions iteration_limit env.

(** How an execution of the loop ends: it stops through a [break], or it
    is still running when the environment script is exhausted. *)
Inductive exit : Type :=
| Stopped (why : stop)
| Running.

(** [while True: body], run along the script [envs], one entry per
    iteration. *)
Fixpoint loop (iteration_limit : option Z) (envs : list IterEnv) : M St exit :=
  match envs with
  | [] => ret Running
  | env :: envs' =>
      let! c := body iteration_limit env in
      match c with
      | Next => loop iteration_limit envs'
      | Break why => ret (Stopped why)
      end
  end.

(** [__init__(adapter, iomanager, reporter, server, target,
    coverage=False)] followed by the prologue of [run]: the status
    object holds [status0], the limiter and the runner are made. *)
Definition start (coverage : bool) (status0 : Status) (display_mode : Z)
    : M World t :=
  let! log_limiter :=
    LogOutputLimiter.init 300 2 (display_mode =? DISPLAY_VERBOSE) in
  let! runner :=
    Runner.init (Some Runner.Handle) (Some Runner.Handle)
                (fun _ => ret false) 0 0 in
  emit EvSetDynamicResponse >>
  ret (mk coverage status0 log_limiter runner).

(** [run(ignore, iteration_limit=None, display_mode=DISPLAY_NORMAL)] on a
    session whose status object holds [status0], along the script
    [envs].  The result pairs the way the loop ended with the session as
    it was left. *)
Definition run (coverage : bool) (status0 : Status)
    (iteration_limit : option Z) (display_mode : Z) (envs : list IterEnv)
    : M World (res exit * t) :=
  let! x := start coverage status0 display_mode in
  fun w => match loop iteration_limit envs (x, w) with
           | (r, (x', w')) => (Ok (r, x'), w')
           end.

End Session.

(** * The terms in which the properties are stated *)

(** A predicate that records each of its invocations in the trace. *)
Definition recording_cb (answer : bool) (threshold : Z) : M World bool :=
  emit (EvTargetIsIdle threshold) >> ret answer.

Section IdleCheckerPollingTerms.

Import IdleChecker.

(** The world after one more reading of the clock. *)
Definition tick (w : World) : World := set_ticks (S (ticks w)) w.
(** The reading the next [time()] call returns. *)
Definition now (w : World) : Z := clock w (ticks w).

End IdleCheckerPollingTerms.

Section LocationTerms.

(** The format of the spec: the directives, in their fixed order, each
    present only when its source value is not the default. *)
Definition spec_directives (close_after : option Z) (forced_close : bool)
    (timeout : option Z) : list string :=
  match close_after with
  | Some c => ["close_after=" +:+ pretty c]
  | None => []
  end
  ++ (if forced_close then [] else ["forced_close=0"])
  ++ match timeout with
     | Some seconds => ["timeout=" +:+ pretty (seconds * 1000)]
     | None => []
     end.

Definition spec_base (srv_path : string) (srv_port : Z) : string :=
  "http://127.0.0.1:" +:+ pretty srv_port +:+ "/" +:+ lstrip "/"%char srv_path.

Definition spec_url (srv_path : string) (srv_port : Z)
    (close_after : option Z) (forced_close : bool) (timeout : option Z)
    : string :=
  match spec_directives close_after forced_close timeout with
  | [] => spec_base srv_path srv_port
  | d :: ds => spec_base srv_path srv_port +:+ "?" +:+ join "&" (d :: ds)
  end.

Definition non_negative (o : option Z) : Prop :=
  match o with
  | Some n => 0 <= n
  | None => True
  end.

End LocationTerms.

Section LimiterTerms.

Import LogOutputLimiter.

(** The three conditions, with the time condition as the code tests it:
    the time since the anchor is at least the delay. *)
Definition fires (l : t) (cur_iter launches reading : Z) : Prop :=
  _iterations l <= cur_iter
  \/ _launches l <= launches
  \/ _delay l <= reading - _time l.

(** The three conditions in the words of the spec: the time since the
    anchor exceeds the delay. *)
Definition spec_fires (l : t) (cur_iter launches reading : Z) : Prop :=
  _iterations l <= cur_iter
  \/ _launches l <= launches
  \/ _delay l < reading - _time l.

(** The limiter after a firing at which the clock read [anchor]. *)
Definition fired (l : t) (cur_iter launches anchor : Z) : t :=
  mk (_delay l)
     (if cur_iter >=? _iterations l then _iterations l * _multiplier l
      else _iterations l)
     (launches + 1) (_multiplier l) anchor (_verbose l).

End LimiterTerms.

Section LaunchTerms.

Import Runner.

(** The number of [target.launch] calls recorded in a trace. *)
Fixpoint launch_calls (tr : list Event) : nat :=
  match tr with
  | [] => 0
  | EvTargetLaunch _ :: tr' => S (launch_calls tr')
  | _ :: tr' => launch_calls tr'
  end.

Definition runner0 : Runner.t := Runner.mk None (Some Handle) (Some Handle) 0.
Definition world0 : World := mkWorld (fun n => Z.of_nat n) 0 ∅ [].

End LaunchTerms.

Section RunFactsTerms.

Import Runner.

(** The world with more events recorded. *)
Definition record (tr : list Event) (w : World) : World :=
  set_trace (trace w ++ tr) w.

(** The runner and the world once the initial idle poll is scheduled. *)
Definition scheduled (r : Runner.t) (w : World) : Runner.St :=
  match _idle r with
  | Some c =>
      (set_idle (Some (IdleChecker.set_next_poll
                         (Some (now w + IdleChecker._init_delay c)) c)) r,
       tick w)
  | None => (r, w)
  end.

Definition classify (d : detect_result) : option Z :=
  match d with
  | RESULT_FAILURE => Some RunResult.FAILED
  | RESULT_IGNORED => Some RunResult.IGNORED
  | RESULT_NONE => None
  end.

(** The result [run] builds from what was served. *)
Definition result_of (env : RunEnv) (testcase : TestCase) (tests_run : Z)
    (st : serve_status) (served : list string) (duration : Z) : RunResult.t :=
  RunResult.mk (bool_decide (landing_page testcase ∈ served)) duration
               (tests_run =? 0) served (classify (detect env))
               (status_eqb st SERVED_TIMEOUT).

(** The external calls [run] makes once serving is over. *)
Definition epilogue (env : RunEnv) (testcase : TestCase) (coverage : bool)
    (st : serve_status) (served : list string) : list Event :=
  let attempted := bool_decide (landing_page testcase ∈ served) in
  let timeout := status_eqb st SERVED_TIMEOUT in
  (EvAddBatch <$> include_urls env)
  ++ (if attempted && coverage && negb timeout then [EvDumpCoverage] else [])
  ++ [EvDetectFailure timeout]
  ++ (if attempted then []
      else [EvLog DEBUG "landing page %r not served!"; EvTargetClose]).

(** Events that create or remove a directory. *)
Definition dir_event (e : Event) : bool :=
  match e with
  | EvMkdtemp _ | EvRmtree _ => true
  | _ => false
  end.

(** The scratch root and the scratch directory of a [run] call. *)
Definition serve_root : string := "/tmp/grizzly/serve".
Definition scratch_dir (env : RunEnv) : string :=
  serve_root +:+ "/" +:+ "test_" +:+ tmp_suffix env.

End RunFactsTerms.

Definition unserved_failure : RunEnv :=
  mkRunEnv "k3j2" false (Some (SERVED_NONE, [])) [] RESULT_FAILURE.
Definition sample_test : TestCase := mkTestCase "index.html" [].

Section InitialFlagTerms.

(** One [run] call: what the collaborators answer, and the arguments. *)
Record Call : Type := mkCall {
  call_env : RunEnv;
  call_test : TestCase;
  call_path : option string;
  call_coverage : bool;
  call_wait : bool
}.

(** The outcomes of successive [run] calls on the same runner. *)
Fixpoint run_all (calls : list Call) (s : Runner.St) : list (res RunResult.t) :=
  match calls with
  | [] => []
  | c :: calls' =>
      let out := Runner.run (call_env c) (call_test c) (call_path c)
                            (call_coverage c) (call_wait c) s in
      out.1 :: run_all calls' out.2
  end.

(** No earlier call of the sequence returned an attempted result. *)
Definition none_attempted_before (outs : list (res RunResult.t)) (k : nat)
    : Prop :=
  forall j res, (j < k)%nat -> outs !! j = Some (Ok res) ->
                RunResult.attempted res = false.

End InitialFlagTerms.

(** Two deliveries after a launch: the first serves nothing, the second
    serves the landing page. *)
Definition served_landing : RunEnv :=
  mkRunEnv "p0q1" false (Some (SERVED_ALL, ["index.html"])) [] RESULT_NONE.
Definition unserved : RunEnv :=
  mkRunEnv "k3j2" false (Some (SERVED_NONE, [])) [] RESULT_NONE.
Definition two_calls : list Call :=
  [mkCall unserved sample_test None false false;
   mkCall served_landing sample_test None false false].

(** Serving raises: the scratch directory is made and removed all the
    same, and the exception reaches the caller. *)
Definition serving_fails : RunEnv :=
  mkRunEnv "k3j2" false None [] RESULT_NONE.

Section HoareTerms.

Context {St : Type}.

(** [hoare P m Q]: from a state satisfying [P], the outcome of [m] (a
    value or an exception) and the state it leaves satisfy [Q]. *)
Definition hoare {A} (P : St -> Prop) (m : M St A)
    (Q : res A -> St -> Prop) : Prop :=
  forall s, P s -> Q (m s).1 (m s).2.

(** [keeps f m]: [m] leaves the observation [f] of the state as it is,
    however it ends. *)
Definition keeps {A X} (f : St -> X) (m : M St A) : Prop :=
  forall s, f (m s).2 = f s.

End HoareTerms.

Section IterationLimitTerms.

Import Session.

Definition iteration_of (s : Session.St) : Z := iteration (status s.1).

(** When the body ends without an exception the counter has grown by
    one, and the body breaks on the limit only when the new counter is the
    limit. *)
Definition counted (iteration_limit : option Z) (n : Z) (r : res ctl)
    (s : Session.St) : Prop :=
  match r with
  | Ok c => iteration_of s = n + 1
            /\ (c = Break HitIterationLimit -> iteration_limit = Some (n + 1))
  | Raise _ => True
  end.

End IterationLimitTerms.

(** A session that starts at iteration 0 with a closed target; each
    iteration of the script relaunches nothing after the first, serves
    the landing page and detects no failure. *)
Definition quiet_iteration (closed : bool) : Session.IterEnv :=
  Session.mkIterEnv closed false 8080 None true None [] sample_test false
                    None 1 served_landing false true "e7f8" "l5m6" true None 0.

Definition session0 : Session.St :=
  (Session.mk false (Session.mkStatus 0 0 0)
              (LogOutputLimiter.mk 300 1 1 2 0 false) runner0,
   world0).

Definition three_iterations : list Session.IterEnv :=
  [quiet_iteration true; quiet_iteration false; quiet_iteration false].

Section UnattemptedTerms.

Import Session.

(** The body up to and including [runner.run]: the delivery of the
    iteration. *)
Definition deliver (env : IterEnv) : M Session.St RunResult.t :=
  io (emit EvStatusReport) >>
  update increment_iteration >>
  relaunch env >>
  io (emit EvTargetStep) >>
  let! current_test := generate_testcase env in
  display_status env >>
  let! s := self in
  on_runner (Runner.run (run_env env) current_test None (coverage s) false).

(** The body after the two blocks that look at [result.attempted]. *)
Definition finish (iteration_limit : option Z) (env : IterEnv)
    (result : RunResult.t) : M Session.St ctl :=
  process_results env result >>
  io (emit EvCheckRelaunch) >>
  stop_conditions iteration_limit env.

(** The per-launch counter of the session's runner. *)
Definition counter (s : Session.St) : Z := Runner._tests_run (runner s.1).

(** The diagnostics directory of the fatal branch. *)
Definition logs_root : string := "/tmp/grizzly/logs".
Definition error_dir (env : IterEnv) : string :=
  logs_root +:+ "/" +:+ "error_" +:+ err_suffix env.

Definition not_served_events (env : IterEnv) : list Event :=
  EvLog ERROR "Test case was not served"
  :: (if contains_landing_page env then []
      else [EvLog WARNING "Test case is missing landing page"]).

Definition callback_events (result : RunResult.t) : list Event :=
  if RunResult.timeout result
  then [EvLog DEBUG "calling self.adapter.on_timeout()"; EvOnTimeout]
  else [EvLog DEBUG "calling self.adapter.on_served()"; EvOnServed].

End UnattemptedTerms.

(** An iteration whose delivery serves nothing. *)
Definition unserved_iteration (closed : bool) : Session.IterEnv :=
  Session.mkIterEnv closed false 8080 None true None [] sample_test false
                    None 1 unserved false true "e7f8" "l5m6" true None 0.

(** How many events of a trace satisfy [p]. *)
Fixpoint tally (p : Event -> bool) (tr : list Event) : nat :=
  match tr with
  | [] => 0
  | e :: tr' => (if p e then 1 else 0) + tally p tr'
  end.

Definition is_launch (e : Event) : bool :=
  match e with EvTargetLaunch _ => true | _ => false end.
Definition is_sleep (e : Event) : bool :=
  match e with EvSleep _ => true | _ => false end.
Definition is_cleanup (e : Event) : bool :=
  match e with EvReportCleanup => true | _ => false end.
Definition is_serve (e : Event) : bool :=
  match e with EvServePath _ _ => true | _ => false end.
Definition is_detect (e : Event) : bool :=
  match e with EvDetectFailure _ => true | _ => false end.
Definition is_coverage (e : Event) : bool :=
  match e with EvDumpCoverage => true | _ => false end.
Definition is_close (e : Event) : bool :=
  match e with EvTargetClose => true | _ => false end.
Definition is_submit (e : Event) : bool :=
  match e with EvSubmit => true | _ => false end.

(** The events of unpacking and serving a test case. *)
Definition serving_event (e : Event) : bool :=
  match e with
  | EvMkdtemp _ | EvDump _ | EvServePath _ _ | EvRmtree _ => true
  | _ => false
  end.

(** Successive [ready] calls, one per iteration from [cur_iter] on; the
    list holds the launch count passed to each. *)
Fixpoint ready_each (cur_iter : Z) (launches : list Z)
    (s : LogOutputLimiter.St) : list (res bool) * LogOutputLimiter.St :=
  match launches with
  | [] => ([], s)
  | l :: launches' =>
      let out := LogOutputLimiter.ready cur_iter l s in
      let rest := ready_each (cur_iter + 1) launches' out.2 in
      (out.1 :: rest.1, rest.2)
  end.

(** How many events satisfying [p] the world has seen. *)
Definition seen (p : Event -> bool) (w : World) : nat := tally p (trace w).

Section SessionAccountsTerms.

Import Session.

Definition ignored_of (s : Session.St) : Z := ignored (status s.1).
Definition log_size_of (s : Session.St) : Z := log_size (status s.1).

(** The adapter reports that no test case remains. *)
Definition replay_done (env : IterEnv) : bool :=
  match remaining env with
  | Some n => n <? 1
  | None => false
  end.

Definition detect_eqb (a b : detect_result) : bool :=
  match a, b with
  | RESULT_NONE, RESULT_NONE | RESULT_FAILURE, RESULT_FAILURE
  | RESULT_IGNORED, RESULT_IGNORED => true
  | _, _ => false
  end.

(** How many iterations of a script have the target answer [d] to
    [detect_failure]. *)
Fixpoint detections (d : detect_result) (envs : list IterEnv) : nat :=
  match envs with
  | [] => 0
  | env :: envs' =>
      (if detect_eqb (detect (run_env env)) d then 1 else 0)
      + detections d envs'
  end.

End SessionAccountsTerms.

(** The external calls [Runner.launch] can make, and those [Runner.run]
    can make. *)
Definition launch_event (e : Event) : bool :=
  match e with
  | EvClearBacklog | EvLog _ _ | EvTargetLaunch _ | EvReportCleanup
  | EvSleep _ => true
  | _ => false
  end.

Definition run_event (e : Event) : bool :=
  match e with
  | EvMkdtemp _ | EvDump _ | EvServePath _ _ | EvRmtree _ | EvAddBatch _
  | EvDumpCoverage | EvDetectFailure _ | EvLog _ _ | EvTargetClose => true
  | _ => false
  end.

(** How many iterations of a script start with the target closed. *)
Fixpoint closed_starts (envs : list Session.IterEnv) : nat :=
  match envs with
  | [] => 0
  | env :: envs' =>
      (if Session.target_closed env then 1 else 0) + closed_starts envs'
  end.

(** The directory for the logs of a reported result. *)
Definition result_dir (env : Session.IterEnv) : string :=
  logs_root +:+ "/" +:+ "logs_" +:+ Session.logs_suffix env.

Section SessionBlocksTerms.

Import Session.

(** The body up to [runner.run]: status report, relaunch if the target
    is closed, and the new test case. *)
Definition prepare (env : IterEnv) : M Session.St TestCase :=
  io (emit EvStatusReport) >>
  update increment_iteration >>
  relaunch env >>
  io (emit EvTargetStep) >>
  let! current_test := generate_testcase env in
  display_status env >>
  ret current_test.

(** [adds g n m]: however [m] ends, it raises the count [g] by at most
    [n]. *)
Definition adds {St A} (g : St -> nat) (n : nat) (m : M St A) : Prop :=
  forall s, (g (m s).2 <= g s + n)%nat.

(** An iteration in which the target answers [d] when asked for
    failures, and a script of three iterations with one failure and one
    ignored failure. *)
Definition detecting (d : detect_result) : IterEnv :=
  mkIterEnv false false 8080 None true None [] sample_test false
            None 1 (mkRunEnv "p0q1" false (Some (SERVED_ALL, ["index.html"]))
                             [] d)
            false true "e7f8" "l5m6" true None 0.
Definition mixed_iterations : list IterEnv :=
  [quiet_iteration true; detecting RESULT_FAILURE; detecting RESULT_IGNORED].

End SessionBlocksTerms.

(** The exception a failing [target.launch] raises. *)
Definition launch_error (o : launch_outcome) : exn :=
  match o with
  | LaunchTimesOut => TargetLaunchTimeout
  | _ => TargetLaunchError
  end.

(** The URL [Session.run] opens in the target. *)
Definition session_url (env : Session.IterEnv) : string :=
  if Session.harness env
  then spec_url "/grz_harness" (Session.server_port env)
                (Session.rl_reset env) (Session.forced_close env)
                (Session.test_duration env)
  else spec_url "/grz_current_test" (Session.server_port env) None true None.

(** An iteration that finds the target closed and cannot launch it. *)
Definition launch_never_succeeds : Session.IterEnv :=
  Session.mkIterEnv true false 8080 None true None
                    [LaunchFails; LaunchTimesOut; LaunchTimesOut]
                    sample_test false None 1 served_landing false true
                    "e7f8" "l5m6" true None 0.

Section ScratchTerms.

Import Runner.

(** [testcase.dump(wwwdir)] followed by the timed [serve_path] call: the
    body of the [try] statement of [run] once [wwwdir] is made. *)
Definition dump_and_serve (env : RunEnv) (wwwdir : string)
    (wait_for_callback : bool) : M World (serve_status * list string * Z) :=
  dump env wwwdir >>
  let! serve_start := time in
  let! (server_status, served) := serve_path env wwwdir wait_for_callback in
  let! stop := time in
  ret (server_status, served, stop - serve_start).

End ScratchTerms.

(** The calls [run] makes once the serving step is over. *)
Definition after_serving (e : Event) : bool :=
  match e with
  | EvAddBatch _ | EvDumpCoverage | EvDetectFailure _ | EvTargetClose => true
  | _ => false
  end.

(** * Properties *)

(** Running the monad's plumbing. *)
Ltac mrun :=
  cbv beta iota zeta delta
    [bind ret raise get put modify assert catch finally zoom io self update
     emit log sleep time];
  cbn.

(** ** Construction and use of [_IdleChecker] *)

Section IdleCheckerFacts.

Import IdleChecker.

Variable check_cb : Z -> M World bool.

Lemma init_ok (threshold initial_delay poll_delay : Z) :
  0 <= threshold < 100 -> 0 <= initial_delay -> 0 <= poll_delay ->
  init check_cb threshold initial_delay poll_delay
  = Ok (mk check_cb initial_delay poll_delay threshold None).
Proof.
  intros Hth Hd Hp. unfold init.
  assert ((initial_delay >=? 0) = true) as -> by (apply Z.geb_le; lia).
  assert ((poll_delay >=? 0) = true) as -> by (apply Z.geb_le; lia).
  assert ((100 >? threshold) = true) as -> by (apply Z.gtb_lt; lia).
  assert ((threshold >=? 0) = true) as -> by (apply Z.geb_le; lia).
  reflexivity.
Qed.

Lemma init_inv (threshold initial_delay poll_delay : Z) (c : t) :
  init check_cb threshold initial_delay poll_delay = Ok c ->
  (0 <= threshold < 100 /\ 0 <= initial_delay /\ 0 <= poll_delay)
  /\ c = mk check_cb initial_delay poll_delay threshold None.
Proof.
  unfold init.
  destruct (initial_delay >=? 0) eqn:Hd; [|discriminate].
  destruct (poll_delay >=? 0) eqn:Hp; [|discriminate].
  destruct (100 >? threshold) eqn:H1; [|discriminate].
  destruct (threshold >=? 0) eqn:H2; [|discriminate].
  cbn. intros [= <-].
  apply Z.geb_le in Hd, Hp, H2. apply Z.gtb_lt in H1. repeat split; lia.
Qed.

Lemma init_total (threshold initial_delay poll_delay : Z) :
  (exists c, init check_cb threshold initial_delay poll_delay = Ok c)
  \/ init check_cb threshold initial_delay poll_delay = Raise AssertionError.
Proof.
  unfold init.
  destruct (initial_delay >=? 0); [|by right].
  destruct (poll_delay >=? 0); [|by right].
  destruct ((100 >? threshold) && (threshold >=? 0)); [|by right].
  left. eauto.
Qed.

(** C9.  Constructing an [_IdleChecker] succeeds exactly when the
    threshold lies in [0,100) and both delays are non-negative; a
    threshold of 100 or more (or below 0), or a negative delay, makes
    construction fail with an assertion error; and [is_idle] on a checker for which
    [schedule_poll] has not run yet fails with an assertion error instead
    of returning false. *)
Theorem idle_checker_preconditions (threshold initial_delay poll_delay : Z) :
  ((exists c, init check_cb threshold initial_delay poll_delay = Ok c)
   <-> (0 <= threshold < 100 /\ 0 <= initial_delay /\ 0 <= poll_delay))
  /\ (threshold < 0 \/ 100 <= threshold
      \/ initial_delay < 0 \/ poll_delay < 0 ->
      init check_cb threshold initial_delay poll_delay = Raise AssertionError)
  /\ (forall c w,
        init check_cb threshold initial_delay poll_delay = Ok c ->
        is_idle (c, w) = (Raise AssertionError, (c, w))).
Proof.
  split; [split|split].
  - intros [c Hc]. by apply init_inv in Hc as [? _].
  - intros (? & ? & ?). eexists. by apply init_ok.
  - intros Hbad.
    destruct (init_total threshold initial_delay poll_delay) as [[c Hc]|]; [|done].
    apply init_inv in Hc as [? _]. lia.
  - intros c w Hc. apply init_inv in Hc as [_ ->]. reflexivity.
Qed.

End IdleCheckerFacts.

Lemma idle_checker_preconditions_witness :
  (exists c, IdleChecker.init (recording_cb true) 50 5 1 = Ok c)
  /\ IdleChecker.init (recording_cb true) 100 5 1 = Raise AssertionError
  /\ IdleChecker.init (recording_cb true) 50 (-1) 1 = Raise AssertionError
  /\ IdleChecker.init (recording_cb true) 50 5 (-1) = Raise AssertionError.
Proof.
  pose proof (idle_checker_preconditions (recording_cb true) 50 5 1) as H1.
  pose proof (idle_checker_preconditions (recording_cb true) 100 5 1) as H2.
  pose proof (idle_checker_preconditions (recording_cb true) 50 (-1) 1) as H3.
  pose proof (idle_checker_preconditions (recording_cb true) 50 5 (-1)) as H4.
  split; [apply H1; lia|].
  split; [apply H2; lia|].
  split; [apply H3; lia|apply H4; lia].
Defined.

Section IdleCheckerPolling.

Import IdleChecker.

Lemma schedule_poll_initial (c : t) (w : World) :
  schedule_poll true None (c, w)
  = (Ok tt, (set_next_poll (Some (now w + _init_delay c)) c, tick w)).
Proof. reflexivity. Qed.

Lemma is_idle_throttled (c : t) (w : World) (next_poll : Z) :
  _next_poll c = Some next_poll -> now w < next_poll ->
  is_idle (c, w) = (Ok false, (c, tick w)).
Proof.
  intros Hn Hlt. unfold is_idle, bind, self. cbn. rewrite Hn. cbn.
  fold (now w).
  assert ((now w >=? next_poll) = false) as ->; [|reflexivity].
  rewrite Z.geb_leb. apply Z.leb_gt. lia.
Qed.

Lemma is_idle_polls (c : t) (w : World) (next_poll : Z) :
  _next_poll c = Some next_poll -> next_poll <= now w ->
  is_idle (c, w)
  = match _check_cb c (_threshold c) (tick w) with
    | (Ok true, w') => (Ok true, (c, w'))
    | (Ok false, w') =>
        (Ok false, (set_next_poll (Some (now w + _poll_delay c)) c, w'))
    | (Raise e, w') => (Raise e, (c, w'))
    end.
Proof.
  intros Hn Hle. unfold is_idle, bind, self. cbn. rewrite Hn. cbn.
  fold (now w) (tick w).
  assert ((now w >=? next_poll) = true) as -> by (apply Z.geb_le; lia).
  unfold io, zoom. cbn.
  destruct (_check_cb c (_threshold c) (tick w)) as [[[]|e] w']; reflexivity.
Qed.

(** C6.  After [schedule_poll(initial=True)] at time [t0] on a checker
    with initial delay [d] and poll delay [p]: an [is_idle] call at a time
    earlier than [t0 + d] returns false, leaves the checker as it is and
    does not invoke the predicate (the world only loses one clock
    reading); an [is_idle] call at or after [t0 + d] invokes the predicate
    once, returns true when the predicate does, and otherwise sets the
    next poll [p] later than the time of the call and returns false. *)
Theorem is_idle_after_initial_schedule (c : t) (w : World) :
  let t0 := now w in
  let d := _init_delay c in
  let p := _poll_delay c in
  exists c1,
    schedule_poll true None (c, w) = (Ok tt, (c1, tick w))
    /\ (forall w1, now w1 < t0 + d ->
          is_idle (c1, w1) = (Ok false, (c1, tick w1)))
    /\ (forall w1, t0 + d <= now w1 ->
          is_idle (c1, w1)
          = match _check_cb c (_threshold c) (tick w1) with
            | (Ok true, w2) => (Ok true, (c1, w2))
            | (Ok false, w2) =>
                (Ok false, (set_next_poll (Some (now w1 + p)) c1, w2))
            | (Raise e, w2) => (Raise e, (c1, w2))
            end).
Proof.
  intros t0 d p. eexists. split; [apply schedule_poll_initial|]. split.
  - intros w1 Hlt. by eapply is_idle_throttled.
  - intros w1 Hle. by erewrite is_idle_polls.
Qed.

End IdleCheckerPolling.

(** The example of C6: initial delay 5, first poll scheduled at t = 0.  At
    t = 3 [is_idle] returns false and the trace shows no call of the
    predicate; at t = 6 the predicate is called. *)
Lemma is_idle_after_initial_schedule_witness :
  let c := IdleChecker.mk (recording_cb false) 5 1 10 None in
  let at_ (t : Z) := mkWorld (fun _ => t) 0 ∅ [] in
  exists c1,
    IdleChecker.schedule_poll true None (c, at_ 0) = (Ok tt, (c1, tick (at_ 0)))
    /\ IdleChecker.is_idle (c1, at_ 3) = (Ok false, (c1, tick (at_ 3)))
    /\ trace (snd (snd (IdleChecker.is_idle (c1, at_ 3)))) = []
    /\ trace (snd (snd (IdleChecker.is_idle (c1, at_ 6)))) = [EvTargetIsIdle 10]
    /\ IdleChecker._next_poll (fst (snd (IdleChecker.is_idle (c1, at_ 6))))
       = Some 7.
Proof.
  intros c at_.
  destruct (is_idle_after_initial_schedule c (at_ 0)) as (c1 & Hs & Hlt & Hge).
  exists c1. split; [exact Hs|].
  assert (c1 = IdleChecker.set_next_poll (Some 5) c) as Hc1.
  { rewrite schedule_poll_initial in Hs. by injection Hs as <-. }
  split; [apply Hlt; cbn; lia|].
  split; [rewrite Hlt by (cbn; lia); reflexivity|].
  rewrite Hge by (cbn; lia). rewrite Hc1. split; reflexivity.
Defined.

(** ** The URL built by [Runner.location] *)

Section Location.

Lemma geb_true (a b : Z) : b <= a -> (a >=? b) = true.
Proof. intros. apply Z.geb_le. lia. Qed.

Lemma geb_false (a b : Z) : a < b -> (a >=? b) = false.
Proof. intros. rewrite Z.geb_leb. apply Z.leb_gt. lia. Qed.

Lemma location_spec_url (srv_path : string) (srv_port : Z)
    (close_after : option Z) (forced_close : bool) (timeout : option Z) :
  non_negative close_after -> non_negative timeout ->
  Runner.location srv_path srv_port close_after forced_close timeout
  = Ok (spec_url srv_path srv_port close_after forced_close timeout).
Proof.
  intros Hc Ht. unfold Runner.location, spec_url, spec_directives.
  fold (spec_base srv_path srv_port).
  destruct close_after as [c|], forced_close, timeout as [t|]; cbn in Hc, Ht;
    rewrite ?(geb_true c 0) by done; cbn;
    rewrite ?(geb_true t 0) by done; reflexivity.
Qed.

Lemma location_negative (srv_path : string) (srv_port : Z)
    (close_after : option Z) (forced_close : bool) (timeout : option Z) :
  ~ (non_negative close_after /\ non_negative timeout) ->
  Runner.location srv_path srv_port close_after forced_close timeout
  = Raise AssertionError.
Proof.
  intros Hneg. unfold Runner.location.
  destruct close_after as [c|]; cbn.
  - destruct (Z_lt_le_dec c 0) as [Hc|Hc].
    + by rewrite geb_false.
    + rewrite geb_true by done. cbn.
      destruct timeout as [t|]; cbn.
      * destruct (Z_lt_le_dec t 0) as [Ht|Ht]; [by rewrite geb_false|].
        exfalso. apply Hneg. by split.
      * exfalso. apply Hneg. by split.
  - destruct timeout as [t|]; cbn.
    + destruct (Z_lt_le_dec t 0) as [Ht|Ht]; [by rewrite geb_false|].
      exfalso. apply Hneg. by split.
    + exfalso. apply Hneg. by split.
Qed.

(** C7.  [Runner.location] is a function of its arguments alone; for
    non-negative [close_after] and [timeout] it returns the base URL
    [http://127.0.0.1:<port>/<path>] followed, only when a directive
    applies, by [?] and the directives [close_after=], [forced_close=0],
    [timeout=] (seconds times 1000) in this order, joined by [&], each
    present only when its source value is not the default.  The two
    examples of the spec are instances. *)
Theorem location_format (srv_path : string) (srv_port : Z)
    (close_after : option Z) (forced_close : bool) (timeout : option Z) :
  non_negative close_after -> non_negative timeout ->
  Runner.location srv_path srv_port close_after forced_close timeout
  = Ok (spec_url srv_path srv_port close_after forced_close timeout)
  /\ Runner.location "/x" 8080 None true None = Ok "http://127.0.0.1:8080/x"
  /\ Runner.location "/x" 8080 (Some 5) false (Some 2)
     = Ok "http://127.0.0.1:8080/x?close_after=5&forced_close=0&timeout=2000".
Proof.
  intros Hc Ht. split; [by apply location_spec_url|].
  split; vm_compute; reflexivity.
Qed.

End Location.

Lemma location_format_witness :
  Runner.location "/grz_harness" 4000 (Some 0) true (Some 30)
  = Ok "http://127.0.0.1:4000/grz_harness?close_after=0&timeout=30000".
Proof.
  destruct (location_format "/grz_harness" 4000 (Some 0) true (Some 30))
    as [H _]; [cbn; lia|cbn; lia|].
  rewrite H. vm_compute. reflexivity.
Defined.

(** ** When [LogOutputLimiter.ready] fires *)

Section Limiter.

Import LogOutputLimiter.

Lemma ready_iteration (l : t) (w : World) (cur_iter launches : Z) :
  _verbose l = false -> _iterations l <= cur_iter ->
  ready cur_iter launches (l, w)
  = (Ok true, (fired l cur_iter launches (now w), tick w)).
Proof.
  intros Hv Hi. destruct l; cbn in *; subst. unfold ready, fired. mrun.
  rewrite !geb_true by done. reflexivity.
Qed.

Lemma ready_launches (l : t) (w : World) (cur_iter launches : Z) :
  _verbose l = false -> cur_iter < _iterations l -> _launches l <= launches ->
  ready cur_iter launches (l, w)
  = (Ok true, (fired l cur_iter launches (now w), tick w)).
Proof.
  intros Hv Hi Hl. destruct l; cbn in *; subst. unfold ready, fired. mrun.
  rewrite (geb_false cur_iter) by done. rewrite geb_true by done. reflexivity.
Qed.

Lemma ready_delay (l : t) (w : World) (cur_iter launches : Z) :
  _verbose l = false -> cur_iter < _iterations l -> launches < _launches l ->
  _delay l <= now w - _time l ->
  ready cur_iter launches (l, w)
  = (Ok true, (fired l cur_iter launches (now (tick w)), tick (tick w))).
Proof.
  intros Hv Hi Hl Hd. destruct l; cbn in *; subst. unfold now in *. unfold ready, fired. mrun.
  rewrite (geb_false cur_iter), (geb_false launches) by done. mrun.
  rewrite geb_true by lia. reflexivity.
Qed.

Lemma ready_quiet (l : t) (w : World) (cur_iter launches : Z) :
  _verbose l = false -> cur_iter < _iterations l -> launches < _launches l ->
  now w - _time l < _delay l ->
  ready cur_iter launches (l, w) = (Ok false, (l, tick w)).
Proof.
  intros Hv Hi Hl Hd. destruct l; cbn in *; subst. unfold now in *.
  unfold ready. mrun.
  rewrite (geb_false cur_iter), (geb_false launches) by done. mrun.
  rewrite geb_false by lia. reflexivity.
Qed.

(** C8, as the code has it.  In non-verbose mode [ready] returns true
    exactly when the current iteration has reached the iteration
    threshold, or the launch count has reached the launch threshold, or
    the time since the anchor is at least the delay.  A firing sets the
    anchor to the clock reading taken at the firing and the launch
    threshold to [launches + 1], and multiplies the iteration threshold
    by the multiplier when the iteration condition fired; a call that does
    not fire leaves the limiter unchanged. *)
Theorem ready_fires_iff (l : t) (w : World) (cur_iter launches : Z) :
  _verbose l = false ->
  exists (b : bool) (l1 : t) (w1 : World),
    ready cur_iter launches (l, w) = (Ok b, (l1, w1))
    /\ (b = true <-> fires l cur_iter launches (now w))
    /\ (b = true ->
        _launches l1 = launches + 1
        /\ (_time l1 = now w \/ _time l1 = now (tick w))
        /\ _iterations l1 = (if cur_iter >=? _iterations l
                             then _iterations l * _multiplier l
                             else _iterations l))
    /\ (b = false -> l1 = l).
Proof.
  intros Hv. unfold fires.
  destruct (Z_lt_le_dec cur_iter (_iterations l)) as [Hi|Hi];
    [destruct (Z_lt_le_dec launches (_launches l)) as [Hl|Hl];
     [destruct (Z_lt_le_dec (now w - _time l) (_delay l)) as [Hd|Hd]|]|].
  - exists false, l, (tick w). rewrite ready_quiet by done.
    repeat split; try done. intros; lia.
  - eexists true, _, _. rewrite ready_delay by done.
    repeat split; try done; auto.
  - eexists true, _, _. rewrite ready_launches by done.
    repeat split; try done; auto.
  - eexists true, _, _. rewrite ready_iteration by done.
    repeat split; try done; auto.
Qed.

End Limiter.

(** With the default settings: [ready(1, 0)] and [ready(2, 0)] are true,
    the thresholds going 1, 2, 4, and [ready(3, 0)] is false while the
    launch and time conditions do not hold. *)
Lemma ready_fires_iff_witness :
  let w0 := mkWorld (fun _ => 0) 0 ∅ [] in
  let l0 := LogOutputLimiter.mk 300 1 1 2 0 false in
  exists l1 l2 w1 w2 w3,
    LogOutputLimiter.ready 1 0 (l0, w0) = (Ok true, (l1, w1))
    /\ LogOutputLimiter.ready 2 0 (l1, w1) = (Ok true, (l2, w2))
    /\ LogOutputLimiter.ready 3 0 (l2, w2) = (Ok false, (l2, w3))
    /\ LogOutputLimiter._iterations l2 = 4.
Proof.
  intros w0 l0.
  destruct (ready_fires_iff l0 w0 1 0 eq_refl) as (b & l1 & w1 & H1 & _).
  vm_compute in H1. injection H1 as <- <- <-.
  eexists _, _, _, _, _. repeat split; vm_compute; reflexivity.
Defined.

(** With the default settings, after [ready(1, 0)] and [ready(2, 0)] fired
    at time 0, [ready(3, 0)] at time 300 returns true although the
    iteration threshold is 4, the launch threshold is 1 and the time
    since the last firing, 300, does not exceed the delay of 300. *)
Lemma ready_exceeds_counterexample :
  let w0 := mkWorld (fun n => if (n <? 3)%nat then 0 else 300) 0 ∅ [] in
  exists l0 l1 l2 l3 w1 w2 w3 w4,
    LogOutputLimiter.init 300 2 false w0 = (Ok l0, w1)
    /\ LogOutputLimiter.ready 1 0 (l0, w1) = (Ok true, (l1, w2))
    /\ LogOutputLimiter.ready 2 0 (l1, w2) = (Ok true, (l2, w3))
    /\ LogOutputLimiter.ready 3 0 (l2, w3) = (Ok true, (l3, w4))
    /\ now w3 = 300
    /\ ~ spec_fires l2 3 0 (now w3).
Proof.
  intros w0. eexists _, _, _, _, _, _, _, _.
  split; [vm_compute; reflexivity|].
  split; [vm_compute; reflexivity|].
  split; [vm_compute; reflexivity|].
  split; [vm_compute; reflexivity|].
  split; [reflexivity|].
  unfold spec_fires, now. cbn. lia.
Qed.

(** ** How often [Runner.launch] calls [target.launch] *)

Section Launch.

Import Runner.

Lemma launch_calls_app (tr1 tr2 : list Event) :
  launch_calls (tr1 ++ tr2) = (launch_calls tr1 + launch_calls tr2)%nat.
Proof.
  induction tr1 as [|e tr1 IH]; [done|].
  destruct e; cbn; rewrite ?IH; lia.
Qed.

Lemma launch_loop_calls (location : string) (retry_delay : Z)
    (rs : list Z) (script : list launch_outcome) (w : World) :
  (launch_calls (trace (launch_loop location retry_delay script rs w).2)
   <= launch_calls (trace w) + length rs)%nat.
Proof.
  revert script w. induction rs as [|retries rs IH]; intros script w.
  - cbn. lia.
  - cbn [launch_loop length]. unfold target_launch. mrun.
    destruct (hd LaunchOk script); mrun.
    + rewrite launch_calls_app. cbn. lia.
    + destruct (retries =? 0); mrun.
      * rewrite launch_calls_app. cbn. lia.
      * etrans; [apply IH|]. cbn. rewrite !launch_calls_app. cbn. lia.
    + destruct (retries =? 0); mrun.
      * rewrite launch_calls_app. cbn. lia.
      * etrans; [apply IH|]. cbn. rewrite !launch_calls_app. cbn. lia.
Qed.

Lemma length_range (n : nat) : length (reversed (range (Z.of_nat n))) = n.
Proof.
  unfold reversed, range.
  by rewrite length_rev, length_fmap, length_seq, Nat2Z.id.
Qed.

(** C2, what the code does.  [launch] calls [target.launch] at most
    [max_retries] times, not [max_retries + 1] times: with
    [max_retries = 3] and a target that fails three times and would
    start on the fourth call, the third failure is re-raised and no
    fourth call is made; with [max_retries = 0] the target is not
    launched at all and [launch] returns normally. *)
Theorem launch_attempts_at_most_max_retries :
  (forall (n : nat) script location retry_delay r w,
      (launch_calls
         (trace (launch script location (Z.of_nat n) retry_delay (r, w)).2.2)
       <= launch_calls (trace w) + n)%nat)
  /\ (let out := launch [LaunchFails; LaunchFails; LaunchFails; LaunchOk]
                        "http://127.0.0.1:8080/x" 3 0 (runner0, world0) in
      out.1 = Raise TargetLaunchError
      /\ launch_calls (trace out.2.2) = 3%nat)
  /\ (let out := launch [] "http://127.0.0.1:8080/x" 0 0 (runner0, world0) in
      out.1 = Ok tt
      /\ launch_calls (trace out.2.2) = 0%nat).
Proof.
  split; [|split; split; vm_compute; reflexivity].
  intros n script location retry_delay r w. unfold launch. mrun.
  destruct (bool_decide (is_Some (_server r))); mrun; [|lia].
  destruct (bool_decide (is_Some (_target r))); mrun; [|lia].
  destruct (Z.of_nat n >=? 0); mrun; [|lia].
  destruct (retry_delay >=? 0); mrun; [|lia].
  match goal with
  | |- context [launch_loop ?l ?d ?s ?rs ?w0] =>
      pose proof (launch_loop_calls l d rs s w0) as H;
      destruct (launch_loop l d s rs w0) as [[[]|e] w1]
  end; cbn in *; rewrite length_range in H;
    rewrite !launch_calls_app in H; cbn in H; lia.
Qed.

End Launch.

(** ** What one [Runner.run] call does *)

Section RunFacts.

Import Runner.

Lemma record_nil (w : World) : record [] w = w.
Proof. destruct w. unfold record, set_trace. cbn. by rewrite app_nil_r. Qed.

Lemma record_record (tr1 tr2 : list Event) (w : World) :
  record tr2 (record tr1 w) = record (tr1 ++ tr2) w.
Proof. destruct w. unfold record, set_trace. cbn. by rewrite app_assoc. Qed.

Lemma for_each_emit {A} (f : A -> Event) (l : list A) (w : World) :
  for_each l (fun x => emit (f x)) w = (Ok tt, record (f <$> l) w).
Proof.
  revert w. induction l as [|x l IH]; intros w.
  - cbn. by rewrite record_nil.
  - cbn [for_each]. mrun. rewrite IH.
    change (set_trace (trace w ++ [f x]) w) with (record [f x] w).
    by rewrite record_record.
Qed.

Lemma for_each_emit_run {A} (f : A -> Event) (l : list A) (w : World) :
  for_each l (fun x s => (Ok tt, set_trace (trace s ++ [f x]) s)) w
  = (Ok tt, record (f <$> l) w).
Proof. apply (for_each_emit f l w). Qed.

Lemma run_unfold (env : RunEnv) (testcase : TestCase)
    (test_path : option string) (coverage wait_for_callback : bool)
    (r : Runner.t) (w : World) :
  run env testcase test_path coverage wait_for_callback (r, w)
  = match unpack_and_serve env test_path wait_for_callback (scheduled r w).2 with
    | (Ok (st, served, duration), w') =>
        let r1 := (scheduled r w).1 in
        let res := result_of env testcase (_tests_run r) st served duration in
        (Ok res,
         (if RunResult.attempted res
          then set_tests_run (_tests_run r + 1) r1 else r1,
          record (epilogue env testcase coverage st served) w'))
    | (Raise e, w') => (Raise e, ((scheduled r w).1, w'))
    end.
Proof.
  unfold run, scheduled. mrun.
  destruct (_idle r) as [c|] eqn:Hidle; mrun.
  - unfold IdleChecker.schedule_poll. mrun. fold (now w) (tick w).
    destruct (unpack_and_serve env test_path wait_for_callback (tick w))
      as [[[[st served] duration]|e] w']; [|done].
    mrun. rewrite for_each_emit_run. unfold result_of, epilogue. cbn.
    destruct (bool_decide (landing_page testcase ∈ served)); cbn;
      destruct coverage, (status_eqb st SERVED_TIMEOUT), (detect env), w';
      cbn; unfold record, set_trace; cbn;
      rewrite <- ?app_assoc; reflexivity.
  - destruct (unpack_and_serve env test_path wait_for_callback w)
      as [[[[st served] duration]|e] w']; [|done].
    mrun. rewrite for_each_emit_run. unfold result_of, epilogue. cbn.
    destruct (bool_decide (landing_page testcase ∈ served)); cbn;
      destruct coverage, (status_eqb st SERVED_TIMEOUT), (detect env), w', r;
      cbn in *; subst; unfold record, set_trace; cbn;
      rewrite <- ?app_assoc; reflexivity.
Qed.

Lemma unpack_and_serve_served (env : RunEnv) (test_path : option string)
    (wait_for_callback : bool) (w w' : World)
    (st : serve_status) (served : list string) (duration : Z) :
  unpack_and_serve env test_path wait_for_callback w
  = (Ok (st, served, duration), w') ->
  serve_result env = Some (st, served).
Proof.
  unfold unpack_and_serve, serve_path, dump, grz_tmp, mkdtemp, rmtree.
  destruct test_path as [p|]; mrun.
  - destruct (serve_result env) as [[st1 sv1]|]; mrun; congruence.
  - case_bool_decide; mrun; [congruence|].
    destruct (dump_raises env); mrun;
      rewrite ?bool_decide_eq_true_2 by set_solver; mrun; [congruence|].
    destruct (serve_result env) as [[st1 sv1]|]; mrun;
      rewrite ?bool_decide_eq_true_2 by set_solver; mrun; congruence.
Qed.

Lemma scratch_dir_not_root (env : RunEnv) : scratch_dir env <> serve_root.
Proof. unfold scratch_dir, serve_root. cbn. discriminate. Qed.

(** With [test_path] set, serving neither makes nor removes a
    directory. *)
Lemma unpack_and_serve_given (env : RunEnv) (p : string)
    (wait_for_callback : bool) (w : World) :
  dirs (unpack_and_serve env (Some p) wait_for_callback w).2 = dirs w
  /\ exists tr,
       trace (unpack_and_serve env (Some p) wait_for_callback w).2
       = trace w ++ tr
       /\ forallb (negb ∘ dir_event) tr = true.
Proof.
  unfold unpack_and_serve, serve_path. mrun.
  destruct (serve_result env) as [[st sv]|]; mrun;
    (split; [done|]); by exists [EvServePath p wait_for_callback].
Qed.

(** With [test_path] unset and an unused scratch name, the scratch
    directory is made and, whatever happens next, removed. *)
Lemma unpack_and_serve_scratch (env : RunEnv) (wait_for_callback : bool)
    (w : World) :
  (scratch_dir env ∉ dirs w) ->
  dirs (unpack_and_serve env None wait_for_callback w).2
  = dirs w ∪ {[ serve_root ]}
  /\ exists tr,
       trace (unpack_and_serve env None wait_for_callback w).2
       = trace w ++ EvMkdtemp (scratch_dir env) :: tr ++ [EvRmtree (scratch_dir env)]
       /\ forallb (negb ∘ dir_event) tr = true.
Proof.
  intros Hfresh.
  assert (scratch_dir env ∉ dirs w ∪ {[ serve_root ]}) as Hfresh'.
  { pose proof (scratch_dir_not_root env). set_solver. }
  unfold unpack_and_serve, serve_path, dump, grz_tmp, mkdtemp, rmtree. mrun.
  change ("/tmp/grizzly/serve/test_" +:+ tmp_suffix env)
    with (scratch_dir env) in *.
  change "/tmp/grizzly/serve" with serve_root in *.
  rewrite bool_decide_eq_false_2 by done. mrun.
  destruct (dump_raises env); mrun.
  - rewrite bool_decide_eq_true_2 by set_solver. mrun.
    split; [set_solver|]. exists [EvDump (scratch_dir env)].
    split; [|done]. by rewrite <- !app_assoc.
  - destruct (serve_result env) as [[st sv]|]; mrun;
      rewrite bool_decide_eq_true_2 by set_solver; mrun.
    + split; [set_solver|].
      exists [EvDump (scratch_dir env);
              EvServePath (scratch_dir env) wait_for_callback].
      split; [|done]. by rewrite <- !app_assoc.
    + split; [set_solver|].
      exists [EvDump (scratch_dir env);
              EvServePath (scratch_dir env) wait_for_callback].
      split; [|done]. by rewrite <- !app_assoc.
Qed.

Lemma epilogue_no_dir_event (env : RunEnv) (testcase : TestCase)
    (coverage : bool) (st : serve_status) (served : list string) :
  forallb (negb ∘ dir_event) (epilogue env testcase coverage st served) = true.
Proof.
  unfold epilogue. rewrite !forallb_app.
  assert (forallb (negb ∘ dir_event) (EvAddBatch <$> include_urls env) = true)
    as -> by (induction (include_urls env); done).
  by destruct (bool_decide (landing_page testcase ∈ served)), coverage,
       (status_eqb st SERVED_TIMEOUT).
Qed.

Lemma scheduled_world (r : Runner.t) (w : World) :
  dirs (scheduled r w).2 = dirs w /\ trace (scheduled r w).2 = trace w.
Proof. unfold scheduled. by destruct (_idle r). Qed.

(** The world after [run]: the world after serving, with the events of
    the epilogue when [run] returns. *)
Lemma run_world (env : RunEnv) (testcase : TestCase)
    (test_path : option string) (coverage wait_for_callback : bool)
    (r : Runner.t) (w : World) :
  exists tr,
    (run env testcase test_path coverage wait_for_callback (r, w)).2.2
    = record tr (unpack_and_serve env test_path wait_for_callback
                                  (scheduled r w).2).2
    /\ forallb (negb ∘ dir_event) tr = true.
Proof.
  rewrite run_unfold.
  destruct (unpack_and_serve env test_path wait_for_callback (scheduled r w).2)
    as [[[[st served] duration]|e] w']; cbn.
  - eexists. split; [done|]. apply epilogue_no_dir_event.
  - exists []. by rewrite record_nil.
Qed.

(** How [run] moves the per-launch counter and what it reports. *)
Lemma run_returns (env : RunEnv) (testcase : TestCase)
    (test_path : option string) (coverage wait_for_callback : bool)
    (r r' : Runner.t) (w w' : World) (res : RunResult.t) :
  run env testcase test_path coverage wait_for_callback (r, w)
  = (Ok res, (r', w')) ->
  exists st served duration,
    serve_result env = Some (st, served)
    /\ res = result_of env testcase (_tests_run r) st served duration
    /\ _tests_run r' = if RunResult.attempted res
                       then _tests_run r + 1 else _tests_run r.
Proof.
  rewrite run_unfold.
  destruct (unpack_and_serve env test_path wait_for_callback (scheduled r w).2)
    as [[[[st served] duration]|e] w1] eqn:Hserve; [|done].
  cbn. intros [= <- <- <-]. exists st, served, duration.
  split; [by eapply unpack_and_serve_served|]. split; [done|].
  cbn. unfold scheduled.
  by destruct (bool_decide (landing_page testcase ∈ served)), (_idle r).
Qed.

Lemma run_raises (env : RunEnv) (testcase : TestCase)
    (test_path : option string) (coverage wait_for_callback : bool)
    (r r' : Runner.t) (w w' : World) (e : exn) :
  run env testcase test_path coverage wait_for_callback (r, w)
  = (Raise e, (r', w')) ->
  _tests_run r' = _tests_run r.
Proof.
  rewrite run_unfold.
  destruct (unpack_and_serve env test_path wait_for_callback (scheduled r w).2)
    as [[[[st served] duration]|e1] w1]; [done|].
  intros [= <- <- <-]. unfold scheduled. by destruct (_idle r).
Qed.

End RunFacts.

(** ** The classification carried by a result *)

(** C1, as the code has it.  The status of the result that [run] returns
    is the classification of what [detect_failure] answered: failed for a
    failure, ignored for an ignored failure, none otherwise.  Failure
    detection runs on every call, attempted or not; [attempted] says
    whether the landing page is among what was served. *)
Theorem run_status_is_detect_failure (env : RunEnv) (testcase : TestCase)
    (test_path : option string) (coverage wait_for_callback : bool)
    (r r' : Runner.t) (w w' : World) (res : RunResult.t) :
  Runner.run env testcase test_path coverage wait_for_callback (r, w)
  = (Ok res, (r', w')) ->
  RunResult.status res
  = match detect env with
    | RESULT_FAILURE => Some RunResult.FAILED
    | RESULT_IGNORED => Some RunResult.IGNORED
    | RESULT_NONE => None
    end
  /\ In (EvDetectFailure (RunResult.timeout res)) (trace w')
  /\ (RunResult.attempted res = true
      <-> landing_page testcase ∈ RunResult.served res).
Proof.
  rewrite run_unfold.
  destruct (Runner.unpack_and_serve env test_path wait_for_callback
                                    (scheduled r w).2)
    as [[[[st served] duration]|e] w1]; [|done].
  cbn. intros [= <- _ <-]. split; [done|]. split.
  - unfold record, epilogue. cbn [trace set_trace RunResult.timeout result_of].
    apply list_elem_of_In. set_solver.
  - cbn. apply bool_decide_eq_true.
Qed.

Lemma run_status_is_detect_failure_witness :
  exists res s,
    Runner.run unserved_failure sample_test None false false (runner0, world0)
    = (Ok res, s)
    /\ RunResult.status res = Some RunResult.FAILED.
Proof.
  destruct (Runner.run unserved_failure sample_test None false false
                       (runner0, world0)) as [[res|e] [r' w']] eqn:Hrun;
    [|vm_compute in Hrun; discriminate].
  exists res, (r', w'). split; [done|].
  by destruct (run_status_is_detect_failure _ _ _ _ _ _ _ _ _ _ Hrun) as [-> _].
Defined.

(** The target crashes before it requests the landing page: nothing is
    served and [detect_failure] reports a failure.  The result is not
    attempted and yet carries the classification failed. *)
Lemma unattempted_result_failed_counterexample :
  exists res s,
    Runner.run unserved_failure sample_test None false false (runner0, world0)
    = (Ok res, s)
    /\ RunResult.attempted res = false
    /\ RunResult.status res = Some RunResult.FAILED.
Proof. eexists _, _. vm_compute. repeat split. Qed.

(** ** The [initial] flag along the [run] calls that follow a launch *)

Section InitialFlag.

Lemma launch_resets (script : list launch_outcome) (location : string)
    (max_retries retry_delay : Z) (r r' : Runner.t) (w w' : World) :
  Runner.launch script location max_retries retry_delay (r, w)
  = (Ok tt, (r', w')) ->
  Runner._tests_run r' = 0.
Proof.
  unfold Runner.launch. mrun.
  destruct (bool_decide (is_Some (Runner._server r))); mrun; [|done].
  destruct (bool_decide (is_Some (Runner._target r))); mrun; [|done].
  destruct (max_retries >=? 0); mrun; [|done].
  destruct (retry_delay >=? 0); mrun; [|done].
  match goal with
  | |- context [Runner.launch_loop ?l ?d ?s ?rs ?w0] =>
      destruct (Runner.launch_loop l d s rs w0) as [[[]|e] w1]
  end; cbn; [|done].
  by intros [= <- _].
Qed.

Lemma initial_from_counter (calls : list Call) (r : Runner.t) (w : World)
    (k : nat) (res : RunResult.t) :
  0 <= Runner._tests_run r ->
  run_all calls (r, w) !! k = Some (Ok res) ->
  RunResult.initial res = true
  <-> Runner._tests_run r = 0 /\ none_attempted_before (run_all calls (r, w)) k.
Proof.
  revert r w k. induction calls as [|c calls IH]; intros r w k Hpos; [done|].
  cbn [run_all].
  destruct (Runner.run (call_env c) (call_test c) (call_path c)
                       (call_coverage c) (call_wait c) (r, w))
    as [out [r1 w1]] eqn:Hrun.
  cbn [fst snd]. destruct k as [|k]; cbn [lookup list_lookup].
  - intros [= ->].
    apply run_returns in Hrun as (st & served & duration & _ & -> & _).
    cbn. rewrite Z.eqb_eq. split; [|by intros [? _]].
    intros ?. split; [done|]. intros j ? ?. lia.
  - intros Hk. destruct out as [res0|e].
    + apply run_returns in Hrun as (st & served & duration & _ & -> & Hr1).
      cbn in Hr1.
      rewrite (IH r1 w1 k) by
        (try done; destruct (bool_decide _) in Hr1; lia).
      unfold none_attempted_before. split.
      * intros [H0 Hnone].
        assert (bool_decide (landing_page (call_test c) ∈ served) = false) as Hb.
        { destruct (bool_decide _) eqn:Hb in Hr1; [lia|done]. }
        rewrite Hb in Hr1. split; [lia|].
        intros [|j] res' Hj; cbn.
        -- by intros [= <-].
        -- apply Hnone. lia.
      * intros [H0 Hnone].
        assert (bool_decide (landing_page (call_test c) ∈ served) = false) as Hb.
        { by apply (Hnone 0%nat _ ltac:(lia) eq_refl). }
        rewrite Hb in Hr1. split; [lia|].
        intros j res' Hj Hl. apply (Hnone (S j)); [lia|done].
    + apply run_raises in Hrun.
      rewrite (IH r1 w1 k) by (try done; lia).
      unfold none_attempted_before. rewrite Hrun. split.
      * intros [H0 Hnone]. split; [done|].
        intros [|j] res' Hj; cbn; [done|]. apply Hnone. lia.
      * intros [H0 Hnone]. split; [done|].
        intros j res' Hj Hl. apply (Hnone (S j)); [lia|done].
Qed.

(** C3, as the code has it.  Along the [run] calls that follow a
    successful [launch], the result of a call has [initial] set exactly
    when no earlier call since that launch returned an attempted result:
    the per-launch counter, reset by [launch], counts attempted
    deliveries only. *)
Theorem initial_iff_none_attempted_since_launch
    (script : list launch_outcome) (location : string)
    (max_retries retry_delay : Z) (r : Runner.t) (w : World)
    (s0 : Runner.St) (calls : list Call) (k : nat) (res : RunResult.t) :
  Runner.launch script location max_retries retry_delay (r, w) = (Ok tt, s0) ->
  run_all calls s0 !! k = Some (Ok res) ->
  RunResult.initial res = true <-> none_attempted_before (run_all calls s0) k.
Proof.
  destruct s0 as [r0 w0]. intros Hlaunch Hk.
  apply launch_resets in Hlaunch.
  rewrite (initial_from_counter calls r0 w0 k res) by (try done; lia).
  split; [by intros [_ ?]|by split].
Qed.

End InitialFlag.

Lemma initial_iff_none_attempted_since_launch_witness :
  exists s0 res,
    Runner.launch [] "http://127.0.0.1:8080/x" 3 0 (runner0, world0) = (Ok tt, s0)
    /\ run_all two_calls s0 !! 1%nat = Some (Ok res)
    /\ (RunResult.initial res = true
        <-> none_attempted_before (run_all two_calls s0) 1).
Proof.
  destruct (Runner.launch [] "http://127.0.0.1:8080/x" 3 0 (runner0, world0))
    as [[[]|e] s0] eqn:Hlaunch; [|vm_compute in Hlaunch; discriminate].
  destruct (run_all two_calls s0 !! 1%nat) as [[res|e]|] eqn:Hk;
    [|vm_compute in Hlaunch; injection Hlaunch as <-;
      vm_compute in Hk; discriminate..].
  exists s0, res. split; [done|]. split; [done|].
  exact (initial_iff_none_attempted_since_launch _ _ _ _ _ _ _ _ _ _ Hlaunch Hk).
Defined.

(** After a launch, a first call that serves nothing is followed by a
    second call: the second result has [initial] set although the call is
    not the first one since the launch. *)
Lemma second_call_initial_counterexample :
  exists s0 res1 res2,
    Runner.launch [] "http://127.0.0.1:8080/x" 3 0 (runner0, world0) = (Ok tt, s0)
    /\ run_all two_calls s0 = [Ok res1; Ok res2]
    /\ RunResult.initial res1 = true
    /\ RunResult.initial res2 = true.
Proof.
  eexists _, _, _.
  split; [vm_compute; reflexivity|].
  split; [vm_compute; reflexivity|].
  split; reflexivity.
Qed.

(** ** The scratch directory of [run] *)

Section Scratch.

Import Runner.

Lemma forallb_no_dir_app (tr1 tr2 : list Event) :
  forallb (negb ∘ dir_event) tr1 = true ->
  forallb (negb ∘ dir_event) tr2 = true ->
  forallb (negb ∘ dir_event) (tr1 ++ tr2) = true.
Proof. intros H1 H2. by rewrite forallb_app, H1, H2. Qed.

Lemma rmtree_there (d : string) (w : World) :
  d ∈ dirs w ->
  rmtree d w = (Ok tt, set_dirs (dirs w ∖ {[ d ]}) (record [EvRmtree d] w)).
Proof.
  intros Hin. unfold rmtree. mrun. by rewrite bool_decide_eq_true_2.
Qed.

Lemma dump_and_serve_dirs (env : RunEnv) (wwwdir : string)
    (wait_for_callback : bool) (w : World) :
  dirs (dump_and_serve env wwwdir wait_for_callback w).2 = dirs w.
Proof.
  unfold dump_and_serve, dump, serve_path. mrun.
  destruct (dump_raises env); mrun; [done|].
  by destruct (serve_result env) as [[st sv]|]; mrun.
Qed.

Lemma unpack_and_serve_made (env : RunEnv) (wait_for_callback : bool)
    (wwwdir : string) (w w1 : World) :
  (let! base := grz_tmp "serve" in
   mkdtemp "test_" base (tmp_suffix env)) w = (Ok wwwdir, w1) ->
  unpack_and_serve env None wait_for_callback w
  = finally (dump_and_serve env wwwdir wait_for_callback) (rmtree wwwdir) w1.
Proof. unfold unpack_and_serve. by intros ->. Qed.

(** With an unused scratch name, [run]'s [try] statement step by step:
    the directory is made, the test case is dumped and served while it
    exists, and [rmtree] finds and removes it. *)
Lemma unpack_and_serve_steps (env : RunEnv) (wait_for_callback : bool)
    (w : World) :
  (scratch_dir env ∉ dirs w) ->
  exists w1 w2 w3 inner,
    (let! base := grz_tmp "serve" in
     mkdtemp "test_" base (tmp_suffix env)) w
    = (Ok (scratch_dir env), w1)
    /\ dirs w1 = dirs w ∪ {[ serve_root ]} ∪ {[ scratch_dir env ]}
    /\ dump_and_serve env (scratch_dir env) wait_for_callback w1 = (inner, w2)
    /\ dirs w2 = dirs w1
    /\ rmtree (scratch_dir env) w2 = (Ok tt, w3)
    /\ dirs w3 = dirs w ∪ {[ serve_root ]}
    /\ unpack_and_serve env None wait_for_callback w = (inner, w3).
Proof.
  intros Hfresh.
  pose proof (scratch_dir_not_root env) as Hroot.
  assert ((let! base := grz_tmp "serve" in
           mkdtemp "test_" base (tmp_suffix env)) w
          = (Ok (scratch_dir env),
             mkWorld (clock w) (ticks w)
                     (dirs w ∪ {[ serve_root ]} ∪ {[ scratch_dir env ]})
                     (trace w ++ [EvMkdtemp (scratch_dir env)]))) as Hmade.
  { unfold grz_tmp, mkdtemp. mrun.
    change ("/tmp/grizzly/serve/test_" +:+ tmp_suffix env)
      with (scratch_dir env) in *.
    change "/tmp/grizzly/serve" with serve_root in *.
    by rewrite bool_decide_eq_false_2 by set_solver. }
  eexists.
  destruct (dump_and_serve env (scratch_dir env) wait_for_callback
              (mkWorld (clock w) (ticks w)
                 (dirs w ∪ {[ serve_root ]} ∪ {[ scratch_dir env ]})
                 (trace w ++ [EvMkdtemp (scratch_dir env)])))
    as [inner w2] eqn:Hserve.
  pose proof (dump_and_serve_dirs env (scratch_dir env) wait_for_callback
                (mkWorld (clock w) (ticks w)
                   (dirs w ∪ {[ serve_root ]} ∪ {[ scratch_dir env ]})
                   (trace w ++ [EvMkdtemp (scratch_dir env)]))) as Hd2.
  rewrite Hserve in Hd2. cbn [fst snd dirs] in Hd2.
  assert (scratch_dir env ∈ dirs w2) as Hin by (rewrite Hd2; set_solver).
  exists w2, (set_dirs (dirs w2 ∖ {[ scratch_dir env ]})
                (record [EvRmtree (scratch_dir env)] w2)), inner.
  split; [exact Hmade|]. split; [done|]. split; [exact Hserve|].
  split; [done|]. split; [by apply rmtree_there|].
  split; [cbn; rewrite Hd2; set_solver|].
  rewrite (unpack_and_serve_made _ _ _ _ _ Hmade). unfold finally.
  by rewrite Hserve, (rmtree_there _ _ Hin).
Qed.

(** With a scratch name that is in use, nothing is made and nothing is
    removed. *)
Lemma unpack_and_serve_in_use (env : RunEnv) (wait_for_callback : bool)
    (w : World) :
  scratch_dir env ∈ dirs w ->
  exists e,
    unpack_and_serve env None wait_for_callback w
    = (Raise e, set_dirs (dirs w ∪ {[ serve_root ]}) w).
Proof.
  intros Hin. unfold unpack_and_serve, grz_tmp, mkdtemp. mrun.
  change ("/tmp/grizzly/serve/test_" +:+ tmp_suffix env)
    with (scratch_dir env) in *.
  rewrite bool_decide_eq_true_2 by set_solver. mrun. by eexists.
Qed.

(** C5.  With [test_path] unset and an unused scratch name, [run] makes
    the scratch directory, dumps and serves the test case while the
    directory exists, and removes it again on every way out, normal
    return or exception ([out] is any outcome): [rmtree] finds the
    directory and does not fail, so [run] fails only when dumping or
    serving does; afterwards the directory does not exist, the scratch
    root is the only directory that can be new, and the [mkdtemp] and the
    [rmtree] are the only directory events of the call.  When the
    scratch name is in use, so that [mkdtemp] gives up, [run] fails,
    leaves the directory of that name alone and makes no directory call;
    only the scratch root can be new.  With [test_path] set, [run] makes
    no directory and removes none. *)
Theorem run_scratch_directory (env : RunEnv) (testcase : TestCase)
    (coverage wait_for_callback : bool) (r : Runner.t) (w : World) :
  ((scratch_dir env ∉ dirs w) ->
   forall out r' w',
     Runner.run env testcase None coverage wait_for_callback (r, w)
     = (out, (r', w')) ->
     (scratch_dir env ∉ dirs w')
     /\ (exists tr1 tr2,
           trace w' = trace w ++ EvMkdtemp (scratch_dir env) :: tr1
                              ++ EvRmtree (scratch_dir env) :: tr2
           /\ forallb (negb ∘ dir_event) (tr1 ++ tr2) = true)
     /\ dirs w' = dirs w ∪ {[ serve_root ]}
     /\ exists w1 w2 w3 inner,
          (let! base := grz_tmp "serve" in
           mkdtemp "test_" base (tmp_suffix env)) (scheduled r w).2
          = (Ok (scratch_dir env), w1)
          /\ scratch_dir env ∈ dirs w1
          /\ dump_and_serve env (scratch_dir env) wait_for_callback w1
             = (inner, w2)
          /\ scratch_dir env ∈ dirs w2
          /\ rmtree (scratch_dir env) w2 = (Ok tt, w3)
          /\ match inner with
             | Ok (st, served, _) =>
                 (exists res, out = Ok res)
                 /\ w' = record (epilogue env testcase coverage st served) w3
             | Raise e => out = Raise e /\ w' = w3
             end)
  /\ (scratch_dir env ∈ dirs w ->
      forall out r' w',
        Runner.run env testcase None coverage wait_for_callback (r, w)
        = (out, (r', w')) ->
        (exists e, out = Raise e)
        /\ dirs w' = dirs w ∪ {[ serve_root ]}
        /\ trace w' = trace w)
  /\ (forall p out r' w',
        Runner.run env testcase (Some p) coverage wait_for_callback (r, w)
        = (out, (r', w')) ->
        dirs w' = dirs w
        /\ exists tr,
             trace w' = trace w ++ tr
             /\ forallb (negb ∘ dir_event) tr = true).
Proof.
  destruct (scheduled_world r w) as [Hd Ht]. split; [|split].
  - intros Hfresh out r' w' Hrun.
    destruct (run_world env testcase None coverage wait_for_callback r w)
      as (tr2 & Hw & Htr2).
    rewrite Hrun in Hw. cbn [fst snd] in Hw.
    destruct (unpack_and_serve_scratch env wait_for_callback (scheduled r w).2)
      as (Hdirs & tr1 & Htrace & Htr1); [by rewrite Hd|].
    rewrite Hd in Hdirs. rewrite Ht in Htrace.
    destruct (unpack_and_serve_steps env wait_for_callback (scheduled r w).2)
      as (w1 & w2 & w3 & inner & Hmade & Hd1 & Hserve & Hd2 & Hrm & Hd3
          & Hsteps); [by rewrite Hd|].
    rewrite Hd in Hd1, Hd3.
    pose proof (scratch_dir_not_root env) as Hroot.
    assert (dirs w' = dirs w ∪ {[ serve_root ]}) as Hdirs'.
    { subst w'. unfold record. cbn [dirs set_trace]. exact Hdirs. }
    split; [rewrite Hdirs'; set_solver|].
    split.
    { exists tr1, tr2. split; [|by apply forallb_no_dir_app].
      subst w'. unfold record. cbn [trace set_trace].
      rewrite Htrace, <- !app_assoc. cbn. by rewrite <- app_assoc. }
    split; [done|].
    exists w1, w2, w3, inner. split; [done|].
    split; [rewrite Hd1; set_solver|]. split; [done|].
    split; [rewrite Hd2, Hd1; set_solver|]. split; [done|].
    revert Hrun. rewrite run_unfold, Hsteps.
    destruct inner as [[[st served] duration]|e]; cbn.
    + intros [= <- _ <-]. split; [by eexists|done].
    + by intros [= <- _ <-].
  - intros Hin out r' w'. rewrite run_unfold.
    destruct (unpack_and_serve_in_use env wait_for_callback (scheduled r w).2)
      as [e ->]; [by rewrite Hd|].
    intros [= <- _ <-]. split; [by eexists|]. cbn. by rewrite Hd, Ht.
  - intros p out r' w' Hrun.
    destruct (run_world env testcase (Some p) coverage wait_for_callback r w)
      as (tr2 & Hw & Htr2).
    rewrite Hrun in Hw. cbn [fst snd] in Hw. subst w'.
    destruct (unpack_and_serve_given env p wait_for_callback (scheduled r w).2)
      as (Hdirs & tr1 & Htrace & Htr1).
    rewrite Hd in Hdirs. rewrite Ht in Htrace.
    unfold record. cbn [dirs trace set_trace]. split; [done|].
    exists (tr1 ++ tr2). split; [|by apply forallb_no_dir_app].
    rewrite Htrace. by rewrite <- !app_assoc.
Qed.

End Scratch.

Lemma run_scratch_directory_witness :
  exists r' w',
    Runner.run serving_fails sample_test None false false (runner0, world0)
    = (Raise ExternalError, (r', w'))
    /\ (scratch_dir serving_fails ∉ dirs w')
    /\ dirs w' = dirs world0 ∪ {[ serve_root ]}.
Proof.
  destruct (Runner.run serving_fails sample_test None false false
                       (runner0, world0)) as [out [r' w']] eqn:Hrun.
  destruct (run_scratch_directory serving_fails sample_test false false
                                  runner0 world0) as [Hnone _].
  destruct (Hnone ltac:(set_solver) out r' w' Hrun) as (Hgone & _ & Hdirs & _).
  exists r', w'. split; [|split; [exact Hgone|exact Hdirs]].
  assert (out = Raise ExternalError) as ->; [|done].
  apply (f_equal fst) in Hrun. vm_compute in Hrun. done.
Defined.

(** ** Reasoning about sequences of statements *)

Section Hoare.

Context {St : Type}.

Lemma hoare_weaken {A} (P P' : St -> Prop) (Q Q' : res A -> St -> Prop)
    (m : M St A) :
  hoare P m Q -> (forall s, P' s -> P s) -> (forall r s, Q r s -> Q' r s) ->
  hoare P' m Q'.
Proof. unfold hoare. auto. Qed.

Lemma hoare_ret {A} (P : St -> Prop) (Q : res A -> St -> Prop) (a : A) :
  (forall s, P s -> Q (Ok a) s) -> hoare P (ret a) Q.
Proof. unfold hoare. auto. Qed.

Lemma hoare_raise {A} (P : St -> Prop) (Q : res A -> St -> Prop) (e : exn) :
  (forall s, P s -> Q (Raise e) s) -> hoare P (raise e) Q.
Proof. unfold hoare. auto. Qed.

Lemma hoare_bind {A B} (P : St -> Prop) (R : A -> St -> Prop)
    (Q : res B -> St -> Prop) (m : M St A) (k : A -> M St B) :
  hoare P m (fun r s => match r with
                        | Ok a => R a s
                        | Raise e => Q (Raise e) s
                        end) ->
  (forall a, hoare (R a) (k a) Q) ->
  hoare P (bind m k) Q.
Proof.
  unfold hoare, bind. intros Hm Hk s HP. specialize (Hm s HP).
  destruct (m s) as [[a|e] s1]; cbn in *; [by apply Hk|done].
Qed.

Lemma keeps_ret {A X} (f : St -> X) (a : A) : keeps f (ret a).
Proof. done. Qed.

Lemma keeps_raise {A X} (f : St -> X) (e : exn) : keeps f (@raise St A e).
Proof. done. Qed.

Lemma keeps_bind {A B X} (f : St -> X) (m : M St A) (k : A -> M St B) :
  keeps f m -> (forall a, keeps f (k a)) -> keeps f (bind m k).
Proof.
  unfold keeps, bind. intros Hm Hk s. specialize (Hm s).
  destruct (m s) as [[a|e] s1]; cbn in *; [|done].
  by rewrite Hk.
Qed.

Lemma keeps_modify {X} (f : St -> X) (g : St -> St) :
  (forall s, f (g s) = f s) -> keeps f (modify g).
Proof. unfold keeps, modify. auto. Qed.

(** A statement that keeps [f] keeps the assertion [f s = v]. *)
Lemma hoare_bind_keeps {A B X} (f : St -> X) (v : X)
    (Q : res B -> St -> Prop) (m : M St A) (k : A -> M St B) :
  keeps f m ->
  (forall e s, f s = v -> Q (Raise e) s) ->
  (forall a, hoare (fun s => f s = v) (k a) Q) ->
  hoare (fun s => f s = v) (bind m k) Q.
Proof.
  intros Hm HQ Hk. apply hoare_bind with (R := fun _ s => f s = v); [|done].
  intros s Hs. specialize (Hm s).
  destruct (m s) as [[a|e] s1]; cbn in *; [congruence|].
  apply HQ. congruence.
Qed.

End Hoare.

(** Statements on an object and the world. *)
Section KeepsObject.

Context {T X : Type} (f : T * World -> X).

Lemma keeps_io {A} (m : M World A) :
  (forall x w w', f (x, w') = f (x, w)) -> keeps f (@io T A m).
Proof.
  unfold keeps, io, zoom. intros Hf [x w]. cbn.
  destruct (m w) as [r w1]. cbn. apply Hf.
Qed.

Lemma keeps_update (g : T -> T) :
  (forall x w, f (g x, w) = f (x, w)) -> keeps f (update g).
Proof. unfold keeps, update, modify. intros Hf [x w]. cbn. apply Hf. Qed.

Lemma keeps_self {B} (k : T -> M (T * World) B) :
  (forall x, keeps f (k x)) -> keeps f (bind self k).
Proof. intros Hk. apply keeps_bind; [done|]. apply Hk. Qed.

End KeepsObject.

Section KeepsSession.

Import Session.

Context {X : Type} (f : Session.St -> X).

Lemma keeps_on_runner {A} (m : M Runner.St A) :
  (forall x r w w', f (set_runner r x, w') = f (x, w)) ->
  keeps f (on_runner m).
Proof.
  unfold keeps, on_runner, zoom. intros Hf [x w]. cbn.
  destruct (m (runner x, w)) as [r [r1 w1]]. cbn. apply Hf.
Qed.

Lemma keeps_on_limiter {A} (m : M LogOutputLimiter.St A) :
  (forall x l w w', f (set_log_limiter l x, w') = f (x, w)) ->
  keeps f (on_limiter m).
Proof.
  unfold keeps, on_limiter, zoom. intros Hf [x w]. cbn.
  destruct (m (log_limiter x, w)) as [r [l1 w1]]. cbn. apply Hf.
Qed.

End KeepsSession.

(** Proving [keeps f m] along the structure of [m]. *)
Ltac keeps_step :=
  first
    [ apply keeps_ret
    | apply keeps_raise
    | apply keeps_io; done
    | apply keeps_update; done
    | apply keeps_on_runner; done
    | apply keeps_on_limiter; done
    | apply keeps_self; intros
    | apply keeps_bind; [|intros]
    | match goal with
      | |- keeps _ (if ?b then _ else _) => destruct b
      | |- keeps _ (match ?x with _ => _ end) => destruct x
      end ].
Ltac keeps_auto := repeat keeps_step.

(** ** The iteration limit of [Session.run] *)

Section IterationLimit.

Import Session.

Lemma report_result_keeps_iteration (env : IterEnv) :
  keeps iteration_of (report_result env).
Proof. unfold report_result. keeps_auto. Qed.

Lemma relaunch_keeps_iteration (env : IterEnv) :
  keeps iteration_of (relaunch env).
Proof. unfold relaunch. keeps_auto. Qed.

Lemma generate_testcase_keeps_iteration (env : IterEnv) :
  keeps iteration_of (generate_testcase env).
Proof. unfold generate_testcase. keeps_auto. Qed.

Lemma display_status_keeps_iteration (env : IterEnv) :
  keeps iteration_of (display_status env).
Proof. unfold display_status. keeps_auto. Qed.

Lemma adapter_callbacks_keeps_iteration (result : RunResult.t) :
  keeps iteration_of (adapter_callbacks result).
Proof. unfold adapter_callbacks. keeps_auto. Qed.

Lemma update_test_case_keeps_iteration (env : IterEnv) (result : RunResult.t) :
  keeps iteration_of (update_test_case env result).
Proof. unfold update_test_case. keeps_auto. Qed.

Lemma process_results_keeps_iteration (env : IterEnv) (result : RunResult.t) :
  keeps iteration_of (process_results env result).
Proof. unfold process_results. keeps_auto. Qed.

(** The limit test of the body: it breaks on the limit only when the
    counter equals the limit. *)
Lemma stop_conditions_limit (iteration_limit : option Z) (env : IterEnv)
    (n : Z) :
  hoare (fun s => iteration_of s = n)
        (stop_conditions iteration_limit env)
        (fun r s => iteration_of s = n
                    /\ (r = Ok (Break HitIterationLimit) ->
                        iteration_limit = Some n)).
Proof.
  intros [x w] Hn. unfold iteration_of in Hn. cbn in Hn.
  unfold stop_conditions. mrun.
  destruct (match remaining env with Some k => k <? 1 | None => false end);
    mrun; [by split|].
  destruct iteration_limit as [limit|]; mrun.
  - destruct (Z.eqb_spec (iteration (status x)) limit) as [Heq|Hne]; mrun.
    + split; [done|]. intros _. congruence.
    + destruct (target_log_size env >? TARGET_LOG_SIZE_WARN); by mrun.
  - destruct (target_log_size env >? TARGET_LOG_SIZE_WARN); by mrun.
Qed.

Lemma body_counts (iteration_limit : option Z) (env : IterEnv) (n : Z) :
  hoare (fun s => iteration_of s = n)
        (body iteration_limit env)
        (counted iteration_limit n).
Proof.
  unfold body.
  apply hoare_bind_keeps; [by keeps_auto|done|intros _].
  apply hoare_bind with (R := fun _ s => iteration_of s = n + 1).
  { intros [x w] Hn. unfold iteration_of in *. cbn in *. lia. }
  intros _.
  apply hoare_bind_keeps; [apply relaunch_keeps_iteration|done|intros _].
  apply hoare_bind_keeps; [by keeps_auto|done|intros _].
  apply hoare_bind_keeps;
    [apply generate_testcase_keeps_iteration|done|intros current_test].
  apply hoare_bind_keeps;
    [apply display_status_keeps_iteration|done|intros _].
  apply hoare_bind_keeps; [done|done|intros s0].
  apply hoare_bind_keeps; [by keeps_auto|done|intros result].
  apply hoare_bind_keeps;
    [apply adapter_callbacks_keeps_iteration|done|intros _].
  apply hoare_bind_keeps;
    [apply update_test_case_keeps_iteration|done|intros _].
  apply hoare_bind_keeps;
    [apply process_results_keeps_iteration|done|intros _].
  apply hoare_bind_keeps; [by keeps_auto|done|intros _].
  eapply hoare_weaken;
    [apply (stop_conditions_limit iteration_limit env (n + 1))|by intros|].
  intros [c|e] s [Hn Hc]; [|done]. split; [done|].
  intros ->. by apply Hc.
Qed.

Lemma loop_cons (iteration_limit : option Z) (env : IterEnv)
    (envs : list IterEnv) (s : Session.St) :
  loop iteration_limit (env :: envs) s
  = match body iteration_limit env s with
    | (Ok Next, s1) => loop iteration_limit envs s1
    | (Ok (Break why), s1) => (Ok (Stopped why), s1)
    | (Raise e, s1) => (Raise e, s1)
    end.
Proof.
  cbn [loop]. unfold bind.
  by destruct (body iteration_limit env s) as [[[|why]|e] s1].
Qed.

(** C10.  The loop stops on the iteration limit only in an iteration
    whose incremented counter equals the limit: when it stops so, the
    counter is the limit and was below it when the loop was entered.
    Hence a limit at or below the counter's value on entry (a limit of 0
    with the counter at 0, say) never stops the loop, however long it
    runs. *)
Theorem iteration_limit_is_equality_test (limit : Z) (envs : list IterEnv)
    (s : Session.St) :
  ((loop (Some limit) envs s).1 = Ok (Stopped HitIterationLimit) ->
   iteration_of (loop (Some limit) envs s).2 = limit
   /\ iteration_of s < limit)
  /\ (limit <= iteration_of s ->
      (loop (Some limit) envs s).1 <> Ok (Stopped HitIterationLimit)).
Proof.
  assert ((loop (Some limit) envs s).1 = Ok (Stopped HitIterationLimit) ->
          iteration_of (loop (Some limit) envs s).2 = limit
          /\ iteration_of s < limit) as Hstop.
  { revert s. induction envs as [|env envs IH]; intros s; [done|].
    rewrite loop_cons.
    pose proof (body_counts (Some limit) env (iteration_of s) s eq_refl)
      as Hbody.
    destruct (body (Some limit) env s) as [[[|why]|e] s1]; cbn in *.
    - destruct Hbody as [Hn _].
      intros Hout. destruct (IH s1 Hout) as [? ?]. split; [done|lia].
    - destruct Hbody as [Hn Hbreak].
      intros [= ->]. specialize (Hbreak eq_refl) as [= Hlimit].
      split; lia.
    - done. }
  split; [done|]. intros Hle Hout. apply Hstop in Hout. lia.
Qed.

End IterationLimit.

(** With the counter at 0, a limit of 0 never stops the loop, while a
    limit of 2 stops it in the second iteration. *)
Lemma iteration_limit_is_equality_test_witness :
  (Session.loop (Some 0) three_iterations session0).1 = Ok Session.Running
  /\ iteration_of (Session.loop (Some 0) three_iterations session0).2 = 3
  /\ (Session.loop (Some 0) three_iterations session0).1
     <> Ok (Session.Stopped Session.HitIterationLimit)
  /\ (Session.loop (Some 2) three_iterations session0).1
     = Ok (Session.Stopped Session.HitIterationLimit)
  /\ iteration_of (Session.loop (Some 2) three_iterations session0).2 = 2.
Proof.
  split; [vm_compute; reflexivity|]. split; [vm_compute; reflexivity|].
  split.
  - apply (iteration_limit_is_equality_test 0 three_iterations session0).
    vm_compute. discriminate.
  - assert ((Session.loop (Some 2) three_iterations session0).1
            = Ok (Session.Stopped Session.HitIterationLimit)) as Hstop
      by (vm_compute; reflexivity).
    split; [exact Hstop|].
    apply (iteration_limit_is_equality_test 2 three_iterations session0).
    exact Hstop.
Defined.

(** ** A delivery that is not attempted, in the loop of [Session.run] *)

Section Unattempted.

Import Session.

Lemma bind_assoc {St A B C} (m : M St A) (k : A -> M St B) (h : B -> M St C)
    (s : St) :
  bind (bind m k) h s = bind m (fun a => bind (k a) h) s.
Proof. unfold bind. by destruct (m s) as [[a|e] s1]. Qed.

Lemma bind_ext {St A B} (m : M St A) (k k' : A -> M St B) (s : St) :
  (forall a s1, k a s1 = k' a s1) -> bind m k s = bind m k' s.
Proof. intros Hk. unfold bind. by destruct (m s) as [[a|e] s1]. Qed.

Lemma bind_ok_inv {St A B} (m : M St A) (k : A -> M St B) (s s2 : St) (b : B) :
  bind m k s = (Ok b, s2) ->
  exists a s1, m s = (Ok a, s1) /\ k a s1 = (Ok b, s2).
Proof.
  unfold bind. destruct (m s) as [[a|e] s1]; [|done]. intros ?. by exists a, s1.
Qed.

Lemma bind_ok {St A B} (m : M St A) (k : A -> M St B) (s s1 : St) (a : A) :
  m s = (Ok a, s1) -> bind m k s = k a s1.
Proof. unfold bind. by intros ->. Qed.

Lemma bind_raise {St A B} (m : M St A) (k : A -> M St B) (s s1 : St)
    (e : exn) :
  m s = (Raise e, s1) -> bind m k s = (Raise e, s1).
Proof. unfold bind. by intros ->. Qed.

Lemma body_split (iteration_limit : option Z) (env : IterEnv)
    (s : Session.St) :
  body iteration_limit env s
  = bind (deliver env)
         (fun result =>
            adapter_callbacks result >>
            update_test_case env result >>
            finish iteration_limit env result) s.
Proof.
  unfold body, deliver, finish. symmetry.
  do 6 (rewrite bind_assoc; apply bind_ext; intros ? ?).
  rewrite bind_assoc. apply bind_ext. intros ? ?. reflexivity.
Qed.

Lemma relaunch_counter (env : IterEnv) (s s1 : Session.St) :
  relaunch env s = (Ok tt, s1) ->
  counter s1 = if target_closed env then 0 else counter s.
Proof.
  unfold relaunch. destruct (target_closed env); [|by intros [= <-]].
  intros H.
  apply bind_ok_inv in H as ([] & sa & Ha & H).
  apply bind_ok_inv in H as ([] & sb & Hb & H).
  apply bind_ok_inv in H as (location & sc & Hc & H).
  unfold on_runner, zoom in H.
  destruct (Runner.launch (launch_script env) location 3 0 (runner sc.1, sc.2))
    as [[[]|e] [r1 w1]] eqn:Hlaunch; [|done].
  injection H as <-. apply launch_resets in Hlaunch. done.
Qed.

Lemma run_counter (run_env : RunEnv) (testcase : TestCase)
    (coverage : bool) (s s1 : Session.St) (result : RunResult.t) :
  on_runner (Runner.run run_env testcase None coverage false) s
  = (Ok result, s1) ->
  RunResult.initial result = (counter s =? 0)
  /\ counter s1 = (if RunResult.attempted result
                   then counter s + 1 else counter s).
Proof.
  unfold on_runner, zoom.
  destruct (Runner.run run_env testcase None coverage false (runner s.1, s.2))
    as [[res|e] [r1 w1]] eqn:Hrun; [|done].
  intros [= <- <-].
  apply run_returns in Hrun as (st & served & duration & _ & -> & Hr1).
  done.
Qed.

Lemma deliver_counter (env : IterEnv) (s s2 : Session.St)
    (result : RunResult.t) :
  deliver env s = (Ok result, s2) ->
  let launched := if target_closed env then 0 else counter s in
  RunResult.initial result = (launched =? 0)
  /\ counter s2 = (if RunResult.attempted result
                   then launched + 1 else launched)
  /\ iteration_of s2 = iteration_of s + 1.
Proof.
  unfold deliver. intros H.
  apply bind_ok_inv in H as ([] & sa & Ha & H).
  apply bind_ok_inv in H as ([] & sb & Hb & H).
  apply bind_ok_inv in H as ([] & sc & Hc & H).
  apply bind_ok_inv in H as ([] & sd & Hd & H).
  apply bind_ok_inv in H as (current_test & se & He & H).
  apply bind_ok_inv in H as ([] & sf & Hf & H).
  apply bind_ok_inv in H as (x & sg & Hg & H).
  injection Hg as <- <-.
  pose proof (run_counter _ _ _ _ _ _ H) as [Hinit Hcount].
  pose proof (relaunch_counter _ _ _ Hc) as Hcc.
  assert (counter sb = counter s /\ iteration_of sb = iteration_of s + 1)
    as [Hsb Hib].
  { destruct s as [x w]. injection Ha as <-. injection Hb as <-. done. }
  assert (counter sf = counter sc /\ iteration_of sf = iteration_of sc)
    as [Hsf Hif].
  { assert (keeps counter (io (T := Session.t) (emit EvTargetStep)))
      as K1 by keeps_auto.
    assert (keeps counter (generate_testcase env))
      as K2 by (unfold generate_testcase; keeps_auto).
    assert (keeps counter (display_status env))
      as K3 by (unfold display_status; keeps_auto).
    assert (keeps iteration_of (io (T := Session.t) (emit EvTargetStep)))
      as K4 by keeps_auto.
    specialize (K1 sc). specialize (K2 sd). specialize (K3 se).
    specialize (K4 sc).
    pose proof (generate_testcase_keeps_iteration env sd) as K5.
    pose proof (display_status_keeps_iteration env se) as K6.
    rewrite Hd in K1, K4. rewrite He in K2, K5. rewrite Hf in K3, K6.
    cbn in *. split; congruence. }
  assert (iteration_of sc = iteration_of sb) as Hic.
  { pose proof (relaunch_keeps_iteration env sb) as K. by rewrite Hc in K. }
  assert (iteration_of s2 = iteration_of sf) as Hi2.
  { assert (keeps iteration_of
              (on_runner (Runner.run (run_env env) current_test None
                                     (coverage sf.1) false)))
      as K by keeps_auto.
    specialize (K sf). by rewrite H in K. }
  cbn. rewrite Hinit, Hcount, Hsf, Hcc, Hsb. split; [done|]. split; [done|lia].
Qed.

Lemma error_dir_not_root (env : IterEnv) : error_dir env <> logs_root.
Proof. unfold error_dir, logs_root. cbn. discriminate. Qed.

Lemma adapter_callbacks_runs (result : RunResult.t) (s : Session.St) :
  adapter_callbacks result s
  = (Ok tt, (s.1, record (callback_events result) s.2)).
Proof.
  unfold adapter_callbacks, callback_events. destruct s as [x w].
  destruct (RunResult.timeout result); mrun;
    unfold record, set_trace; cbn; by rewrite <- app_assoc.
Qed.

(** Not attempted and initial: the logs are saved to a directory that did
    not exist, and [SessionError] is raised. *)
Lemma update_test_case_fatal (env : IterEnv) (result : RunResult.t)
    (s : Session.St) :
  RunResult.attempted result = false ->
  RunResult.initial result = true ->
  (error_dir env ∉ dirs s.2) ->
  exists w1,
    update_test_case env result s = (Raise SessionError, (s.1, w1))
    /\ dirs w1 = dirs s.2 ∪ {[ logs_root ]} ∪ {[ error_dir env ]}
    /\ trace w1
       = trace s.2 ++ not_served_events env
         ++ [EvMkdtemp (error_dir env); EvSaveLogs (error_dir env);
             EvLog ERROR "ERROR: Test case was not served. Timeout too short?";
             EvLog ERROR "Logs can be found here %r"].
Proof.
  intros Ha Hi Hfresh. destruct s as [x w]. cbn in Hfresh.
  assert (error_dir env ∉ dirs w ∪ {[ logs_root ]}) as Hfresh'.
  { pose proof (error_dir_not_root env). set_solver. }
  unfold update_test_case, not_served_events, grz_tmp, mkdtemp.
  rewrite Ha, Hi. mrun.
  change ("/tmp/grizzly/logs/error_" +:+ err_suffix env)
    with (error_dir env) in *.
  change "/tmp/grizzly/logs" with logs_root in *.
  destruct (contains_landing_page env); mrun;
    rewrite bool_decide_eq_false_2 by done; mrun;
    (eexists; split; [reflexivity|]); cbn;
    (split; [done|]); by rewrite <- !app_assoc.
Qed.

(** Not attempted and not initial: the condition is logged and the block
    ends normally, the session untouched. *)
Lemma update_test_case_logged (env : IterEnv) (result : RunResult.t)
    (s : Session.St) :
  RunResult.attempted result = false ->
  RunResult.initial result = false ->
  update_test_case env result s
  = (Ok tt, (s.1, record (not_served_events env) s.2)).
Proof.
  intros Ha Hi. destruct s as [x w].
  unfold update_test_case, not_served_events. rewrite Ha, Hi. mrun.
  destruct (contains_landing_page env); mrun;
    unfold record, set_trace; cbn; by rewrite <- ?app_assoc.
Qed.

(** The block ends normally only for an attempted delivery or one that
    is not initial. *)
Lemma update_test_case_ok_inv (env : IterEnv) (result : RunResult.t)
    (s s1 : Session.St) :
  update_test_case env result s = (Ok tt, s1) ->
  RunResult.attempted result = true \/ RunResult.initial result = false.
Proof.
  destruct (RunResult.attempted result) eqn:Ha; [by left|].
  destruct (RunResult.initial result) eqn:Hi; [|by right].
  unfold update_test_case, grz_tmp, mkdtemp. rewrite Ha, Hi. mrun.
  destruct (contains_landing_page env); mrun;
    case_bool_decide; mrun; discriminate.
Qed.

Lemma adapter_callbacks_keeps_counter (result : RunResult.t) :
  keeps counter (adapter_callbacks result).
Proof. unfold adapter_callbacks. keeps_auto. Qed.

Lemma update_test_case_keeps_counter (env : IterEnv) (result : RunResult.t) :
  keeps counter (update_test_case env result).
Proof. unfold update_test_case. keeps_auto. Qed.

Lemma finish_keeps_counter (iteration_limit : option Z) (env : IterEnv)
    (result : RunResult.t) :
  keeps counter (finish iteration_limit env result).
Proof.
  unfold finish, process_results, report_result, stop_conditions.
  keeps_auto.
Qed.

(** An iteration that ends without an exception leaves a positive
    per-launch counter behind. *)
Lemma body_counter (iteration_limit : option Z) (env : IterEnv)
    (s s3 : Session.St) (c : ctl) :
  0 <= counter s ->
  body iteration_limit env s = (Ok c, s3) ->
  1 <= counter s3.
Proof.
  intros Hpos. rewrite body_split. intros H.
  apply bind_ok_inv in H as (result & s2 & Hdeliver & H).
  apply bind_ok_inv in H as ([] & sa & Ha & H).
  apply bind_ok_inv in H as ([] & sb & Hb & H).
  apply deliver_counter in Hdeliver as (Hinit & Hcount & _). cbn in *.
  pose proof (adapter_callbacks_keeps_counter result s2) as K1.
  pose proof (update_test_case_keeps_counter env result sa) as K2.
  pose proof (finish_keeps_counter iteration_limit env result sb) as K3.
  rewrite Ha in K1. rewrite Hb in K2. rewrite H in K3. cbn in *.
  apply update_test_case_ok_inv in Hb.
  assert (counter s3 = counter s2) as -> by congruence.
  rewrite Hcount.
  destruct (RunResult.attempted result); [destruct (target_closed env); lia|].
  destruct Hb as [?|Hb]; [done|]. rewrite Hb in Hinit.
  symmetry in Hinit. apply Z.eqb_neq in Hinit.
  destruct (target_closed env); lia.
Qed.

Lemma loop_app (iteration_limit : option Z) (pre envs : list IterEnv)
    (s0 s : Session.St) :
  loop iteration_limit pre s0 = (Ok Running, s) ->
  loop iteration_limit (pre ++ envs) s0 = loop iteration_limit envs s.
Proof.
  revert s0. induction pre as [|env pre IH]; intros s0.
  - by intros [= ->].
  - cbn [app]. rewrite !loop_cons.
    destruct (body iteration_limit env s0) as [[[|why]|e] s1]; [|done..].
    apply IH.
Qed.

(** At the start of every iteration but the first, the counter is
    positive. *)
Lemma loop_counter (iteration_limit : option Z) (pre : list IterEnv)
    (s0 s : Session.St) :
  0 <= counter s0 ->
  loop iteration_limit pre s0 = (Ok Running, s) ->
  0 <= counter s /\ (pre <> [] -> 1 <= counter s).
Proof.
  revert s0. induction pre as [|env pre IH]; intros s0 Hpos.
  - intros [= ->]. by split.
  - rewrite loop_cons.
    destruct (body iteration_limit env s0) as [[[|why]|e] s1] eqn:Hbody;
      [|done..].
    apply body_counter in Hbody; [|done]. intros Hloop.
    destruct pre as [|env' pre].
    + injection Hloop as <-. split; [lia|]. intros _. done.
    + destruct (IH s1 ltac:(lia) Hloop) as [? Hone]. split; [done|].
      intros _. by apply Hone.
Qed.

(** The prologue of [run] makes a runner that has counted nothing, and
    [run] is the loop started from there. *)
Lemma start_new_runner (coverage : bool) (status0 : Status) (display_mode : Z)
    (w : World) :
  exists x w1,
    start coverage status0 display_mode w = (Ok x, w1)
    /\ counter (x, w1) = 0
    /\ status x = status0
    /\ dirs w1 = dirs w.
Proof.
  unfold start, LogOutputLimiter.init, Runner.init. mrun.
  eexists _, _. split; [reflexivity|]. done.
Qed.

Lemma run_is_loop (coverage : bool) (status0 : Status)
    (iteration_limit : option Z) (display_mode : Z) (envs : list IterEnv)
    (w w1 : World) (x : Session.t) :
  start coverage status0 display_mode w = (Ok x, w1) ->
  Session.run coverage status0 iteration_limit display_mode envs w
  = (Ok ((loop iteration_limit envs (x, w1)).1,
         (loop iteration_limit envs (x, w1)).2.1),
     (loop iteration_limit envs (x, w1)).2.2).
Proof.
  intros Hstart. unfold Session.run. rewrite (bind_ok _ _ _ _ _ Hstart).
  by destruct (loop iteration_limit envs (x, w1)) as [out [x1 w2]].
Qed.

(** The rest of the body raises no [SessionError]. *)
Lemma finish_no_session_error (iteration_limit : option Z) (env : IterEnv)
    (result : RunResult.t) (s : Session.St) :
  (finish iteration_limit env result s).1 <> Raise SessionError.
Proof.
  destruct s as [x w].
  unfold finish, process_results, report_result, stop_conditions,
    grz_tmp, mkdtemp, rmtree.
  mrun. repeat (case_match; mrun); simplify_eq; discriminate.
Qed.

(** C4.  In the loop of [Session.run], started with a new runner, let the
    iterations of [pre] have run and let the delivery of the next
    iteration return a result that is not attempted.  The delivery is the
    first since the target launched when the iteration is the first of
    the session or relaunched the target.  If it is, the session saves
    the target logs to a directory that did not exist (the name that
    [mkdtemp] picks being unused) and raises [SessionError]; the loop ends there, at the iteration counter of this
    iteration, whatever the script holds next.  If it is not, the session
    logs the condition and goes on with the rest of the body, which raises
    no [SessionError]: results are processed, the stop conditions are
    tested, and the next iteration follows unless one of them breaks. *)
Theorem unattempted_delivery_in_session
    (iteration_limit : option Z) (pre : list IterEnv) (env : IterEnv)
    (rest : list IterEnv) (s0 s s2 : Session.St) (result : RunResult.t) :
  counter s0 = 0 ->
  loop iteration_limit pre s0 = (Ok Running, s) ->
  deliver env s = (Ok result, s2) ->
  RunResult.attempted result = false ->
  let first := pre = [] \/ target_closed env = true in
  (first ->
   (error_dir env ∉ dirs s2.2) ->
   exists w3,
     loop iteration_limit (pre ++ env :: rest) s0
     = (Raise SessionError, (s2.1, w3))
     /\ iteration_of (s2.1, w3) = iteration_of s + 1
     /\ (error_dir env ∈ dirs w3)
     /\ trace w3
        = trace s2.2 ++ callback_events result ++ not_served_events env
          ++ [EvMkdtemp (error_dir env); EvSaveLogs (error_dir env);
              EvLog ERROR "ERROR: Test case was not served. Timeout too short?";
              EvLog ERROR "Logs can be found here %r"])
  /\ (~ first ->
      let s3 := (s2.1, record (callback_events result ++ not_served_events env)
                              s2.2) in
      (finish iteration_limit env result s3).1 <> Raise SessionError
      /\ loop iteration_limit (pre ++ env :: rest) s0
         = match finish iteration_limit env result s3 with
           | (Ok Next, s4) => loop iteration_limit rest s4
           | (Ok (Break why), s4) => (Ok (Stopped why), s4)
           | (Raise e, s4) => (Raise e, s4)
           end).
Proof.
  intros Hnew Hloop Hdeliver Hunattempted first.
  pose proof (deliver_counter env s s2 result Hdeliver) as (Hinit & _ & Hiter).
  cbn in Hinit.
  destruct (loop_counter iteration_limit pre s0 s ltac:(lia) Hloop)
    as [Hpos Hone].
  rewrite (loop_app iteration_limit pre (env :: rest) s0 s Hloop).
  rewrite loop_cons, body_split, (bind_ok _ _ _ _ _ Hdeliver).
  rewrite (bind_ok _ _ _ _ _ (adapter_callbacks_runs result s2)).
  split.
  - intros Hfirst Hfresh.
    assert (RunResult.initial result = true) as Hinitial.
    { rewrite Hinit. destruct Hfirst as [->| ->]; [|done].
      cbn [loop] in Hloop. unfold ret in Hloop.
      injection Hloop as <-. rewrite Hnew. by destruct (target_closed env). }
    destruct (update_test_case_fatal env result
                (s2.1, record (callback_events result) s2.2)
                Hunattempted Hinitial Hfresh) as (w3 & Hfatal & Hdirs & Htrace).
    exists w3. cbn in Hfatal. rewrite (bind_raise _ _ _ _ _ Hfatal).
    split; [done|]. split; [exact Hiter|]. split; [set_solver|].
    rewrite Htrace. cbn. by rewrite <- !app_assoc.
  - intros Hlater s3.
    assert (RunResult.initial result = false) as Hinitial.
    { rewrite Hinit.
      assert (pre <> [] /\ target_closed env = false) as [Hpre ->].
      { split; [by intros ->; apply Hlater; left|].
        destruct (target_closed env); [|done]. exfalso. apply Hlater. by right. }
      apply Z.eqb_neq. specialize (Hone Hpre). lia. }
    split; [apply finish_no_session_error|].
    pose proof (update_test_case_logged env result
                  (s2.1, record (callback_events result) s2.2)
                  Hunattempted Hinitial) as Hlogged.
    cbn [fst snd] in Hlogged. rewrite record_record in Hlogged.
    rewrite (bind_ok _ _ _ _ _ Hlogged). fold s3.
    by destruct (finish iteration_limit env result s3) as [[[|why]|e] s4].
Qed.

End Unattempted.

(** The first iteration of a session serves nothing: the session raises
    [SessionError] in iteration 1 and the iterations scripted after it do
    not run. *)
Lemma unattempted_delivery_in_session_witness :
  exists s3,
    Session.loop None ([] ++ unserved_iteration true :: three_iterations)
                 session0
    = (Raise SessionError, s3)
    /\ iteration_of s3 = 1
    /\ (error_dir (unserved_iteration true) ∈ dirs s3.2).
Proof.
  destruct (deliver (unserved_iteration true) session0)
    as [[result|e] s2] eqn:Hdeliver; [|vm_compute in Hdeliver; discriminate].
  assert (RunResult.attempted result = false) as Hunattempted.
  { apply (f_equal (fun o => match o.1 with
                             | Ok r => RunResult.attempted r
                             | Raise _ => false
                             end)) in Hdeliver.
    vm_compute in Hdeliver. by rewrite Hdeliver. }
  assert (error_dir (unserved_iteration true) ∉ dirs s2.2) as Hfresh.
  { apply (f_equal
             (fun o => bool_decide
                         (error_dir (unserved_iteration true) ∈ dirs o.2.2)))
      in Hdeliver.
    vm_compute in Hdeliver. symmetry in Hdeliver.
    by apply bool_decide_eq_false in Hdeliver. }
  destruct (unattempted_delivery_in_session
              None [] (unserved_iteration true) three_iterations
              session0 session0 s2 result eq_refl eq_refl
              Hdeliver Hunattempted) as [Hfatal _].
  destruct (Hfatal (or_introl eq_refl) Hfresh)
    as (w3 & Hloop & Hiter & Hdir & _).
  exists (s2.1, w3). split; [exact Hloop|]. split; [exact Hiter|exact Hdir].
Defined.

(** * Further properties *)

(** ** Making a [Runner] *)

Section RunnerInit.

Import Runner.

(** X1.  [Runner.__init__] uses an idle checker exactly when
    [idle_threshold] is positive.  With a threshold of 0 or less it makes
    a runner without one, whatever [idle_delay] is, and calls nothing.
    With a positive threshold it needs a positive [idle_delay] and a
    threshold below 100, and fails with an assertion error otherwise; the
    checker it makes polls every second once [idle_delay] has passed and
    has no poll scheduled yet.  The per-launch counter starts at 0. *)
Theorem runner_init_idle_checker (server target : option handle)
    (target_is_idle : Z -> M World bool) (idle_threshold idle_delay : Z)
    (w : World) :
  (idle_threshold <= 0 ->
   init server target target_is_idle idle_threshold idle_delay w
   = (Ok (mk None server target 0), w))
  /\ (0 < idle_threshold < 100 -> 0 < idle_delay ->
      init server target target_is_idle idle_threshold idle_delay w
      = (Ok (mk (Some (IdleChecker.mk target_is_idle idle_delay 1
                                      idle_threshold None))
                server target 0),
         record [EvLog DEBUG "using idle check, th %d, delay %ds"] w))
  /\ (0 < idle_threshold -> idle_delay <= 0 \/ 100 <= idle_threshold ->
      (init server target target_is_idle idle_threshold idle_delay w).1
      = Raise AssertionError).
Proof.
  unfold init. split; [|split].
  - intros Hth. assert ((idle_threshold >? 0) = false) as ->.
    { rewrite Z.gtb_ltb. apply Z.ltb_ge. lia. }
    reflexivity.
  - intros Hth Hd.
    assert ((idle_threshold >? 0) = true) as -> by (apply Z.gtb_lt; lia).
    assert ((idle_delay >? 0) = true) as -> by (apply Z.gtb_lt; lia).
    mrun. rewrite init_ok by lia. reflexivity.
  - intros Hth Hbad.
    assert ((idle_threshold >? 0) = true) as -> by (apply Z.gtb_lt; lia).
    destruct (Z_lt_le_dec 0 idle_delay) as [Hd|Hd].
    + assert ((idle_delay >? 0) = true) as -> by (apply Z.gtb_lt; lia).
      mrun.
      destruct (init_total target_is_idle idle_threshold idle_delay 1)
        as [[c Hc]| ->]; [|reflexivity].
      apply init_inv in Hc as [? _]. lia.
    + assert ((idle_delay >? 0) = false) as ->.
      { rewrite Z.gtb_ltb. apply Z.ltb_ge. lia. }
      reflexivity.
Qed.

End RunnerInit.

Lemma runner_init_idle_checker_witness :
  Runner.init (Some Runner.Handle) (Some Runner.Handle) (recording_cb false)
              0 (-5) world0
  = (Ok runner0, world0)
  /\ (exists r w,
        Runner.init (Some Runner.Handle) (Some Runner.Handle)
                    (recording_cb false) 25 30 world0 = (Ok r, w)
        /\ Runner._tests_run r = 0)
  /\ (Runner.init (Some Runner.Handle) (Some Runner.Handle)
                  (recording_cb false) 25 0 world0).1 = Raise AssertionError
  /\ (Runner.init (Some Runner.Handle) (Some Runner.Handle)
                  (recording_cb false) 100 30 world0).1 = Raise AssertionError.
Proof.
  pose proof (runner_init_idle_checker
                (Some Runner.Handle) (Some Runner.Handle) (recording_cb false))
    as H.
  split; [apply (H 0 (-5) world0); lia|].
  split.
  - destruct (H 25 30 world0) as (_ & Hok & _).
    eexists _, _. split; [apply Hok; lia|reflexivity].
  - split; [apply (H 25 0 world0); lia|apply (H 100 30 world0); lia].
Defined.

(** ** The liveness callback and the polls of [_IdleChecker] *)

Section Liveness.

Import IdleChecker.

(** X2.  A poll (an [is_idle] call at or after the scheduled time) that
    finds the target busy schedules the next poll one poll delay after
    the time of the call: until then [is_idle] returns false and does not
    ask the predicate again, however often it is called. *)
Theorem is_idle_one_poll_per_window (c : t) (w w1 : World) (next_poll : Z) :
  _next_poll c = Some next_poll ->
  next_poll <= now w ->
  _check_cb c (_threshold c) (tick w) = (Ok false, w1) ->
  exists c1,
    is_idle (c, w) = (Ok false, (c1, w1))
    /\ _next_poll c1 = Some (now w + _poll_delay c)
    /\ (forall w2, now w2 < now w + _poll_delay c ->
          is_idle (c1, w2) = (Ok false, (c1, tick w2))).
Proof.
  intros Hn Hle Hcb.
  exists (set_next_poll (Some (now w + _poll_delay c)) c).
  rewrite (is_idle_polls c w next_poll Hn Hle), Hcb.
  split; [done|]. split; [done|].
  intros w2 Hlt. by eapply is_idle_throttled.
Qed.

(** X3.  A poll that finds the target idle returns true and leaves the
    schedule as it was, so the next [is_idle] call asks the predicate
    again at once. *)
Theorem is_idle_true_keeps_schedule (c : t) (w w1 : World) (next_poll : Z) :
  _next_poll c = Some next_poll ->
  next_poll <= now w ->
  _check_cb c (_threshold c) (tick w) = (Ok true, w1) ->
  is_idle (c, w) = (Ok true, (c, w1))
  /\ (forall w2, now w <= now w2 ->
        is_idle (c, w2)
        = match _check_cb c (_threshold c) (tick w2) with
          | (Ok true, w3) => (Ok true, (c, w3))
          | (Ok false, w3) =>
              (Ok false, (set_next_poll (Some (now w2 + _poll_delay c)) c, w3))
          | (Raise e, w3) => (Raise e, (c, w3))
          end).
Proof.
  intros Hn Hle Hcb. split.
  - by rewrite (is_idle_polls c w next_poll Hn Hle), Hcb.
  - intros w2 Hlater. apply (is_idle_polls c w2 next_poll Hn). lia.
Qed.

End Liveness.

Lemma is_idle_one_poll_per_window_witness :
  let c := IdleChecker.mk (recording_cb false) 5 2 10 (Some 5) in
  let at_ (t : Z) := mkWorld (fun _ => t) 0 ∅ [] in
  exists c1 w1,
    IdleChecker.is_idle (c, at_ 6) = (Ok false, (c1, w1))
    /\ IdleChecker._next_poll c1 = Some 8
    /\ IdleChecker.is_idle (c1, at_ 7) = (Ok false, (c1, tick (at_ 7))).
Proof.
  intros c at_.
  destruct (is_idle_one_poll_per_window c (at_ 6)
              (record [EvTargetIsIdle 10] (tick (at_ 6))) 5
              eq_refl ltac:(cbn; lia) eq_refl) as (c1 & H1 & H2 & H3).
  exists c1, (record [EvTargetIsIdle 10] (tick (at_ 6))).
  split; [exact H1|]. split; [exact H2|]. apply H3. cbn. lia.
Defined.

Lemma is_idle_true_keeps_schedule_witness :
  let c := IdleChecker.mk (recording_cb true) 5 2 10 (Some 5) in
  let at_ (t : Z) := mkWorld (fun _ => t) 0 ∅ [] in
  IdleChecker.is_idle (c, at_ 6)
  = (Ok true, (c, record [EvTargetIsIdle 10] (tick (at_ 6)))).
Proof.
  intros c at_.
  destruct (is_idle_true_keeps_schedule c (at_ 6)
              (record [EvTargetIsIdle 10] (tick (at_ 6))) 5
              eq_refl ltac:(cbn; lia) eq_refl) as [H _].
  exact H.
Defined.

Section KeepWaiting.

Import Runner.

Local Arguments IdleChecker.is_idle : simpl never.

Lemma set_idle_same (r : Runner.t) (c : IdleChecker.t) :
  _idle r = Some c -> set_idle (Some c) r = r.
Proof. destruct r. cbn. by intros ->. Qed.

(** X4.  [_keep_waiting] asks the target's monitor only when the idle
    check does not stop the serving.  Without an idle checker, and with
    one whose next poll is not due, it returns what the monitor answers,
    leaves the runner as it is and does not ask the idle predicate.  When
    a due poll finds the target idle it returns false without asking the
    monitor.  With an idle checker that has no poll scheduled (no [run]
    has begun) it fails with an assertion error. *)
Theorem keep_waiting_outcome (healthy : bool) (r : Runner.t) (w : World) :
  (_idle r = None ->
   _keep_waiting healthy (r, w)
   = (Ok healthy, (r, record [EvMonitorIsHealthy] w)))
  /\ (forall c next_poll,
        _idle r = Some c -> IdleChecker._next_poll c = Some next_poll ->
        now w < next_poll ->
        _keep_waiting healthy (r, w)
        = (Ok healthy, (r, record [EvMonitorIsHealthy] (tick w))))
  /\ (forall c next_poll w1,
        _idle r = Some c -> IdleChecker._next_poll c = Some next_poll ->
        next_poll <= now w ->
        IdleChecker._check_cb c (IdleChecker._threshold c) (tick w)
        = (Ok true, w1) ->
        _keep_waiting healthy (r, w)
        = (Ok false, (r, record [EvLog DEBUG "idle target detected"] w1)))
  /\ (forall c,
        _idle r = Some c -> IdleChecker._next_poll c = None ->
        _keep_waiting healthy (r, w) = (Raise AssertionError, (r, w))).
Proof.
  split; [|split; [|split]].
  - intros Hidle. unfold _keep_waiting. mrun. rewrite Hidle. reflexivity.
  - intros c next_poll Hidle Hn Hlt. unfold _keep_waiting. mrun.
    rewrite Hidle. mrun.
    rewrite (is_idle_throttled c w next_poll Hn Hlt). cbn.
    by rewrite (set_idle_same r c Hidle).
  - intros c next_poll w1 Hidle Hn Hle Hcb. unfold _keep_waiting. mrun.
    rewrite Hidle. mrun.
    rewrite (is_idle_polls c w next_poll Hn Hle), Hcb. cbn.
    by rewrite (set_idle_same r c Hidle).
  - intros c Hidle Hn. unfold _keep_waiting. mrun. rewrite Hidle. mrun.
    unfold IdleChecker.is_idle. mrun. rewrite Hn. cbn.
    by rewrite (set_idle_same r c Hidle).
Qed.

End KeepWaiting.

Lemma keep_waiting_outcome_witness :
  let c := IdleChecker.mk (recording_cb true) 5 1 10 (Some 5) in
  let r := Runner.mk (Some c) (Some Runner.Handle) (Some Runner.Handle) 0 in
  let at_ (t : Z) := mkWorld (fun _ => t) 0 ∅ [] in
  Runner._keep_waiting true (r, at_ 3)
  = (Ok true, (r, record [EvMonitorIsHealthy] (tick (at_ 3))))
  /\ Runner._keep_waiting true (r, at_ 6)
     = (Ok false,
        (r, record [EvLog DEBUG "idle target detected"]
                   (record [EvTargetIsIdle 10] (tick (at_ 6))))).
Proof.
  intros c r at_.
  destruct (keep_waiting_outcome true r (at_ 3)) as (_ & Hwait & _).
  destruct (keep_waiting_outcome true r (at_ 6)) as (_ & _ & Hidle & _).
  split.
  - apply (Hwait c 5 eq_refl eq_refl). cbn. lia.
  - apply (Hidle c 5 _ eq_refl eq_refl); [cbn; lia|reflexivity].
Defined.

(** ** Arguments [Runner.location] rejects or normalises *)

Section LocationEdges.

Lemma lstrip_idempotent (c : Ascii.ascii) (s : string) :
  lstrip c (lstrip c s) = lstrip c s.
Proof.
  induction s as [|a rest IH]; [done|]. cbn.
  destruct (Ascii.eqb a c) eqn:Hac; [done|]. cbn. by rewrite Hac.
Qed.

(** X5.  [Runner.location] returns a URL exactly when neither
    [close_after] nor [timeout] is negative; a negative one of them makes
    it fail with an assertion error, whatever the other arguments are. *)
Theorem location_fails_iff_negative (srv_path : string) (srv_port : Z)
    (close_after : option Z) (forced_close : bool) (timeout : option Z) :
  ((exists url,
      Runner.location srv_path srv_port close_after forced_close timeout
      = Ok url)
   <-> non_negative close_after /\ non_negative timeout)
  /\ (~ (non_negative close_after /\ non_negative timeout) ->
      Runner.location srv_path srv_port close_after forced_close timeout
      = Raise AssertionError).
Proof.
  split; [split|].
  - intros [url Hurl].
    assert (Decision (non_negative close_after /\ non_negative timeout)) as Hdec.
    { destruct close_after, timeout; cbn; apply _. }
    destruct Hdec as [?|Hneg]; [done|].
    rewrite location_negative in Hurl by done. discriminate.
  - intros [Hc Ht]. eexists. by apply location_spec_url.
  - apply location_negative.
Qed.

(** X6.  Leading slashes of [srv_path] do not matter: the URL for a path
    is the URL for the path without them, so a path with one more slash
    in front gives the same URL. *)
Theorem location_strips_leading_slashes (srv_path : string) (srv_port : Z)
    (close_after : option Z) (forced_close : bool) (timeout : option Z) :
  Runner.location srv_path srv_port close_after forced_close timeout
  = Runner.location (lstrip "/"%char srv_path) srv_port close_after
                    forced_close timeout
  /\ Runner.location ("/" +:+ srv_path) srv_port close_after forced_close
                     timeout
     = Runner.location srv_path srv_port close_after forced_close timeout.
Proof.
  unfold Runner.location. split.
  - by rewrite lstrip_idempotent.
  - reflexivity.
Qed.

End LocationEdges.

Lemma location_fails_iff_negative_witness :
  Runner.location "/grz_harness" 4000 (Some (-1)) true None
  = Raise AssertionError
  /\ Runner.location "/grz_harness" 4000 None false (Some (-30))
     = Raise AssertionError.
Proof.
  split.
  - apply (location_fails_iff_negative "/grz_harness" 4000 (Some (-1)) true None).
    cbn. lia.
  - apply (location_fails_iff_negative "/grz_harness" 4000 None false
                                       (Some (-30))).
    cbn. lia.
Defined.

(** ** Failures and retries of [Runner.launch] *)

Section LaunchRetries.

Import Runner.

Lemma tally_app (p : Event -> bool) (tr1 tr2 : list Event) :
  tally p (tr1 ++ tr2) = (tally p tr1 + tally p tr2)%nat.
Proof. induction tr1 as [|e tr1 IH]; cbn; [done|]. rewrite IH. lia. Qed.

Lemma countdown_succ (n : nat) :
  reversed (range (Z.of_nat (S n)))
  = Z.of_nat n :: reversed (range (Z.of_nat n)).
Proof.
  unfold reversed, range. rewrite !Nat2Z.id, seq_S, fmap_app, rev_app_distr.
  reflexivity.
Qed.

(** What [launch]'s loop adds to the trace when it runs over
    [n-1, ..., 0]. *)
Lemma launch_loop_retries (location : string) (retry_delay : Z) (n : nat) :
  forall (script : list launch_outcome) (w : World),
  exists tr,
    trace (launch_loop location retry_delay script
                       (reversed (range (Z.of_nat n))) w).2
    = trace w ++ tr
    /\ tally is_sleep tr = pred (tally is_launch tr)
    /\ (tally is_launch tr <= n)%nat
    /\ ((0 < n)%nat -> (1 <= tally is_launch tr)%nat)
    /\ Forall (fun e => is_sleep e = true -> e = EvSleep retry_delay) tr
    /\ match (launch_loop location retry_delay script
                          (reversed (range (Z.of_nat n))) w).1 with
       | Ok _ => True
       | Raise e => tally is_launch tr = n
                    /\ (e = TargetLaunchError \/ e = TargetLaunchTimeout)
       end.
Proof.
  induction n as [|n IH]; intros script w.
  - exists []. cbn. rewrite app_nil_r. repeat split; try done; lia.
  - rewrite countdown_succ. cbn [launch_loop]. unfold target_launch. mrun.
    destruct (hd LaunchOk script); mrun.
    + exists [EvTargetLaunch location]. cbn.
      repeat split; try done; try lia. repeat constructor; done.
    + destruct n as [|n]; mrun.
      * exists [EvTargetLaunch location]. cbn.
        repeat split; try done; try lia; auto. repeat constructor; done.
      * assert ((Z.of_nat (S n) =? 0) = false) as Hnz
          by (apply Z.eqb_neq; lia).
        rewrite Hnz. mrun.
        match goal with
        | |- context [launch_loop ?l ?d ?s ?rs ?w0] =>
            destruct (IH s w0) as (tr & Htr & Hs & Hle & Hpos & Hd & Hout);
            destruct (launch_loop l d s rs w0) as [out w1]
        end.
        specialize (Hpos ltac:(lia)). cbn in Htr, Hout |- *.
        exists ([EvTargetLaunch location;
                 EvLog WARNING "Failure detected during launch (retries %d)";
                 EvReportCleanup; EvSleep retry_delay] ++ tr).
        rewrite Htr, <- !app_assoc. split; [done|].
        rewrite !tally_app. cbn.
        split; [lia|]. split; [lia|]. split; [lia|].
        split; [repeat constructor; done|].
        destruct out as [[]|e]; [done|].
        destruct Hout as [? ?]. split; [lia|done].
    + destruct n as [|n]; mrun.
      * exists [EvTargetLaunch location]. cbn.
        repeat split; try done; try lia; auto. repeat constructor; done.
      * assert ((Z.of_nat (S n) =? 0) = false) as Hnz
          by (apply Z.eqb_neq; lia).
        rewrite Hnz. mrun.
        match goal with
        | |- context [launch_loop ?l ?d ?s ?rs ?w0] =>
            destruct (IH s w0) as (tr & Htr & Hs & Hle & Hpos & Hd & Hout);
            destruct (launch_loop l d s rs w0) as [out w1]
        end.
        specialize (Hpos ltac:(lia)). cbn in Htr, Hout |- *.
        exists ([EvTargetLaunch location;
                 EvLog WARNING "Timeout detected during launch (retries %d)";
                 EvSleep retry_delay] ++ tr).
        rewrite Htr, <- !app_assoc. split; [done|].
        rewrite !tally_app. cbn.
        split; [lia|]. split; [lia|]. split; [lia|].
        split; [repeat constructor; done|].
        destruct out as [[]|e]; [done|].
        destruct Hout as [? ?]. split; [lia|done].
Qed.

End LaunchRetries.

Section LaunchOutcome.

Import Runner.

(** X7.  [launch] sleeps between launch attempts and nowhere else: the
    number of sleeps is the number of [target.launch] calls less one (none
    when the target is not launched at all), each sleep lasts
    [retry_delay], and a launch error reaches the caller only from the
    last of the [max_retries] attempts. *)
Theorem launch_sleeps_between_attempts (n : nat)
    (script : list launch_outcome) (location : string) (retry_delay : Z)
    (r : Runner.t) (w : World) :
  exists tr,
    trace (launch script location (Z.of_nat n) retry_delay (r, w)).2.2
    = trace w ++ tr
    /\ tally is_sleep tr = pred (tally is_launch tr)
    /\ Forall (fun e => is_sleep e = true -> e = EvSleep retry_delay) tr
    /\ (forall e,
          (launch script location (Z.of_nat n) retry_delay (r, w)).1 = Raise e ->
          e <> AssertionError ->
          tally is_launch tr = n
          /\ (e = TargetLaunchError \/ e = TargetLaunchTimeout)).
Proof.
  unfold launch. mrun.
  destruct (bool_decide (is_Some (_server r))); mrun;
    [|exists []; rewrite app_nil_r; repeat split; try done; congruence].
  destruct (bool_decide (is_Some (_target r))); mrun;
    [|exists []; rewrite app_nil_r; repeat split; try done; congruence].
  destruct (Z.of_nat n >=? 0); mrun;
    [|exists []; rewrite app_nil_r; repeat split; try done; congruence].
  destruct (retry_delay >=? 0); mrun;
    [|exists []; rewrite app_nil_r; repeat split; try done; congruence].
  match goal with
  | |- context [launch_loop ?l ?d ?s ?rs ?w0] =>
      destruct (launch_loop_retries l d n s w0)
        as (tr & Htr & Hs & _ & _ & Hd & Hout);
      destruct (launch_loop l d s rs w0) as [out w1]
  end.
  cbn in Htr, Hout.
  exists ([EvClearBacklog; EvLog DEBUG "launching target (timeout %ds)"] ++ tr).
  assert (trace w1 = trace w ++ [EvClearBacklog;
            EvLog DEBUG "launching target (timeout %ds)"] ++ tr) as Htrace.
  { rewrite Htr. by rewrite <- !app_assoc. }
  rewrite tally_app. rewrite (tally_app is_launch). cbn [tally is_sleep is_launch].
  destruct out as [[]|e]; cbn.
  - repeat split; try done. repeat constructor; done.
  - split; [done|]. split; [done|]. split; [repeat constructor; done|].
    intros e' [= <-] _. done.
Qed.

(** X8.  A [launch] call whose arguments break a precondition (no server,
    no target, negative [max_retries] or [retry_delay]) fails with an
    assertion error before it does anything: the backlog is not cleared
    and the target is not touched.  Whenever [launch] fails, the runner
    is as it was, so the per-launch counter is reset only by a launch that
    succeeds. *)
Theorem launch_failure_leaves_runner (script : list launch_outcome)
    (location : string) (max_retries retry_delay : Z)
    (r : Runner.t) (w : World) :
  (_server r = None \/ _target r = None \/ max_retries < 0 \/ retry_delay < 0 ->
   launch script location max_retries retry_delay (r, w)
   = (Raise AssertionError, (r, w)))
  /\ (forall e r' w',
        launch script location max_retries retry_delay (r, w)
        = (Raise e, (r', w')) ->
        r' = r)
  /\ (forall r' w',
        launch script location max_retries retry_delay (r, w)
        = (Ok tt, (r', w')) ->
        r' = set_tests_run 0 r).
Proof.
  unfold launch. mrun. split; [|split].
  - intros Hbad.
    destruct (_server r) as [sv|] eqn:Hsv; cbn; [|done].
    destruct (_target r) as [tg|] eqn:Htg; cbn; [|done].
    destruct (Z_lt_le_dec max_retries 0) as [Hm|Hm];
      [by rewrite geb_false|rewrite geb_true by done; cbn].
    destruct (Z_lt_le_dec retry_delay 0) as [Hd|Hd];
      [by rewrite geb_false|].
    exfalso. destruct Hbad as [?|[?|[?|?]]]; done || lia.
  - intros e r' w'.
    destruct (bool_decide (is_Some (_server r))); mrun; [|congruence].
    destruct (bool_decide (is_Some (_target r))); mrun; [|congruence].
    destruct (max_retries >=? 0); mrun; [|congruence].
    destruct (retry_delay >=? 0); mrun; [|congruence].
    match goal with
    | |- context [launch_loop ?l ?d ?s ?rs ?w0] =>
        destruct (launch_loop l d s rs w0) as [[[]|e1] w1]
    end; cbn; congruence.
  - intros r' w'.
    destruct (bool_decide (is_Some (_server r))); mrun; [|congruence].
    destruct (bool_decide (is_Some (_target r))); mrun; [|congruence].
    destruct (max_retries >=? 0); mrun; [|congruence].
    destruct (retry_delay >=? 0); mrun; [|congruence].
    match goal with
    | |- context [launch_loop ?l ?d ?s ?rs ?w0] =>
        destruct (launch_loop l d s rs w0) as [[[]|e1] w1]
    end; cbn; congruence.
Qed.

End LaunchOutcome.

Lemma launch_sleeps_between_attempts_witness :
  exists tr,
    trace (Runner.launch [LaunchFails; LaunchTimesOut; LaunchOk]
                         "http://127.0.0.1:8080/x" 3 7
                         (runner0, world0)).2.2
    = trace world0 ++ tr
    /\ tally is_launch tr = 3%nat
    /\ tally is_sleep tr = 2%nat.
Proof.
  destruct (launch_sleeps_between_attempts
              3 [LaunchFails; LaunchTimesOut; LaunchOk]
              "http://127.0.0.1:8080/x" 7 runner0 world0)
    as (tr & Htr & Hs & _).
  exists tr. split; [exact Htr|].
  assert (tally is_launch tr = 3%nat) as Hl.
  { assert (tally is_launch
              (trace (Runner.launch [LaunchFails; LaunchTimesOut; LaunchOk]
                                    "http://127.0.0.1:8080/x" (Z.of_nat 3) 7
                                    (runner0, world0)).2.2) = 3%nat) as Hc
      by (vm_compute; reflexivity).
    rewrite Htr in Hc. exact Hc. }
  split; [exact Hl|]. rewrite Hs, Hl. reflexivity.
Defined.

Lemma launch_failure_leaves_runner_witness :
  Runner.launch [] "http://127.0.0.1:8080/x" 3 0
                (Runner.mk None None (Some Runner.Handle) 4, world0)
  = (Raise AssertionError,
     (Runner.mk None None (Some Runner.Handle) 4, world0)).
Proof.
  apply (launch_failure_leaves_runner [] "http://127.0.0.1:8080/x" 3 0
           (Runner.mk None None (Some Runner.Handle) 4) world0).
  by left.
Defined.

(** ** The order of the calls [Runner.run] makes *)

Section RunOrder.

Import Runner.

Lemma unpack_and_serve_events (env : RunEnv) (test_path : option string)
    (wait_for_callback : bool) (w : World) :
  exists tr,
    trace (unpack_and_serve env test_path wait_for_callback w).2
    = trace w ++ tr
    /\ forallb serving_event tr = true
    /\ (forall x, (unpack_and_serve env test_path wait_for_callback w).1 = Ok x ->
                  tally is_serve tr = 1%nat).
Proof.
  unfold unpack_and_serve, serve_path, dump, grz_tmp, mkdtemp, rmtree.
  destruct test_path as [p|]; mrun.
  - destruct (serve_result env) as [[st sv]|]; mrun;
      exists [EvServePath p wait_for_callback]; by repeat split.
  - case_bool_decide; mrun.
    { exists []. rewrite app_nil_r. by repeat split. }
    destruct (dump_raises env); mrun.
    { rewrite bool_decide_eq_true_2 by set_solver. mrun.
      eexists [_; _; _]. rewrite <- !app_assoc. by repeat split. }
    destruct (serve_result env) as [[st sv]|]; mrun;
      rewrite bool_decide_eq_true_2 by set_solver; mrun;
      eexists [_; _; _; _]; rewrite <- !app_assoc; by repeat split.
Qed.

Lemma serving_not_after (tr : list Event) :
  forallb serving_event tr = true ->
  forallb (negb ∘ after_serving) tr = true.
Proof.
  induction tr as [|e tr IH]; [done|]. cbn.
  intros [He Htr]%andb_prop. rewrite (IH Htr), andb_true_r. by destruct e.
Qed.

(** X9.  A [run] call that returns has called [serve_path] exactly once,
    and has made the calls that follow the serving step only once that
    step was over, in this order: [add_batch] for each included URL,
    then [dump_coverage] when (and only when) the delivery was
    attempted, coverage was asked for and serving did not time out, then
    [detect_failure] once, and last of all [target.close] when (and only
    when) the delivery was not attempted.  None of these calls is made
    before the serving step is over.  What else happens during the
    serving step is left open. *)
Theorem run_call_order (env : RunEnv) (testcase : TestCase)
    (test_path : option string) (coverage wait_for_callback : bool)
    (r r' : Runner.t) (w w' : World) (res : RunResult.t) :
  run env testcase test_path coverage wait_for_callback (r, w)
  = (Ok res, (r', w')) ->
  exists serving,
    tally is_serve serving = 1%nat
    /\ forallb (negb ∘ after_serving) serving = true
    /\ trace w'
       = trace w ++ serving
         ++ (EvAddBatch <$> include_urls env)
         ++ (if RunResult.attempted res && coverage
                && negb (RunResult.timeout res)
             then [EvDumpCoverage] else [])
         ++ [EvDetectFailure (RunResult.timeout res)]
         ++ (if RunResult.attempted res then []
             else [EvLog DEBUG "landing page %r not served!"; EvTargetClose]).
Proof.
  rewrite run_unfold.
  destruct (unpack_and_serve_events env test_path wait_for_callback
                                    (scheduled r w).2)
    as (serving & Htrace & Hserving & Hone).
  destruct (unpack_and_serve env test_path wait_for_callback (scheduled r w).2)
    as [[[[st served] duration]|e] w1]; [|done].
  cbn. intros [= <- _ <-]. exists serving.
  split; [by eapply Hone|]. split; [by apply serving_not_after|].
  cbn in Htrace. rewrite (proj2 (scheduled_world r w)) in Htrace.
  unfold record, epilogue. cbn. rewrite Htrace. by rewrite <- !app_assoc.
Qed.

End RunOrder.

Lemma run_call_order_witness :
  exists result s,
    Runner.run served_landing sample_test None true false (runner0, world0)
    = (Ok result, s)
    /\ tally is_coverage (trace s.2) = 1%nat
    /\ tally is_close (trace s.2) = 0%nat.
Proof.
  destruct (Runner.run served_landing sample_test None true false
                       (runner0, world0)) as [[result|e] [r' w']] eqn:Hrun;
    [|vm_compute in Hrun; discriminate].
  exists result, (r', w'). split; [done|].
  destruct (run_call_order _ _ _ _ _ _ _ _ _ _ Hrun) as (serving & _ & _ & _).
  assert ((fun o : res RunResult.t * Runner.St =>
             (tally is_coverage (trace o.2.2), tally is_close (trace o.2.2)))
            (Runner.run served_landing sample_test None true false
                        (runner0, world0)) = (1%nat, 0%nat)) as Hc
    by (vm_compute; reflexivity).
  rewrite Hrun in Hc. cbn [fst snd] in Hc |- *. by injection Hc as -> ->.
Defined.

(** ** The doubling schedule of [LogOutputLimiter] *)

Section Doubling.

Import LogOutputLimiter.

Lemma ready_effect (l : t) (w : World) (cur_iter launches : Z) :
  _verbose l = false ->
  exists b l1 w1,
    ready cur_iter launches (l, w) = (Ok b, (l1, w1))
    /\ _iterations l1 = (if cur_iter >=? _iterations l
                         then _iterations l * _multiplier l
                         else _iterations l)
    /\ _multiplier l1 = _multiplier l
    /\ _verbose l1 = false
    /\ (_iterations l <= cur_iter -> b = true).
Proof.
  intros Hv.
  destruct (Z_lt_le_dec cur_iter (_iterations l)) as [Hi|Hi];
    [destruct (Z_lt_le_dec launches (_launches l)) as [Hl|Hl];
     [destruct (Z_lt_le_dec (now w - _time l) (_delay l)) as [Hd|Hd]|]|].
  - eexists _, _, _. rewrite ready_quiet by done.
    rewrite geb_false by done. repeat split; try done. lia.
  - eexists _, _, _. rewrite ready_delay by done. done.
  - eexists _, _, _. rewrite ready_launches by done. done.
  - eexists _, _, _. rewrite ready_iteration by done. done.
Qed.

Lemma pow2_between (j k : Z) :
  0 <= j -> 0 <= k -> 2 ^ j <= 2 ^ k < 2 * 2 ^ j -> k = j.
Proof.
  intros Hj Hk [Hle Hlt].
  rewrite <- Z.pow_succ_r in Hlt by done.
  apply Z.pow_lt_mono_r_iff in Hlt; [|lia..].
  apply Z.pow_le_mono_r_iff in Hle; lia.
Qed.

(** The threshold stays the power of two that the iteration about to be
    shown has not passed. *)
Lemma ready_each_threshold (launches : list Z) :
  forall (cur_iter k : Z) (l : t) (w : World),
  _verbose l = false -> _multiplier l = 2 ->
  0 <= k -> _iterations l = 2 ^ k ->
  0 < cur_iter -> cur_iter <= 2 ^ k < 2 * cur_iter ->
  let out := ready_each cur_iter launches (l, w) in
  let n := Z.of_nat (length launches) in
  (exists k', 0 <= k' /\ _iterations out.2.1 = 2 ^ k'
              /\ cur_iter + n <= 2 ^ k' < 2 * (cur_iter + n))
  /\ (forall (idx : nat) (j : Z),
        0 <= j -> cur_iter + Z.of_nat idx = 2 ^ j ->
        (idx < length launches)%nat ->
        out.1 !! idx = Some (Ok true)).
Proof.
  induction launches as [|la launches IH];
    intros cur_iter k l w Hv Hm Hk HT Hpos Hbetween.
  - cbn. split; [|intros; lia]. exists k. repeat split; try done; lia.
  - cbn [ready_each length].
    destruct (ready_effect l w cur_iter la Hv)
      as (b & l1 & w1 & Hready & HT1 & Hm1 & Hv1 & Hb).
    rewrite Hready. cbn [fst snd].
    assert (exists k1, 0 <= k1 /\ _iterations l1 = 2 ^ k1
                       /\ cur_iter + 1 <= 2 ^ k1 < 2 * (cur_iter + 1))
      as (k1 & Hk1 & HT1' & Hbetween1).
    { rewrite HT1, HT, Hm.
      destruct (Z_lt_le_dec cur_iter (2 ^ k)) as [Hlt|Hge].
      - rewrite geb_false by done. exists k. repeat split; try done; lia.
      - rewrite geb_true by done. exists (k + 1).
        rewrite Z.pow_add_r by lia. change (2 ^ 1) with 2.
        repeat split; lia. }
    destruct (IH (cur_iter + 1) k1 l1 w1 Hv1 ltac:(congruence) Hk1 HT1'
                 ltac:(lia) Hbetween1) as [(k' & Hk' & HT' & Hb') Htrue].
    split.
    + exists k'. split; [done|]. split; [done|].
      rewrite Nat2Z.inj_succ. lia.
    + intros [|idx] j Hj Hidx Hlen; cbn.
      * f_equal. f_equal. apply Hb. rewrite HT.
        assert (k = j) as -> by (apply pow2_between; try done; lia). lia.
      * apply (Htrue idx j Hj); lia.
Qed.

(** X10.  With the default multiplier of 2 and [ready] called once per
    iteration, for the iterations 1, 2, 3, ...: after the call for
    iteration [n] the iteration threshold is the least power of two above
    [n], and every call for an iteration that is a power of two returned
    true.  Neither the launch counts nor the clock change this. *)
Theorem ready_doubling_schedule (launches : list Z) (l : t) (w : World) :
  _verbose l = false -> _multiplier l = 2 -> _iterations l = 1 ->
  launches <> [] ->
  let out := ready_each 1 launches (l, w) in
  let n := Z.of_nat (length launches) in
  _iterations out.2.1 = 2 ^ (Z.log2 n + 1)
  /\ (forall j, 0 <= j -> 2 ^ j <= n ->
        out.1 !! Z.to_nat (2 ^ j - 1) = Some (Ok true)).
Proof.
  intros Hv Hm HT Hne out n.
  assert (1 <= n) as Hn.
  { subst n. destruct launches; [done|]. cbn [length]. lia. }
  destruct (ready_each_threshold launches 1 0 l w Hv Hm ltac:(lia) HT
              ltac:(lia) ltac:(cbn; lia)) as [(k' & Hk' & HT' & Hb') Htrue].
  fold out n in HT', Hb', Htrue. split.
  - rewrite HT'. f_equal.
    assert (k' <> 0) as Hnz by (intros ->; cbn in Hb'; lia).
    assert (2 ^ k' = 2 * 2 ^ (k' - 1)) as Hpow.
    { rewrite <- Z.pow_succ_r by lia. f_equal. lia. }
    assert (Z.log2 n = k' - 1); [|lia].
    apply Z.log2_unique; [lia|].
    replace (Z.succ (k' - 1)) with k' by lia. lia.
  - intros j Hj Hle. apply (Htrue _ j Hj).
    + assert (0 < 2 ^ j) by (apply Z.pow_pos_nonneg; lia). lia.
    + assert (0 < 2 ^ j) by (apply Z.pow_pos_nonneg; lia). subst n. lia.
Qed.

End Doubling.

Lemma ready_doubling_schedule_witness :
  let out := ready_each 1 [0; 0; 0; 0; 0]
                        (LogOutputLimiter.mk 300 1 1 2 0 false, world0) in
  LogOutputLimiter._iterations out.2.1 = 8
  /\ out.1 !! 3%nat = Some (Ok true).
Proof.
  intros out.
  destruct (ready_doubling_schedule
              [0; 0; 0; 0; 0] (LogOutputLimiter.mk 300 1 1 2 0 false) world0
              eq_refl eq_refl eq_refl ltac:(discriminate)) as [HT Htrue].
  split; [exact HT|]. apply (Htrue 2); cbn; lia.
Defined.

(** ** How an iteration of [Session.run] ends *)

Section BodyEnd.

Import Session.

Lemma stop_conditions_outcome (iteration_limit : option Z) (env : IterEnv)
    (s : Session.St) :
  exists c w1,
    stop_conditions iteration_limit env s = (Ok c, w1)
    /\ iteration_of w1 = iteration_of s
    /\ c = (if replay_done env then Break ReplayComplete
            else if match iteration_limit with
                    | Some limit => iteration_of s =? limit
                    | None => false
                    end
                 then Break HitIterationLimit
                 else Next)
    /\ log_size_of w1 = (match c with
                         | Next => target_log_size env
                         | Break _ => log_size_of s
                         end).
Proof.
  destruct s as [x w]. unfold stop_conditions, replay_done, iteration_of.
  mrun.
  destruct (match remaining env with Some k => k <? 1 | None => false end);
    mrun; [by eexists _, _|].
  destruct (match iteration_limit with
            | Some limit => iteration (status x) =? limit
            | None => false
            end); mrun; [by eexists _, _|].
  destruct (target_log_size env >? TARGET_LOG_SIZE_WARN); mrun;
    by eexists _, _.
Qed.

(** X11.  An iteration that ends without an exception ends in one of
    three ways, tested in this order: it stops the loop as a completed
    replay when the adapter has no test case left, even if the iteration
    limit is reached in the same iteration; else it stops the loop on the
    iteration limit when the counter, one more than before, equals it;
    else the loop goes on.  The log size of the target is recorded only
    when the loop goes on: an iteration that stops the loop leaves the
    recorded size as it was. *)
Theorem body_ending (iteration_limit : option Z) (env : IterEnv)
    (s s1 : Session.St) (c : ctl) :
  body iteration_limit env s = (Ok c, s1) ->
  c = (if replay_done env then Break ReplayComplete
       else if match iteration_limit with
               | Some limit => iteration_of s + 1 =? limit
               | None => false
               end
            then Break HitIterationLimit
            else Next)
  /\ log_size_of s1 = (match c with
                       | Next => target_log_size env
                       | Break _ => log_size_of s
                       end).
Proof.
  set (f := fun s : Session.St => (iteration_of s, log_size_of s)).
  assert (hoare (fun s0 => f s0 = (iteration_of s, log_size_of s))
                (body iteration_limit env)
                (fun r s2 =>
                   match r with
                   | Ok c =>
                       c = (if replay_done env then Break ReplayComplete
                            else if match iteration_limit with
                                    | Some limit => iteration_of s + 1 =? limit
                                    | None => false
                                    end
                                 then Break HitIterationLimit
                                 else Next)
                       /\ log_size_of s2 = (match c with
                                            | Next => target_log_size env
                                            | Break _ => log_size_of s
                                            end)
                   | Raise _ => True
                   end)) as Hbody.
  { unfold body.
    apply hoare_bind_keeps; [by keeps_auto|done|intros _].
    apply hoare_bind
      with (R := fun _ s0 => f s0 = (iteration_of s + 1, log_size_of s)).
    { intros [x w] Hf. unfold f, iteration_of, log_size_of in *. cbn in *.
      by injection Hf as -> ->. }
    intros _.
    apply hoare_bind_keeps; [unfold relaunch; by keeps_auto|done|intros _].
    apply hoare_bind_keeps; [by keeps_auto|done|intros _].
    apply hoare_bind_keeps;
      [unfold generate_testcase; by keeps_auto|done|intros current_test].
    apply hoare_bind_keeps;
      [unfold display_status; by keeps_auto|done|intros _].
    apply hoare_bind_keeps; [done|done|intros s0].
    apply hoare_bind_keeps; [by keeps_auto|done|intros result].
    apply hoare_bind_keeps;
      [unfold adapter_callbacks; by keeps_auto|done|intros _].
    apply hoare_bind_keeps;
      [unfold update_test_case; by keeps_auto|done|intros _].
    apply hoare_bind_keeps;
      [unfold process_results, report_result; by keeps_auto|done|intros _].
    apply hoare_bind_keeps; [by keeps_auto|done|intros _].
    intros s2 Hf. unfold f in Hf. injection Hf as Hi Hl.
    destruct (stop_conditions_outcome iteration_limit env s2)
      as (c2 & w2 & -> & _ & Hc & Hlog). cbn.
    rewrite Hi, Hl in *. done. }
  intros Hrun. specialize (Hbody s eq_refl). by rewrite Hrun in Hbody.
Qed.

End BodyEnd.

Lemma body_ending_witness :
  let last := Session.mkIterEnv false false 8080 None true None []
                sample_test false (Some 0) 1 served_landing false true
                "e7f8" "l5m6" true (Some 0) 4096 in
  exists s1,
    Session.body (Some 1) last session0
    = (Ok (Session.Break Session.ReplayComplete), s1)
    /\ log_size_of s1 = 0.
Proof.
  intros last.
  destruct (Session.body (Some 1) last session0) as [[c|e] s1] eqn:Hbody;
    [|apply (f_equal fst) in Hbody; vm_compute in Hbody; discriminate].
  destruct (body_ending (Some 1) last session0 s1 c Hbody) as [Hc Hlog].
  cbn in Hc. subst c. exists s1. split; [done|]. exact Hlog.
Defined.

(** ** What an iteration of [Session.run] adds to the calls made *)

Section Seen.

Lemma seen_record (p : Event -> bool) (tr : list Event) (w : World) :
  seen p (record tr w) = (seen p w + tally p tr)%nat.
Proof. unfold seen, record. cbn. apply tally_app. Qed.

Lemma tally_none (p cls : Event -> bool) (tr : list Event) :
  (forall e, cls e = true -> p e = false) ->
  forallb cls tr = true -> tally p tr = 0%nat.
Proof.
  intros Hp. induction tr as [|e tr IH]; cbn; [done|].
  intros [He Htr]%andb_prop. by rewrite (Hp e He), IH.
Qed.

Lemma keeps_get {St X} (f : St -> X) : keeps f get.
Proof. done. Qed.

Lemma keeps_assert {St X} (f : St -> X) (b : bool) : keeps f (assert b).
Proof. by destruct b. Qed.

Lemma keeps_catch {St A X} (f : St -> X) (m : M St A) (h : exn -> M St A) :
  keeps f m -> (forall e, keeps f (h e)) -> keeps f (catch m h).
Proof.
  unfold keeps, catch. intros Hm Hh s. specialize (Hm s).
  destruct (m s) as [[a|e] s1]; cbn in *; [done|].
  by rewrite Hh.
Qed.

Lemma keeps_seen_emit (p : Event -> bool) (e : Event) :
  p e = false -> keeps (seen p) (emit e).
Proof.
  intros He w. unfold seen, emit, modify. cbn.
  rewrite tally_app. cbn. rewrite He. lia.
Qed.

Lemma keeps_seen_time (p : Event -> bool) : keeps (seen p) time.
Proof. done. Qed.

Lemma keeps_seen_set_dirs (p : Event -> bool) (f : World -> gset string) :
  keeps (seen p) (modify (fun w => set_dirs (f w) w)).
Proof. done. Qed.

Lemma keeps_world_io {T A X} (g : World -> X) (m : M World A) :
  keeps g m -> keeps (fun s : T * World => g s.2) (io m).
Proof.
  unfold keeps, io, zoom. intros Hm [x w]. cbn. specialize (Hm w).
  by destruct (m w) as [r w1].
Qed.

Lemma keeps_world_update {T X} (g : World -> X) (f : T -> T) :
  keeps (fun s : T * World => g s.2) (update f).
Proof. by intros [x w]. Qed.

Lemma keeps_world_on_runner {A X} (g : World -> X) (m : M Runner.St A) :
  keeps (fun s : Runner.St => g s.2) m ->
  keeps (fun s : Session.St => g s.2) (Session.on_runner m).
Proof.
  unfold keeps, Session.on_runner, zoom. intros Hm [x w]. cbn.
  specialize (Hm (Session.runner x, w)).
  by destruct (m (Session.runner x, w)) as [r [r1 w1]].
Qed.

Lemma keeps_world_on_limiter {A X} (g : World -> X)
    (m : M LogOutputLimiter.St A) :
  keeps (fun s : LogOutputLimiter.St => g s.2) m ->
  keeps (fun s : Session.St => g s.2) (Session.on_limiter m).
Proof.
  unfold keeps, Session.on_limiter, zoom. intros Hm [x w]. cbn.
  specialize (Hm (Session.log_limiter x, w)).
  by destruct (m (Session.log_limiter x, w)) as [r [l1 w1]].
Qed.

End Seen.

(** Proving that a statement makes no call of the kind counted. *)
Ltac seen_side :=
  first
    [ reflexivity
    | match goal with
      | H : forall e, _ e = true -> _ e = false |- _ => apply H; reflexivity
      end ].
Ltac seen_step :=
  first
    [ apply keeps_ret
    | apply keeps_raise
    | apply keeps_assert
    | apply keeps_get
    | apply keeps_seen_time
    | apply keeps_seen_emit; seen_side
    | apply keeps_seen_set_dirs
    | apply keeps_world_update
    | apply keeps_world_io
    | apply keeps_world_on_runner
    | apply keeps_world_on_limiter
    | apply keeps_catch; [|intros]
    | apply keeps_self; intros
    | apply keeps_bind; [|intros]
    | match goal with
      | |- keeps _ (if ?b then _ else _) => destruct b
      | |- keeps _ (match ?x with _ => _ end) => destruct x
      end ].
Ltac seen_auto := repeat seen_step.

Section SeenRunner.

Import Runner.

Context (p : Event -> bool).

Lemma launch_loop_seen (location : string) (retry_delay : Z)
    (rs : list Z) :
  (forall e, launch_event e = true -> p e = false) ->
  forall script, keeps (seen p) (launch_loop location retry_delay script rs).
Proof.
  intros Hp. induction rs as [|retries rs IH]; intros script; [done|].
  cbn [launch_loop]. unfold target_launch.
  apply keeps_bind; [by seen_auto|]. intros [|]; [apply IH|done].
Qed.

Lemma launch_seen (script : list launch_outcome) (location : string)
    (max_retries retry_delay : Z) :
  (forall e, launch_event e = true -> p e = false) ->
  keeps (fun s : Runner.St => seen p s.2)
        (launch script location max_retries retry_delay).
Proof.
  intros Hp. unfold launch.
  pose proof (launch_loop_seen location retry_delay
                (reversed (range max_retries)) Hp script) as Hloop.
  seen_auto. exact Hloop.
Qed.

(** What [run] adds to the trace: calls of [run]'s own kind, among them
    one to serve and one to detect failures when it returns. *)
Lemma run_trace (env : RunEnv) (testcase : TestCase)
    (test_path : option string) (coverage wait_for_callback : bool)
    (s : Runner.St) :
  exists tr,
    trace (run env testcase test_path coverage wait_for_callback s).2.2
    = trace s.2 ++ tr
    /\ forallb run_event tr = true
    /\ (forall res,
          (run env testcase test_path coverage wait_for_callback s).1 = Ok res ->
          tally is_serve tr = 1%nat /\ tally is_detect tr = 1%nat).
Proof.
  destruct s as [r w]. rewrite run_unfold.
  destruct (unpack_and_serve_events env test_path wait_for_callback
                                    (scheduled r w).2)
    as (serving & Htrace & Hserving & Hone).
  rewrite (proj2 (scheduled_world r w)) in Htrace.
  assert (forallb run_event serving = true) as Hrun.
  { clear -Hserving. induction serving as [|e tr IH]; [done|].
    cbn in *. apply andb_prop in Hserving as [He Htr].
    rewrite (IH Htr), andb_true_r. by destruct e. }
  assert (tally is_detect serving = 0%nat) as Hnone.
  { apply (tally_none _ serving_event); [by intros []|done]. }
  destruct (unpack_and_serve env test_path wait_for_callback (scheduled r w).2)
    as [[[[st served] duration]|e] w1]; cbn in *.
  - exists (serving ++ epilogue env testcase coverage st served).
    rewrite Htrace, <- app_assoc. split; [done|].
    assert (forallb run_event (EvAddBatch <$> include_urls env) = true
            /\ tally is_serve (EvAddBatch <$> include_urls env) = 0%nat
            /\ tally is_detect (EvAddBatch <$> include_urls env) = 0%nat)
      as (Hb1 & Hb2 & Hb3).
    { induction (include_urls env); [done|]. cbn. tauto. }
    split.
    + rewrite forallb_app, Hrun. unfold epilogue. rewrite !forallb_app, Hb1.
      by destruct (bool_decide (landing_page testcase ∈ served)), coverage,
           (status_eqb st SERVED_TIMEOUT).
    + intros res _. rewrite !tally_app, (Hone _ eq_refl), Hnone.
      unfold epilogue. rewrite !tally_app, Hb2, Hb3.
      by destruct (bool_decide (landing_page testcase ∈ served)), coverage,
           (status_eqb st SERVED_TIMEOUT).
  - exists serving. by repeat split.
Qed.

Lemma run_seen (env : RunEnv) (testcase : TestCase)
    (test_path : option string) (coverage wait_for_callback : bool) :
  (forall e, run_event e = true -> p e = false) ->
  keeps (fun s : Runner.St => seen p s.2)
        (run env testcase test_path coverage wait_for_callback).
Proof.
  intros Hp s.
  destruct (run_trace env testcase test_path coverage wait_for_callback s)
    as (tr & Htrace & Hcls & _).
  unfold seen. rewrite Htrace, tally_app, (tally_none p run_event tr Hp Hcls).
  lia.
Qed.

End SeenRunner.

Ltac seen_session :=
  repeat first
    [ apply launch_seen; by intros []
    | apply run_seen; by intros []
    | seen_step ].
Ltac seen_blocks :=
  unfold prepare, Session.relaunch, Session.generate_testcase,
    Session.display_status, LogOutputLimiter.ready,
    Session.adapter_callbacks, Session.update_test_case,
    Session.process_results, Session.report_result,
    Session.stop_conditions, finish, grz_tmp, mkdtemp, rmtree;
  seen_session.

Section Accounts.

Import Session.

Lemma deliver_prepare (env : IterEnv) (s : Session.St) :
  deliver env s
  = bind (prepare env)
         (fun current_test =>
            let! x := self in
            on_runner (Runner.run (run_env env) current_test None
                                  (coverage x) false)) s.
Proof.
  unfold deliver, prepare. symmetry.
  do 5 (rewrite bind_assoc; apply bind_ext; intros ? ?).
  rewrite bind_assoc. apply bind_ext. intros ? ?. reflexivity.
Qed.

Lemma keeps_pair {St A X Y} (f : St -> X) (g : St -> Y) (m : M St A) :
  keeps f m -> keeps g m -> keeps (fun s => (f s, g s)) m.
Proof. intros Hf Hg s. by rewrite Hf, Hg. Qed.

(** The delivery makes one call to serve and one to detect failures,
    reports nothing, and hands on the target's answer. *)
Lemma deliver_accounts (env : IterEnv) (s s2 : Session.St)
    (result : RunResult.t) :
  deliver env s = (Ok result, s2) ->
  RunResult.status result = classify (detect (run_env env))
  /\ ignored_of s2 = ignored_of s
  /\ seen is_submit s2.2 = seen is_submit s.2
  /\ seen is_serve s2.2 = S (seen is_serve s.2)
  /\ seen is_detect s2.2 = S (seen is_detect s.2).
Proof.
  intros Hdeliver.
  assert (keeps ignored_of (deliver env)) as Ki.
  { unfold deliver, relaunch, generate_testcase, display_status. keeps_auto. }
  assert (keeps (fun s : Session.St => seen is_submit s.2) (deliver env))
    as Ks by (unfold deliver; seen_blocks).
  specialize (Ki s). specialize (Ks s). rewrite Hdeliver in Ki, Ks.
  cbn [fst snd] in Ki, Ks.
  rewrite deliver_prepare in Hdeliver.
  apply bind_ok_inv in Hdeliver as (current_test & s1 & Hprepare & Hrun).
  apply bind_ok_inv in Hrun as (x & s1' & Hself & Hrun).
  injection Hself as <- <-.
  assert (keeps (fun s : Session.St => (seen is_serve s.2, seen is_detect s.2))
                (prepare env)) as Kp by (apply keeps_pair; seen_blocks).
  specialize (Kp s). rewrite Hprepare in Kp. cbn [fst snd] in Kp.
  injection Kp as Kserve Kdetect.
  unfold on_runner, zoom in Hrun.
  destruct (run_trace (run_env env) current_test None (coverage s1.1)
                             false (runner s1.1, s1.2))
    as (tr & Htrace & _ & Hone).
  destruct (Runner.run (run_env env) current_test None (coverage s1.1) false
                       (runner s1.1, s1.2))
    as [[res|e] [r1 w1]] eqn:Hrunner; [|done].
  injection Hrun as <- <-.
  destruct (Hone res eq_refl) as [Hserve Hdetect].
  apply run_returns in Hrunner as (st & served & duration & _ & -> & _).
  cbn [fst snd] in *. unfold seen in *.
  rewrite Htrace in Ks |- *. rewrite tally_app in Ks. rewrite !tally_app.
  repeat split; try done; lia.
Qed.

(** Processing the result reports a failure once, counts an ignored
    failure once and does neither for any other answer. *)
Lemma process_results_accounts (env : IterEnv) (result : RunResult.t)
    (s s1 : Session.St) :
  RunResult.status result = classify (detect (run_env env)) ->
  process_results env result s = (Ok tt, s1) ->
  ignored_of s1
  = ignored_of s
    + (if detect_eqb (detect (run_env env)) RESULT_IGNORED then 1 else 0)
  /\ seen is_submit s1.2
     = (seen is_submit s.2
        + (if detect_eqb (detect (run_env env)) RESULT_FAILURE then 1 else 0))%nat
  /\ seen is_serve s1.2 = seen is_serve s.2
  /\ seen is_detect s1.2 = seen is_detect s.2.
Proof.
  intros Hstatus Hprocess.
  assert (keeps (fun s : Session.St => (seen is_serve s.2, seen is_detect s.2))
                (process_results env result))
    as K by (apply keeps_pair; seen_blocks).
  specialize (K s). rewrite Hprocess in K. cbn [fst snd] in K.
  injection K as Kserve Kdetect.
  split; [|split; [|done]].
  - assert (hoare (fun s0 => ignored_of s0 = ignored_of s)
                  (process_results env result)
                  (fun r s0 =>
                     match r with
                     | Ok _ =>
                         ignored_of s0
                         = ignored_of s
                           + (if detect_eqb (detect (run_env env)) RESULT_IGNORED
                              then 1 else 0)
                     | Raise _ => True
                     end)) as H.
    { unfold process_results. rewrite Hstatus.
      destruct (detect (run_env env)); cbn [classify detect_eqb];
        repeat case_bool_decide; try done.
      - intros s0 Hs0. cbn. lia.
      - apply hoare_bind_keeps; [by keeps_auto|done|intros _].
        assert (keeps ignored_of (report_result env)) as K
          by (unfold report_result; keeps_auto).
        intros s0 Hs0. specialize (K s0).
        destruct (report_result env s0) as [[[]|e] s3]; [|done].
        cbn in *. lia.
      - intros [x w] Hs0. unfold ignored_of in *. cbn in *. lia. }
    specialize (H s eq_refl). by rewrite Hprocess in H.
  - revert Hprocess. unfold process_results. rewrite Hstatus.
    destruct (detect (run_env env)); cbn [classify detect_eqb];
      repeat case_bool_decide; try done.
    + intros [= <-]. lia.
    + destruct s as [x w].
      unfold report_result, submit, isdir, grz_tmp, mkdtemp, rmtree. mrun.
      case_bool_decide; mrun; [done|].
      destruct (logs_isdir env); mrun.
      * rewrite bool_decide_eq_true_2 by set_solver. mrun.
        rewrite bool_decide_eq_true_2 by set_solver. mrun.
        intros [= <-]. unfold seen. cbn. rewrite !tally_app. cbn. lia.
      * rewrite bool_decide_eq_false_2 by set_solver. mrun.
        intros [= <-]. unfold seen. cbn. rewrite !tally_app. cbn. lia.
    + destruct s as [x w]. mrun. intros [= <-]. unfold seen. cbn.
      rewrite !tally_app. cbn. lia.
Qed.

(** An iteration that ends without an exception. *)
Lemma body_accounts (iteration_limit : option Z) (env : IterEnv)
    (s s3 : Session.St) (c : ctl) :
  body iteration_limit env s = (Ok c, s3) ->
  iteration_of s3 = iteration_of s + 1
  /\ ignored_of s3
     = ignored_of s
       + (if detect_eqb (detect (run_env env)) RESULT_IGNORED then 1 else 0)
  /\ seen is_submit s3.2
     = (seen is_submit s.2
        + (if detect_eqb (detect (run_env env)) RESULT_FAILURE then 1 else 0))%nat
  /\ seen is_serve s3.2 = S (seen is_serve s.2)
  /\ seen is_detect s3.2 = S (seen is_detect s.2).
Proof.
  intros Hbody.
  pose proof (body_counts iteration_limit env (iteration_of s) s eq_refl)
    as Hcount.
  rewrite Hbody in Hcount. cbn [fst snd] in Hcount.
  split; [by destruct c, Hcount|].
  rewrite body_split in Hbody.
  apply bind_ok_inv in Hbody as (result & s2 & Hdeliver & H).
  apply deliver_accounts in Hdeliver as (Hstatus & Hi & Hsub & Hserve & Hdet).
  set (obs := fun s : Session.St =>
                (ignored_of s, (fun s : Session.St => seen is_submit s.2) s,
                 (fun s : Session.St => seen is_serve s.2) s,
                 (fun s : Session.St => seen is_detect s.2) s)).
  assert (forall {A} (m : M Session.St A),
            keeps ignored_of m ->
            keeps (fun s : Session.St => seen is_submit s.2) m ->
            keeps (fun s : Session.St => seen is_serve s.2) m ->
            keeps (fun s : Session.St => seen is_detect s.2) m ->
            keeps obs m) as Kobs.
  { intros A m K1 K2 K3 K4 s0. unfold obs. cbn beta.
    by rewrite K1, K2, K3, K4. }
  assert (keeps obs (adapter_callbacks result >> update_test_case env result))
    as K1.
  { apply Kobs; [unfold adapter_callbacks, update_test_case; keeps_auto
                |seen_blocks..]. }
  assert (keeps obs (io (emit EvCheckRelaunch) >>
                     stop_conditions iteration_limit env)) as K2.
  { apply Kobs; [unfold stop_conditions; keeps_auto|seen_blocks..]. }
  assert ((adapter_callbacks result >>
           update_test_case env result >>
           finish iteration_limit env result) s2
          = bind (adapter_callbacks result >> update_test_case env result)
                 (fun _ => bind (process_results env result)
                             (fun _ => io (emit EvCheckRelaunch) >>
                                       stop_conditions iteration_limit env))
                 s2) as Hsplit.
  { symmetry. rewrite bind_assoc. reflexivity. }
  rewrite Hsplit in H. clear Hsplit.
  apply bind_ok_inv in H as ([] & sa & Ha & H).
  apply bind_ok_inv in H as ([] & sb & Hb & H).
  specialize (K1 s2). rewrite Ha in K1.
  specialize (K2 sb). rewrite H in K2.
  apply (process_results_accounts _ _ _ _ Hstatus) in Hb
    as (Pi & Psub & Pserve & Pdet).
  unfold obs in K1, K2. cbn [fst snd] in K1, K2.
  injection K1 as A1 A2 A3 A4. injection K2 as B1 B2 B3 B4.
  repeat split; [lia..].
Qed.

(** The iterations a loop that ends without an exception has run are a
    prefix [ran] of its script. *)
Lemma loop_accounts (iteration_limit : option Z) (envs : list IterEnv) :
  forall (s s' : Session.St) (e : exit),
  loop iteration_limit envs s = (Ok e, s') ->
  exists ran rest,
    envs = ran ++ rest
    /\ (e = Running -> rest = [])
    /\ iteration_of s' = iteration_of s + Z.of_nat (length ran)
    /\ ignored_of s'
       = ignored_of s + Z.of_nat (detections RESULT_IGNORED ran)
    /\ seen is_submit s'.2
       = (seen is_submit s.2 + detections RESULT_FAILURE ran)%nat
    /\ seen is_serve s'.2 = (seen is_serve s.2 + length ran)%nat
    /\ seen is_detect s'.2 = (seen is_detect s.2 + length ran)%nat.
Proof.
  induction envs as [|env envs IH]; intros s s' e.
  - intros [= <- <-]. exists [], []. cbn. repeat split; lia.
  - rewrite loop_cons.
    destruct (body iteration_limit env s) as [[[|why]|x] s1] eqn:Hbody;
      [| |done].
    + intros Hloop.
      apply body_accounts in Hbody as (B1 & B2 & B3 & B4 & B5).
      destruct (IH _ _ _ Hloop) as (ran & rest & -> & L0 & L1 & L2 & L3 & L4 & L5).
      exists (env :: ran), rest. cbn [length detections app].
      split; [done|]. split; [exact L0|].
      destruct (detect (run_env env)); cbn [detect_eqb] in *;
        repeat split; lia.
    + intros [= <- <-].
      apply body_accounts in Hbody as (B1 & B2 & B3 & B4 & B5).
      exists [env], envs. cbn [length detections app].
      split; [done|]. split; [done|].
      destruct (detect (run_env env)); cbn [detect_eqb] in *;
        repeat split; lia.
Qed.

End Accounts.

Section ResultsAccounted.

Import Session.

(** X12.  When the loop of [Session.run] ends without an exception, the
    iterations it has run are a prefix [ran] of the script (all of it
    when the script is exhausted), the iteration counter has grown by
    their number, the reporter has been given one report for each of
    them in which the target detected a failure and none besides, and
    [status.ignored] has grown by the number of them in which the target
    detected an ignored failure. *)
Theorem results_accounted (iteration_limit : option Z) (envs : list IterEnv)
    (s s' : Session.St) (e : exit) :
  loop iteration_limit envs s = (Ok e, s') ->
  exists ran rest,
    envs = ran ++ rest
    /\ (e = Running -> rest = [])
    /\ iteration_of s' = iteration_of s + Z.of_nat (length ran)
    /\ seen is_submit s'.2
       = (seen is_submit s.2 + detections RESULT_FAILURE ran)%nat
    /\ ignored_of s'
       = ignored_of s + Z.of_nat (detections RESULT_IGNORED ran).
Proof.
  intros Hloop.
  destruct (loop_accounts _ _ _ _ _ Hloop)
    as (ran & rest & ? & ? & ? & ? & ? & _).
  by exists ran, rest.
Qed.

(** X13.  When the loop of [Session.run] ends without an exception, the
    server has been asked to serve a test case, and the target to detect
    failures, once for every iteration counted in [status.iteration]. *)
Theorem one_delivery_per_iteration (iteration_limit : option Z)
    (envs : list IterEnv) (s s' : Session.St) (e : exit) :
  loop iteration_limit envs s = (Ok e, s') ->
  Z.of_nat (seen is_serve s'.2)
  = Z.of_nat (seen is_serve s.2) + (iteration_of s' - iteration_of s)
  /\ Z.of_nat (seen is_detect s'.2)
     = Z.of_nat (seen is_detect s.2) + (iteration_of s' - iteration_of s).
Proof.
  intros Hloop.
  destruct (loop_accounts _ _ _ _ _ Hloop)
    as (ran & rest & _ & _ & ? & _ & _ & ? & ?).
  lia.
Qed.

End ResultsAccounted.

Lemma results_accounted_witness :
  exists s',
    Session.loop None mixed_iterations session0 = (Ok Session.Running, s')
    /\ iteration_of s' = 3
    /\ seen is_submit s'.2 = 1%nat
    /\ ignored_of s' = 1.
Proof.
  destruct (Session.loop None mixed_iterations session0) as [[e|x] s'] eqn:Hloop;
    [|apply (f_equal fst) in Hloop; vm_compute in Hloop; discriminate].
  assert (e = Session.Running) as ->.
  { apply (f_equal fst) in Hloop. vm_compute in Hloop. congruence. }
  exists s'. split; [done|].
  destruct (results_accounted None mixed_iterations session0 s'
              Session.Running Hloop)
    as (ran & rest & Hsplit & Hrest & Hiter & Hsubmit & Hignored).
  rewrite (Hrest eq_refl), app_nil_r in Hsplit. subst ran.
  split; [exact Hiter|]. split; [exact Hsubmit|exact Hignored].
Defined.

Lemma one_delivery_per_iteration_witness :
  exists s',
    Session.loop (Some 2) mixed_iterations session0
    = (Ok (Session.Stopped Session.HitIterationLimit), s')
    /\ Z.of_nat (seen is_serve s'.2) = iteration_of s'
    /\ Z.of_nat (seen is_detect s'.2) = iteration_of s'.
Proof.
  destruct (Session.loop (Some 2) mixed_iterations session0)
    as [[e|x] s'] eqn:Hloop;
    [|apply (f_equal fst) in Hloop; vm_compute in Hloop; discriminate].
  assert (e = Session.Stopped Session.HitIterationLimit) as ->.
  { apply (f_equal fst) in Hloop. vm_compute in Hloop. congruence. }
  exists s'. split; [done|].
  destruct (one_delivery_per_iteration (Some 2) mixed_iterations session0 s'
              _ Hloop) as [Hserve Hdetect].
  change (seen is_serve session0.2) with 0%nat in Hserve.
  change (seen is_detect session0.2) with 0%nat in Hdetect.
  change (iteration_of session0) with 0 in Hserve, Hdetect.
  split; lia.
Defined.

(** ** The launch budget of a session *)

Section LaunchBudget.

Import Session.

Lemma adds_keeps_bind {St A B} (g : St -> nat) (n : nat)
    (m : M St A) (k : A -> M St B) :
  keeps g m -> (forall a, adds g n (k a)) -> adds g n (bind m k).
Proof.
  unfold keeps, adds, bind. intros Hm Hk s. specialize (Hm s).
  destruct (m s) as [[a|x] s1]; cbn in *; [|lia].
  specialize (Hk a s1). lia.
Qed.

Lemma adds_bind_keeps {St A B} (g : St -> nat) (n : nat)
    (m : M St A) (k : A -> M St B) :
  adds g n m -> (forall a, keeps g (k a)) -> adds g n (bind m k).
Proof.
  unfold keeps, adds, bind. intros Hm Hk s. specialize (Hm s).
  destruct (m s) as [[a|x] s1]; cbn in *; [|lia].
  rewrite Hk. lia.
Qed.

Lemma launch_adds (script : list launch_outcome) (location : string)
    (n : nat) (retry_delay : Z) :
  adds (fun s : Runner.St => seen is_launch s.2) n
       (Runner.launch script location (Z.of_nat n) retry_delay).
Proof.
  unfold Runner.launch.
  apply adds_keeps_bind; [done|]. intros r.
  do 6 (apply adds_keeps_bind; [by seen_auto|]; intros _).
  apply adds_bind_keeps; [|intros; by seen_auto].
  intros [r0 w]. unfold io, zoom. cbn [fst snd].
  destruct (launch_loop_retries location retry_delay n script w)
    as (tr & Htrace & _ & Hle & _).
  destruct (Runner.launch_loop location retry_delay script
              (reversed (range (Z.of_nat n))) w) as [o w1].
  cbn [fst snd] in *. unfold seen. rewrite Htrace, tally_app. lia.
Qed.

Lemma relaunch_adds (env : IterEnv) :
  adds (fun s : Session.St => seen is_launch s.2)
       (if target_closed env then 3 else 0) (relaunch env).
Proof.
  unfold relaunch. destruct (target_closed env); [|intros s; cbn; lia].
  do 2 (apply adds_keeps_bind; [by seen_auto|]; intros _).
  apply adds_keeps_bind; [by seen_auto|]. intros location.
  intros [x w]. unfold on_runner, zoom. cbn [fst snd].
  pose proof (launch_adds (launch_script env) location 3 0 (runner x, w))
    as Hlaunch.
  change (Z.of_nat 3) with 3 in Hlaunch.
  destruct (Runner.launch (launch_script env) location 3 0 (runner x, w))
    as [o [r1 w1]].
  exact Hlaunch.
Qed.

Lemma body_adds (iteration_limit : option Z) (env : IterEnv) :
  adds (fun s : Session.St => seen is_launch s.2)
       (if target_closed env then 3 else 0) (body iteration_limit env).
Proof.
  unfold body.
  do 2 (apply adds_keeps_bind; [by seen_auto|]; intros _).
  apply adds_bind_keeps; [apply relaunch_adds|]. intros _. seen_blocks.
Qed.

(** X14.  However the loop of [Session.run] ends, along the way the
    target has been launched at most three times for every iteration
    that found it closed, and not at all for the others. *)
Theorem launch_budget (iteration_limit : option Z) (envs : list IterEnv)
    (s : Session.St) :
  (seen is_launch (loop iteration_limit envs s).2.2
   <= seen is_launch s.2 + 3 * closed_starts envs)%nat.
Proof.
  revert s. induction envs as [|env envs IH]; intros s; [cbn; lia|].
  rewrite loop_cons. pose proof (body_adds iteration_limit env s) as Hbody.
  destruct (body iteration_limit env s) as [[[|why]|x] s1];
    cbn [fst snd closed_starts] in *.
  - specialize (IH s1). destruct (target_closed env); lia.
  - destruct (target_closed env); lia.
  - destruct (target_closed env); lia.
Qed.

End LaunchBudget.

(** ** The directories a session leaves behind *)

Section Directories.

Import Session.

Lemma keeps_dirs_emit (e : Event) : keeps dirs (emit e).
Proof. done. Qed.

Lemma keeps_dirs_time : keeps dirs time.
Proof. done. Qed.

Ltac dirs_auto :=
  repeat first [ apply keeps_dirs_emit | apply keeps_dirs_time | seen_step ].

Lemma launch_loop_dirs (location : string) (retry_delay : Z) (rs : list Z) :
  forall script,
    keeps dirs (Runner.launch_loop location retry_delay script rs).
Proof.
  induction rs as [|retries rs IH]; intros script; [done|].
  cbn [Runner.launch_loop]. unfold Runner.target_launch.
  apply keeps_bind; [by dirs_auto|]. intros [|]; [apply IH|done].
Qed.

Lemma prepare_dirs (env : IterEnv) :
  keeps (fun s : Session.St => dirs s.2) (prepare env).
Proof.
  unfold prepare, relaunch, generate_testcase, display_status,
    LogOutputLimiter.ready, Runner.launch.
  dirs_auto; apply launch_loop_dirs.
Qed.

(** Serving from a scratch directory returns only if the directory could
    be made, and has removed it by then. *)
Lemma unpack_and_serve_ok_dirs (env : RunEnv) (wait_for_callback : bool)
    (w w' : World) (x : serve_status * list string * Z) :
  Runner.unpack_and_serve env None wait_for_callback w = (Ok x, w') ->
  dirs w' = dirs w ∪ {[ serve_root ]}.
Proof.
  intros H. destruct (decide (scratch_dir env ∈ dirs w)) as [Hin|Hout].
  - exfalso. revert H.
    unfold Runner.unpack_and_serve, grz_tmp, mkdtemp. mrun.
    change ("/tmp/grizzly/serve/test_" +:+ tmp_suffix env)
      with (scratch_dir env) in *.
    rewrite bool_decide_eq_true_2 by set_solver. by mrun.
  - destruct (unpack_and_serve_scratch env wait_for_callback w Hout)
      as [Hdirs _].
    by rewrite H in Hdirs.
Qed.

Lemma run_ok_dirs (env : RunEnv) (testcase : TestCase) (coverage : bool)
    (s s1 : Runner.St) (result : RunResult.t) :
  Runner.run env testcase None coverage false s = (Ok result, s1) ->
  dirs s1.2 = dirs s.2 ∪ {[ serve_root ]}.
Proof.
  destruct s as [r w]. rewrite run_unfold.
  destruct (Runner.unpack_and_serve env None false (scheduled r w).2)
    as [[[[st served] duration]|e] w1] eqn:Hserve; [|done].
  intros [= _ <-]. apply unpack_and_serve_ok_dirs in Hserve.
  cbn. by rewrite Hserve, (proj1 (scheduled_world r w)).
Qed.

Lemma deliver_dirs (env : IterEnv) (s s2 : Session.St)
    (result : RunResult.t) :
  deliver env s = (Ok result, s2) ->
  dirs s2.2 = dirs s.2 ∪ {[ serve_root ]}.
Proof.
  rewrite deliver_prepare. intros H.
  apply bind_ok_inv in H as (current_test & s1 & Hprepare & Hrun).
  apply bind_ok_inv in Hrun as (x & s1' & Hself & Hrun).
  injection Hself as <- <-.
  pose proof (prepare_dirs env s) as Kp. rewrite Hprepare in Kp.
  cbn [fst snd] in Kp.
  unfold on_runner, zoom in Hrun.
  destruct (Runner.run (run_env env) current_test None (coverage s1.1) false
                       (runner s1.1, s1.2))
    as [[res|e] [r1 w1]] eqn:Hrunner; [|done].
  injection Hrun as <- <-. apply run_ok_dirs in Hrunner.
  cbn [fst snd] in *. by rewrite Hrunner, Kp.
Qed.

Lemma update_test_case_dirs (env : IterEnv) (result : RunResult.t)
    (s s1 : Session.St) :
  update_test_case env result s = (Ok tt, s1) -> dirs s1.2 = dirs s.2.
Proof.
  intros H. pose proof (update_test_case_ok_inv _ _ _ _ H) as Hinv.
  revert H. unfold update_test_case.
  destruct (RunResult.attempted result).
  - intros H.
    match type of H with
    | ?m s = _ =>
        assert (keeps (fun s : Session.St => dirs s.2) m) as K by dirs_auto
    end.
    specialize (K s). by rewrite H in K.
  - destruct Hinv as [? | ->]; [done|]. intros H.
    match type of H with
    | ?m s = _ =>
        assert (keeps (fun s : Session.St => dirs s.2) m) as K by dirs_auto
    end.
    specialize (K s). by rewrite H in K.
Qed.

Lemma result_dir_not_root (env : IterEnv) : result_dir env <> logs_root.
Proof. unfold result_dir, logs_root. cbn. discriminate. Qed.

(** Reporting a result makes a directory for the logs, which is gone
    when [report_result] returns: the reporter has taken it away, or it
    is removed once the report is submitted. *)
Lemma report_result_dirs (env : IterEnv) (s s1 : Session.St) :
  report_result env s = (Ok tt, s1) ->
  dirs s1.2 = dirs s.2 ∪ {[ logs_root ]}.
Proof.
  destruct s as [x w].
  unfold report_result, submit, isdir, grz_tmp, mkdtemp, rmtree. mrun.
  change ("/tmp/grizzly/logs/logs_" +:+ logs_suffix env)
    with (result_dir env) in *.
  change "/tmp/grizzly/logs" with logs_root in *.
  pose proof (result_dir_not_root env).
  case_bool_decide; mrun; [done|].
  destruct (logs_isdir env); mrun.
  - rewrite bool_decide_eq_true_2 by set_solver. mrun.
    rewrite bool_decide_eq_true_2 by set_solver. mrun.
    intros [= <-]. cbn. set_solver.
  - rewrite bool_decide_eq_false_2 by set_solver. mrun.
    intros [= <-]. cbn. set_solver.
Qed.

Lemma process_results_dirs (env : IterEnv) (result : RunResult.t)
    (s s1 : Session.St) :
  RunResult.status result = classify (detect (run_env env)) ->
  process_results env result s = (Ok tt, s1) ->
  dirs s1.2
  = dirs s.2
    ∪ (if detect_eqb (detect (run_env env)) RESULT_FAILURE
       then {[ logs_root ]} else ∅).
Proof.
  intros Hstatus. unfold process_results. rewrite Hstatus.
  destruct (detect (run_env env)); cbn [classify detect_eqb];
    repeat case_bool_decide; try done.
  - intros [= <-]. set_solver.
  - intros Hrep. apply bind_ok_inv in Hrep as ([] & sa & Ha & Hrep).
    apply report_result_dirs in Hrep.
    assert (keeps (fun s : Session.St => dirs s.2)
                  (io (T := Session.t) (log DEBUG "result detected")))
      as K by dirs_auto.
    specialize (K s). rewrite Ha in K. cbn [fst snd] in K.
    rewrite Hrep, K. set_solver.
  - destruct s as [x w]. mrun. intros [= <-]. cbn. set_solver.
Qed.

Lemma body_dirs (iteration_limit : option Z) (env : IterEnv)
    (s s3 : Session.St) (c : ctl) :
  body iteration_limit env s = (Ok c, s3) ->
  dirs s3.2
  = dirs s.2 ∪ {[ serve_root ]}
    ∪ (if detect_eqb (detect (run_env env)) RESULT_FAILURE
       then {[ logs_root ]} else ∅).
Proof.
  rewrite body_split. intros H.
  apply bind_ok_inv in H as (result & s2 & Hdeliver & H).
  pose proof (deliver_accounts _ _ _ _ Hdeliver) as (Hstatus & _).
  apply deliver_dirs in Hdeliver.
  apply bind_ok_inv in H as ([] & sa & Ha & H).
  apply bind_ok_inv in H as ([] & sb & Hb & H).
  unfold finish in H.
  apply bind_ok_inv in H as ([] & sc & Hc & H).
  assert (keeps (fun s : Session.St => dirs s.2) (adapter_callbacks result))
    as K1 by (unfold adapter_callbacks; dirs_auto).
  assert (keeps (fun s : Session.St => dirs s.2)
                (io (emit EvCheckRelaunch) >>
                 stop_conditions iteration_limit env))
    as K2 by (unfold stop_conditions; dirs_auto).
  specialize (K1 s2). rewrite Ha in K1.
  specialize (K2 sc). rewrite H in K2. cbn [fst snd] in K1, K2.
  apply update_test_case_dirs in Hb.
  apply (process_results_dirs _ _ _ _ Hstatus) in Hc.
  rewrite K2, Hc, Hb, K1, Hdeliver. done.
Qed.

(** X15.  When the loop of [Session.run] ends without an exception, and
    the log directory of every reported result was still in place when
    [report_result] looked for it, then no directory that existed before
    is gone and the only directories that may be new are the two roots
    that [grz_tmp] provides: every scratch directory of a test case and
    every log directory of a report has been removed again. *)
Theorem no_directory_left_behind (iteration_limit : option Z)
    (envs : list IterEnv) (s s' : Session.St) (e : exit) :
  Forall (fun env => logs_isdir env = true) envs ->
  loop iteration_limit envs s = (Ok e, s') ->
  dirs s.2 ⊆ dirs s'.2
  /\ dirs s'.2 ⊆ dirs s.2 ∪ {[ serve_root; logs_root ]}.
Proof.
  intros Hisdir. revert s.
  induction Hisdir as [|env envs Henv _ IH]; intros s.
  - intros [= <- <-]. set_solver.
  - rewrite loop_cons.
    destruct (body iteration_limit env s) as [[[|why]|x] s1] eqn:Hbody;
      [| |done].
    + intros Hloop. apply body_dirs in Hbody.
      destruct (IH _ Hloop) as [IH1 IH2]. revert IH1 IH2. rewrite Hbody.
      destruct (detect_eqb (detect (run_env env)) RESULT_FAILURE);
        set_solver.
    + intros [= <- <-]. apply body_dirs in Hbody.
      rewrite Hbody.
      destruct (detect_eqb (detect (run_env env)) RESULT_FAILURE);
        set_solver.
Qed.

End Directories.

Lemma no_directory_left_behind_witness :
  exists s',
    Session.loop None mixed_iterations session0 = (Ok Session.Running, s')
    /\ dirs s'.2 ⊆ {[ serve_root; logs_root ]}.
Proof.
  destruct (Session.loop None mixed_iterations session0) as [[e|x] s'] eqn:Hloop;
    [|apply (f_equal fst) in Hloop; vm_compute in Hloop; discriminate].
  assert (e = Session.Running) as ->.
  { apply (f_equal fst) in Hloop. vm_compute in Hloop. congruence. }
  exists s'. split; [done|].
  destruct (no_directory_left_behind None mixed_iterations session0 s'
              Session.Running ltac:(repeat constructor) Hloop)
    as [_ Hnew].
  change (dirs session0.2) with (∅ : gset string) in Hnew.
  set_solver.
Defined.

(** ** A target that cannot be launched *)

Section LaunchFailure.

Import Session.

Lemma launch_three_failures (o1 o2 o3 : launch_outcome)
    (rest : list launch_outcome) (location : string)
    (r : Runner.t) (w : World) :
  o1 <> LaunchOk -> o2 <> LaunchOk -> o3 <> LaunchOk ->
  is_Some (Runner._server r) -> is_Some (Runner._target r) ->
  exists tr,
    Runner.launch (o1 :: o2 :: o3 :: rest) location 3 0 (r, w)
    = (Raise (launch_error o3), (r, record tr w))
    /\ filter (fun e => is_launch e = true) tr
       = [EvTargetLaunch location; EvTargetLaunch location;
          EvTargetLaunch location]
    /\ forallb launch_event tr = true.
Proof.
  intros H1 H2 H3 Hserver Htarget. unfold Runner.launch. mrun.
  rewrite !bool_decide_eq_true_2 by done. mrun.
  change (reversed (range 3)) with [2; 1; 0].
  cbn [Runner.launch_loop hd tl]. unfold Runner.target_launch.
  destruct o1, o2, o3; try done; mrun;
    eexists; (split; [unfold record; cbn; rewrite <- !app_assoc; cbn;
                      reflexivity|]); by split.
Qed.

Lemma session_location (env : IterEnv) :
  (harness env = true ->
   non_negative (rl_reset env) /\ non_negative (test_duration env)) ->
  (if negb (harness env)
   then Runner.location "/grz_current_test" (server_port env) None true None
   else Runner.location "/grz_harness" (server_port env) (rl_reset env)
                        (forced_close env) (test_duration env))
  = Ok (session_url env).
Proof.
  intros Hargs. unfold session_url. destruct (harness env); cbn [negb].
  - destruct (Hargs eq_refl). by apply location_spec_url.
  - by apply location_spec_url.
Qed.

(** X16.  When an iteration finds the target closed and the target fails
    to launch three times in a row, the loop of [Session.run] ends in
    that iteration with the exception of the third failure.  The target
    was launched three times with the session's URL, no test case was
    served, the per-launch counter of the runner is what it was, and the
    iteration has already been counted in [status.iteration]. *)
Theorem launch_failure_ends_session (iteration_limit : option Z)
    (env : IterEnv) (envs : list IterEnv) (s : Session.St)
    (o1 o2 o3 : launch_outcome) (rest : list launch_outcome) :
  target_closed env = true ->
  (harness env = true ->
   non_negative (rl_reset env) /\ non_negative (test_duration env)) ->
  launch_script env = o1 :: o2 :: o3 :: rest ->
  o1 <> LaunchOk -> o2 <> LaunchOk -> o3 <> LaunchOk ->
  is_Some (Runner._server (runner s.1)) ->
  is_Some (Runner._target (runner s.1)) ->
  exists tr,
    loop iteration_limit (env :: envs) s
    = (Raise (launch_error o3),
       (increment_iteration s.1, record tr s.2))
    /\ filter (fun e => is_launch e = true) tr
       = [EvTargetLaunch (session_url env); EvTargetLaunch (session_url env);
          EvTargetLaunch (session_url env)]
    /\ tally is_serve tr = 0%nat.
Proof.
  intros Hclosed Hargs Hscript H1 H2 H3 Hserver Htarget.
  destruct s as [x w]. cbn [fst snd] in *.
  set (W := record [EvPreLaunch]
              (record [EvPurgeTests] (record [EvStatusReport] w))).
  destruct (launch_three_failures o1 o2 o3 rest (session_url env) (runner x)
              W H1 H2 H3 Hserver Htarget)
    as (tr & Hlaunch & Hfilter & Hcls).
  exists ([EvStatusReport; EvPurgeTests; EvPreLaunch] ++ tr).
  split; [|split].
  - rewrite loop_cons. unfold body.
    rewrite (bind_ok _ _ _ (x, record [EvStatusReport] w) tt) by reflexivity.
    rewrite (bind_ok _ _ _ (increment_iteration x, record [EvStatusReport] w)
                     tt) by reflexivity.
    rewrite (bind_raise (relaunch env) _ _
                        (increment_iteration x, record tr W)
                        (launch_error o3)).
    + do 2 f_equal. unfold W. by rewrite !record_record.
    + unfold relaunch.
      rewrite Hclosed, (session_location env Hargs), Hscript.
      rewrite (bind_ok _ _ _
                 (increment_iteration x,
                  record [EvPurgeTests] (record [EvStatusReport] w)) tt)
        by reflexivity.
      rewrite (bind_ok _ _ _ (increment_iteration x, W) tt) by reflexivity.
      rewrite (bind_ok _ _ _ (increment_iteration x, W) (session_url env))
        by reflexivity.
      unfold on_runner, zoom. cbn [fst snd].
      change (runner (increment_iteration x)) with (runner x).
      rewrite Hlaunch. cbn [fst snd]. by destruct x.
  - rewrite filter_app. exact Hfilter.
  - rewrite tally_app. cbn.
    apply (tally_none _ launch_event); [by intros []|done].
Qed.

End LaunchFailure.

Lemma launch_failure_ends_session_witness :
  exists tr,
    Session.loop None (launch_never_succeeds :: three_iterations) session0
    = (Raise TargetLaunchTimeout,
       (Session.increment_iteration session0.1, record tr session0.2))
    /\ filter (fun e => is_launch e = true) tr
       = [EvTargetLaunch "http://127.0.0.1:8080/grz_current_test";
          EvTargetLaunch "http://127.0.0.1:8080/grz_current_test";
          EvTargetLaunch "http://127.0.0.1:8080/grz_current_test"]
    /\ tally is_serve tr = 0%nat.
Proof.
  apply (launch_failure_ends_session None launch_never_succeeds
           three_iterations session0 LaunchFails LaunchTimesOut
           LaunchTimesOut []);
    try done; by eexists.
Defined.

(** ** Coverage dumps *)

Section Coverage.

Import Session.

Lemma run_without_coverage (env : RunEnv) (testcase : TestCase)
    (test_path : option string) (wait_for_callback : bool) :
  keeps (fun s : Runner.St => seen is_coverage s.2)
        (Runner.run env testcase test_path false wait_for_callback).
Proof.
  intros [r w]. rewrite run_unfold.
  destruct (unpack_and_serve_events env test_path wait_for_callback
                                    (scheduled r w).2)
    as (serving & Htrace & Hserving & _).
  rewrite (proj2 (scheduled_world r w)) in Htrace.
  assert (tally is_coverage serving = 0%nat) as Hnone.
  { apply (tally_none _ serving_event); [by intros []|done]. }
  destruct (Runner.unpack_and_serve env test_path wait_for_callback
                                    (scheduled r w).2)
    as [[[[st served] duration]|e] w1]; cbn in *; unfold seen.
  - rewrite Htrace, !tally_app, Hnone. unfold epilogue.
    rewrite andb_false_r. cbn [andb]. rewrite !tally_app.
    assert (tally is_coverage (EvAddBatch <$> include_urls env) = 0%nat)
      as -> by (induction (include_urls env); done).
    destruct (bool_decide (landing_page testcase ∈ served)); cbn; lia.
  - rewrite Htrace, tally_app, Hnone. lia.
Qed.

Lemma body_without_coverage (iteration_limit : option Z) (env : IterEnv)
    (s : Session.St) :
  coverage s.1 = false ->
  coverage (body iteration_limit env s).2.1 = false
  /\ seen is_coverage (body iteration_limit env s).2.2
     = seen is_coverage s.2.
Proof.
  intros Hoff.
  set (obs := fun s0 : Session.St =>
                ((fun s0 : Session.St => coverage s0.1) s0,
                 (fun s0 : Session.St => seen is_coverage s0.2) s0)).
  assert (forall {A} (m : M Session.St A),
            keeps (fun s0 : Session.St => coverage s0.1) m ->
            keeps (fun s0 : Session.St => seen is_coverage s0.2) m ->
            keeps obs m) as Kobs.
  { intros A m K1 K2. by apply keeps_pair. }
  assert (hoare (fun s0 => obs s0 = (false, seen is_coverage s.2))
                (body iteration_limit env)
                (fun _ s0 => obs s0 = (false, seen is_coverage s.2)))
    as Hbody.
  { unfold body.
    do 2 (apply hoare_bind_keeps;
          [apply Kobs; [by keeps_auto|by seen_blocks]|done|intros _]).
    apply hoare_bind_keeps;
      [apply Kobs; [unfold relaunch; by keeps_auto|by seen_blocks]
      |done|intros _].
    apply hoare_bind_keeps;
      [apply Kobs; [by keeps_auto|by seen_blocks]|done|intros _].
    apply hoare_bind_keeps;
      [apply Kobs; [unfold generate_testcase; by keeps_auto|by seen_blocks]
      |done|intros current_test].
    apply hoare_bind_keeps;
      [apply Kobs; [unfold display_status; by keeps_auto|by seen_blocks]
      |done|intros _].
    intros s0 Hs0. unfold bind at 1. unfold self. cbn [fst snd].
    assert (coverage s0.1 = false) as -> by (by injection Hs0).
    revert s0 Hs0.
    change (hoare (fun s0 => obs s0 = (false, seen is_coverage s.2))
              (bind (on_runner
                       (Runner.run (run_env env) current_test None false false))
                    (fun result =>
                       adapter_callbacks result >>
                       update_test_case env result >>
                       process_results env result >>
                       io (emit EvCheckRelaunch) >>
                       stop_conditions iteration_limit env))
              (fun _ s0 => obs s0 = (false, seen is_coverage s.2))).
    apply hoare_bind_keeps;
      [apply Kobs;
       [by keeps_auto
       |apply keeps_world_on_runner, run_without_coverage]
      |done|intros result].
    apply hoare_bind_keeps;
      [apply Kobs; [unfold adapter_callbacks; by keeps_auto|by seen_blocks]
      |done|intros _].
    apply hoare_bind_keeps;
      [apply Kobs; [unfold update_test_case; by keeps_auto|by seen_blocks]
      |done|intros _].
    apply hoare_bind_keeps;
      [apply Kobs; [unfold process_results, report_result; by keeps_auto
                   |by seen_blocks]
      |done|intros _].
    apply hoare_bind_keeps;
      [apply Kobs; [by keeps_auto|by seen_blocks]|done|intros _].
    assert (keeps obs (stop_conditions iteration_limit env)) as K
      by (apply Kobs; [unfold stop_conditions; by keeps_auto|by seen_blocks]).
    intros s0 Hs0. by rewrite K. }
  assert (obs s = (false, seen is_coverage s.2)) as Hs
    by (unfold obs; by rewrite Hoff).
  specialize (Hbody s Hs). unfold obs in Hbody. by injection Hbody.
Qed.

(** X17.  A session made without [coverage] never asks the target to
    dump coverage: however the loop of [Session.run] ends, no call of
    [dump_coverage] has been added, and the setting is what it was. *)
Theorem no_coverage_unless_enabled (iteration_limit : option Z)
    (envs : list IterEnv) (s : Session.St) :
  coverage s.1 = false ->
  seen is_coverage (loop iteration_limit envs s).2.2 = seen is_coverage s.2
  /\ coverage (loop iteration_limit envs s).2.1 = false.
Proof.
  revert s. induction envs as [|env envs IH]; intros s Hoff; [done|].
  rewrite loop_cons.
  destruct (body_without_coverage iteration_limit env s Hoff) as [Hc Hseen].
  destruct (body iteration_limit env s) as [[[|why]|x] s1];
    cbn [fst snd] in *; [|done..].
  destruct (IH s1 Hc) as [IH1 IH2]. split; [congruence|done].
Qed.

End Coverage.

Lemma no_coverage_unless_enabled_witness :
  seen is_coverage (Session.loop None mixed_iterations session0).2.2 = 0%nat
  /\ Session.coverage (Session.loop None mixed_iterations session0).2.1
     = false.
Proof.
  apply (no_coverage_unless_enabled None mixed_iterations session0).
  reflexivity.
Defined.
